(** * kernel_samples: a shallow embedding of the educational kernel

    The development follows the C sources: the cooperative scheduler
    ([scheduler.c]), the lock and semaphore primitives ([thread.c]), the
    mailbox ring ([mbox.c]), the filesystem ([fs.c]) and the host image
    builder (the [main] appended to [fs.c]).

    Conventions.
    - A C [int] is a [Z]; signed overflow is undefined in C and the model
      covers the executions without it.  [/] and [%] on [int] are
      [Z.quot] and [Z.rem] (truncation towards zero).
    - A byte is a [Z]; a store through [unsigned char] keeps the low
      eight bits ([to_uchar]).
    - An array is a [list] read with [load] and written with [store];
      an access outside the array is undefined in C: here a read
      gives 0 and a write is dropped. *)

From Stdlib Require Import ZArith Lia List Bool.
From stdpp Require Import base list functions.
Import ListNotations.

Local Open Scope Z_scope.

(** ** C arrays *)

Definition aget {A} (dflt : A) (l : list A) (i : Z) : A :=
  if i <? 0 then dflt else default dflt (l !! Z.to_nat i).

Definition aset {A} (l : list A) (i : Z) (v : A) : list A :=
  if i <? 0 then l else <[Z.to_nat i := v]> l.

Definition load (l : list Z) (i : Z) : Z :=
  if i <? 0 then 0 else default 0 (l !! Z.to_nat i).

Definition store (l : list Z) (i : Z) (v : Z) : list Z :=
  if i <? 0 then l else <[Z.to_nat i := v]> l.

Definition to_uchar (v : Z) : Z := v mod 256.

(** The bytes of an [int] of the (little-endian) host, as [fwrite]
    writes them. *)
Definition int_bytes (v : Z) : list Z :=
  [v mod 256; (v / 256) mod 256; (v / 65536) mod 256;
   (v / 16777216) mod 256].

(** ** Filesystem bitmaps ([fs.c]) *)

Module Bitmap.

Definition BITMAP_ENTRIES : Z := 256.

(** [check_bit]: bit [i] lives in byte [i / 8], at bit [7 - i % 8].  The
    callers pass [0 <= i], so that only the low eight bits of the
    promoted [char] are tested. *)
Definition check_bit (i : Z) (bitmap : list Z) : Z :=
  let index := Z.quot i 8 in
  let bit := 7 - Z.rem i 8 in
  if Z.land (load bitmap index) (Z.shiftl 1 bit) >? 0 then 1 else 0.

(** The [if / else if] chain of [get_free_entry] on one byte: the new
    value of the byte and the offset that is added to [i * 8]. *)
Definition claim_bit (v : Z) : option (Z * Z) :=
  if Z.land v 0x80 =? 0 then Some (to_uchar (Z.lor v 0x80), 0)
  else if Z.land v 0x40 =? 0 then Some (to_uchar (Z.lor v 0x40), 1)
  else if Z.land v 0x20 =? 0 then Some (to_uchar (Z.lor v 0x20), 2)
  else if Z.land v 0x10 =? 0 then Some (to_uchar (Z.lor v 0x10), 3)
  else if Z.land v 0x08 =? 0 then Some (to_uchar (Z.lor v 0x08), 4)
  else if Z.land v 0x04 =? 0 then Some (to_uchar (Z.lor v 0x04), 5)
  else if Z.land v 0x02 =? 0 then Some (to_uchar (Z.lor v 0x02), 6)
  else if Z.land v 0x01 =? 0 then Some (to_uchar (Z.lor v 0x01), 7)
  else None.

(** The [for] loop of [get_free_entry], [n] iterations left, at byte [i]. *)
Fixpoint get_free_entry_loop (n : nat) (i : Z) (bitmap : list Z)
  : Z * list Z :=
  match n with
  | O => (-1, bitmap)
  | S n' =>
      let v := load bitmap i in
      if v =? 0xff then get_free_entry_loop n' (i + 1) bitmap
      else
        match claim_bit v with
        | Some (v', k) => (i * 8 + k, store bitmap i v')
        | None => get_free_entry_loop n' (i + 1) bitmap
        end
  end.

(** [get_free_entry]: the loop runs over [BITMAP_ENTRIES / 8] bytes. *)
Definition get_free_entry (bitmap : list Z) : Z * list Z :=
  get_free_entry_loop (Z.to_nat (Z.quot BITMAP_ENTRIES 8)) 0 bitmap.

(** [free_bitmap_entry]: the [switch] on [entry % 8]. *)
Definition free_bitmap_entry (entry : Z) (bitmap : list Z) : Z * list Z :=
  if entry >=? BITMAP_ENTRIES then (-1, bitmap)
  else
    let idx := Z.quot entry 8 in
    let bme := load bitmap idx in
    let clear m := store bitmap idx (to_uchar (Z.land bme (Z.lnot m))) in
    (0, match Z.rem entry 8 with
        | 0 => clear 0x80
        | 1 => clear 0x40
        | 2 => clear 0x20
        | 3 => clear 0x10
        | 4 => clear 0x08
        | 5 => clear 0x04
        | 6 => clear 0x02
        | 7 => clear 0x01
        | _ => bitmap
        end).

(** The inner loop of [bitmap_used_space] on the byte [v]: [n] bits left,
    at bit [y].  The byte is a [char]; the mask [1 << y] with [y < 8]
    selects one of its low eight bits, whatever the sign of [char]. *)
Fixpoint count_byte (n : nat) (y : Z) (v : Z) (counter : Z) : Z :=
  match n with
  | O => counter
  | S n' =>
      count_byte n' (y + 1) v
        (if Z.land v (Z.shiftl 1 y) >? 0 then counter + 1 else counter)
  end.

(** The outer loop: [n] bytes left, at byte [x]. *)
Fixpoint bitmap_used_space_loop (n : nat) (x : Z) (bitmap : list Z)
    (counter : Z) : Z :=
  match n with
  | O => counter
  | S n' =>
      bitmap_used_space_loop n' (x + 1) bitmap
        (count_byte 8 0 (load bitmap x) counter)
  end.

(** [bitmap_used_space]: the loop runs over [BITMAP_ENTRIES] bytes. *)
Definition bitmap_used_space (bitmap : list Z) : Z :=
  bitmap_used_space_loop (Z.to_nat BITMAP_ENTRIES) 0 bitmap 0.

(** *** Bits and bytes, for the properties *)

Definition is_byte (v : Z) : Prop := 0 <= v < 256.

Definition bit_of (v k : Z) : bool := Z.land v (Z.shiftl 1 (7 - k)) >? 0.

Definition mask_of (k : Z) : Z := Z.shiftr 0x80 k.

Definition claim_bit_ok (v : Z) : bool :=
  match claim_bit v with
  | Some (v', k) =>
      (0 <=? k) && (k <? 8) && (0 <=? v') && (v' <? 256)
      && negb (bit_of v k) && bit_of v' k
      && (to_uchar (Z.land v' (Z.lnot (mask_of k))) =? v)
      && forallb (fun j => (j =? k) || eqb (bit_of v' j) (bit_of v j))
                 [0; 1; 2; 3; 4; 5; 6; 7]
      && forallb (fun j => negb (j <? k) || bit_of v j)
                 [0; 1; 2; 3; 4; 5; 6; 7]
  | None => v =? 0xff
  end.

(** The bitmap whose first 256 bits are taken and whose other bits are
    free. *)
Definition low_bits_taken : list Z := repeat 0xff 32 ++ repeat 0 224.

(** The number of bits set in a byte. *)
Definition popcount (v : Z) : Z := count_byte 8 0 v 0.

(** [claim_bit] on a byte that is not full sets one more bit. *)
Definition claim_bit_adds_one (v : Z) : bool :=
  match claim_bit v with
  | Some (v', k) => popcount v' =? popcount v + 1
  | None => true
  end.

(** Clearing bit [k] of a byte, as [free_bitmap_entry] does, lowers the
    number of its bits by the old value of the bit. *)
Definition clear_bit_drops (v : Z) : bool :=
  forallb (fun k =>
             popcount (to_uchar (Z.land v (Z.lnot (mask_of k))))
             =? (if bit_of v k then popcount v - 1 else popcount v))
          [0; 1; 2; 3; 4; 5; 6; 7].

(** Clearing bit [k] of a byte, as [free_bitmap_entry] does, gives a
    byte with bit [k] clear and the other bits unchanged. *)
Definition clear_bit_ok (v : Z) : bool :=
  forallb (fun k =>
     let v' := to_uchar (Z.land v (Z.lnot (mask_of k))) in
     (0 <=? v') && (v' <? 256)
     && forallb (fun j => eqb (bit_of v' j)
                              (if j =? k then false else bit_of v j))
                [0; 1; 2; 3; 4; 5; 6; 7])
   [0; 1; 2; 3; 4; 5; 6; 7].

End Bitmap.

(** ** Filesystem ([fs.c]) *)

Module FS.
Import Bitmap.

(** Constants of [fs.c] itself. *)
Definition INODE_BLOCKS : Z := 32.
Definition BITMAP_BLOCKS : Z := 2.
Definition INODE_SIZE : Z := 32.
Definition MAX_INODES : Z := 512.

(** Modelled from the spec: [block.h] is missing; the block device has
    fixed 512-byte sectors and one filesystem block is one sector. *)
Definition BLOCK_SIZE : Z := 512.

(** Modelled from the spec: [fs.h] is missing; section 6 gives the open
    modes and the [whence] values. *)
Definition MODE_UNUSED : Z := 0.
Definition MODE_RDONLY : Z := 1.
Definition MODE_WRONLY : Z := 2.
Definition MODE_RDWR : Z := 3.
Definition MODE_CREAT : Z := 4.
Definition SEEK_SET : Z := 0.
Definition SEEK_CUR : Z := 1.
Definition SEEK_END : Z := 2.

(** Modelled from the spec: [fs_error.h] is missing; section 6 gives
    [FSE_OK = 0] and negative values for every other code. *)
Definition FSE_OK : Z := 0.

Record disk_inode := mk_disk_inode {
  i_type : Z;
  i_size : Z;
  i_nlinks : Z;
  i_direct : list Z
}.

(** The constants and layouts of the headers that are not part of the
    sources ([inode.h], [fs.h], [fs_error.h]): the number of direct
    slots, the size of the filesystem region, the error codes, which
    are negative, and the bytes of a [struct disk_inode]. *)
Class fs_params := {
  INODE_NDIRECT : Z;
  FS_BLOCKS : Z;
  FSE_ERROR : Z;
  FSE_FULL : Z;
  FSE_INODETABLEFULL : Z;
  FSE_INVALIDMODE : Z;
  FSE_EOF : Z;
  inode_bytes : disk_inode -> list Z;
  FSE_ERROR_neg : FSE_ERROR < 0;
  FSE_FULL_neg : FSE_FULL < 0;
  FSE_INODETABLEFULL_neg : FSE_INODETABLEFULL < 0;
  FSE_INVALIDMODE_neg : FSE_INVALIDMODE < 0;
  FSE_EOF_neg : FSE_EOF < 0
}.

Record mem_inode := mk_mem_inode {
  d_inode : disk_inode;
  open_count : Z;
  pos : Z;
  dirty : Z;
  inode_num : Z
}.

Record disk_superblock := mk_super {
  ninodes : Z;
  ndata_blks : Z;
  max_filesize : Z;
  root_inode : Z
}.

(** One slot of the open-file table of the running task. *)
Record file_descriptor := mk_fd {
  mode : Z;
  idx : Z
}.

(** Modelled from the spec: [block.c] is missing; the device is an array
    of sectors, addressed here by sector number and byte offset. *)
Definition disk_t := Z -> Z -> Z.

(** The statics of [fs.c], the open-file table of [current_running] and
    the block device. *)
Record fs_state := mk_fs {
  SUPER_BLOCK_START : Z;
  super : disk_superblock;
  inode_bmap : list Z;
  dblk_bmap : list Z;
  inodes : list mem_inode;
  filedes : list file_descriptor;
  disk : disk_t
}.

Definition no_inode : mem_inode :=
  mk_mem_inode (mk_disk_inode 0 0 0 []) 0 0 0 0.

Definition inode_at (st : fs_state) (id : Z) : mem_inode :=
  aget no_inode (inodes st) id.

Definition fd_at (st : fs_state) (fd : Z) : file_descriptor :=
  aget (mk_fd 0 0) (filedes st) fd.

(** Field updates. *)
Definition set_disk (st : fs_state) (d : disk_t) : fs_state :=
  mk_fs (SUPER_BLOCK_START st) (super st) (inode_bmap st) (dblk_bmap st)
        (inodes st) (filedes st) d.

Definition set_bmaps (st : fs_state) (ib db : list Z) : fs_state :=
  mk_fs (SUPER_BLOCK_START st) (super st) ib db
        (inodes st) (filedes st) (disk st).

Definition set_inode (st : fs_state) (id : Z) (i : mem_inode) : fs_state :=
  mk_fs (SUPER_BLOCK_START st) (super st) (inode_bmap st) (dblk_bmap st)
        (aset (inodes st) id i) (filedes st) (disk st).

Definition set_fd (st : fs_state) (fd : Z) (d : file_descriptor) : fs_state :=
  mk_fs (SUPER_BLOCK_START st) (super st) (inode_bmap st) (dblk_bmap st)
        (inodes st) (aset (filedes st) fd d) (disk st).

Definition with_direct (i : mem_inode) (direct : list Z) : mem_inode :=
  mk_mem_inode
    (mk_disk_inode (i_type (d_inode i)) (i_size (d_inode i))
                   (i_nlinks (d_inode i)) direct)
    (open_count i) (pos i) (dirty i) (inode_num i).

Definition with_size (i : mem_inode) (size : Z) : mem_inode :=
  mk_mem_inode
    (mk_disk_inode (i_type (d_inode i)) size
                   (i_nlinks (d_inode i)) (i_direct (d_inode i)))
    (open_count i) (pos i) (dirty i) (inode_num i).

Definition with_pos (i : mem_inode) (p : Z) : mem_inode :=
  mk_mem_inode (d_inode i) (open_count i) p (dirty i) (inode_num i).

Definition with_open_count (i : mem_inode) (c : Z) : mem_inode :=
  mk_mem_inode (d_inode i) c (pos i) (dirty i) (inode_num i).

(** *** Block device *)

(** Modelled from the spec: [block_modify (lba, offset, buf, len)]
    overwrites [len] bytes of sector [lba] from [offset] on with
    [buf[from .. from+len)]. *)
Definition block_modify (d : disk_t) (blk off : Z) (buf : list Z)
    (from len : Z) : disk_t :=
  fun b o =>
    if (b =? blk) && (off <=? o) && (o <? off + len)
    then load buf (from + (o - off))
    else d b o.

(** Modelled from the spec: [block_read_part (lba, offset, len, buf)]
    copies [len] bytes of sector [lba] from [offset] on to
    [buf[to .. to+len)]. *)
Fixpoint read_cells (n : nat) (d : disk_t) (blk off : Z) (buf : list Z)
    (to : Z) : list Z :=
  match n with
  | O => buf
  | S n' => read_cells n' d blk (off + 1) (store buf to (d blk off)) (to + 1)
  end.

Definition block_read_part (d : disk_t) (blk off len : Z) (buf : list Z)
    (to : Z) : list Z :=
  read_cells (Z.to_nat len) d blk off buf to.

(** The first [n] bytes of a sector, as [block_read_part] delivers them
    to an array of [n] bytes. *)
Definition sector_prefix (d : disk_t) (blk : Z) (n : nat) : list Z :=
  map (fun k => d blk (Z.of_nat k)) (seq 0 n).

Section WithParams.
Context {P : fs_params}.

(** *** Block numbers *)

Definition ino2blk (st : fs_state) (ino : Z) : Z :=
  if (ino <? 0) || (ino >? 512) then -1
  else
    let space := Z.quot BLOCK_SIZE INODE_SIZE in
    SUPER_BLOCK_START st + BITMAP_BLOCKS + Z.quot ino space + 1.

Definition idx2blk (st : fs_state) (index : Z) : Z :=
  if (index <? 0) || (index >? FS_BLOCKS - INODE_BLOCKS - BITMAP_BLOCKS - 1)
  then -1
  else SUPER_BLOCK_START st + BITMAP_BLOCKS + INODE_BLOCKS + index.

(** *** Bitmaps and inodes on the device *)

Definition save_bitmaps (st : fs_state) : fs_state :=
  let d1 := block_modify (disk st) (SUPER_BLOCK_START st + 1) 0
                         (inode_bmap st) 0 BITMAP_ENTRIES in
  let d2 := block_modify d1 (SUPER_BLOCK_START st + 2) 0
                         (dblk_bmap st) 0 BITMAP_ENTRIES in
  set_disk st d2.

(** [load_bitmaps] reads [BITMAP_ENTRIES] bytes into each of the two
    arrays of [BITMAP_ENTRIES] bytes: the arrays become the starts of
    the two sectors. *)
Definition load_bitmaps (st : fs_state) : fs_state :=
  set_bmaps st
    (sector_prefix (disk st) (SUPER_BLOCK_START st + 1)
                   (Z.to_nat BITMAP_ENTRIES))
    (sector_prefix (disk st) (SUPER_BLOCK_START st + 2)
                   (Z.to_nat BITMAP_ENTRIES)).

Definition save_inode (st : fs_state) (id : Z) : fs_state :=
  let iblock := ino2blk st id in
  let bytes := inode_bytes (d_inode (inode_at st id)) in
  set_disk st
    (block_modify (disk st) iblock (Z.rem id 16 * 32) bytes 0
                  (Z.of_nat (length bytes))).

(** *** [resize_inode] *)

(** The [for] loop over the direct slots: [n] slots left, at slot [x].
    The result is [false] when the loop is left by [return FSE_FULL];
    the slots and the bitmap changed so far stay changed. *)
Fixpoint resize_loop (n : nat) (x blocks ndata : Z) (direct bmap : list Z)
  : bool * list Z * list Z :=
  match n with
  | O => (true, direct, bmap)
  | S n' =>
      if x <? blocks then
        if load direct x =? -1 then
          let '(e, bmap') := get_free_entry bmap in
          let direct' := store direct x e in
          if (load direct' x =? -1) || (load direct' x >=? ndata)
          then (false, direct', bmap')
          else resize_loop n' (x + 1) blocks ndata direct' bmap'
        else resize_loop n' (x + 1) blocks ndata direct bmap
      else
        if negb (load direct x =? -1) then
          resize_loop n' (x + 1) blocks ndata direct
                      (snd (free_bitmap_entry (load direct x) bmap))
        else resize_loop n' (x + 1) blocks ndata direct bmap
  end.

Definition resize_inode (id new_size : Z) (st : fs_state) : Z * fs_state :=
  if new_size >? max_filesize (super st) then (FSE_INODETABLEFULL, st)
  else
    let st1 := load_bitmaps st in
    let i := inode_at st1 id in
    let blocks := Z.quot new_size BLOCK_SIZE + 1 in
    let '(ok, direct', bmap') :=
      resize_loop (Z.to_nat INODE_NDIRECT) 0 blocks (ndata_blks (super st1))
                  (i_direct (d_inode i)) (dblk_bmap st1) in
    let st2 :=
      set_inode (set_bmaps st1 (inode_bmap st1) bmap') id
                (with_direct i direct') in
    if ok then
      let st3 := set_inode st2 id (with_size (inode_at st2 id) new_size) in
      (FSE_OK, save_inode (save_bitmaps st3) id)
    else (FSE_FULL, st2).

(** *** [db_read] and [db_write] *)

(** The [for] loop of [db_read]: [x] runs from [start_block] and the loop
    is left at the latest when [x] reaches [finish_block], so
    [finish_block - start_block] iterations ([n]) are all there are. *)
Fixpoint db_read_loop (n : nat) (id start_pos finish_pos : Z)
    (start_block finish_block : Z) (x read : Z) (buffer : list Z)
    (st : fs_state) : Z * list Z :=
  match n with
  | O => (read, buffer)
  | S n' =>
      let i := inode_at st id in
      if (x <? finish_block) && (read + start_pos <? i_size (d_inode i))
      then
        let blk := idx2blk st (load (i_direct (d_inode i)) x) in
        if x =? start_block then
          let in_ :=
            if x + 1 =? finish_block then finish_pos - start_pos
            else BLOCK_SIZE - Z.rem start_pos BLOCK_SIZE in
          db_read_loop n' id start_pos finish_pos start_block finish_block
            (x + 1) (read + in_)
            (block_read_part (disk st) blk (Z.rem start_pos BLOCK_SIZE) in_
                             buffer read) st
        else if x + 1 =? finish_block then
          let in_ := (finish_pos - start_pos) - read in
          db_read_loop n' id start_pos finish_pos start_block finish_block
            (x + 1) (read + in_)
            (block_read_part (disk st) blk 0 in_ buffer read) st
        else
          db_read_loop n' id start_pos finish_pos start_block finish_block
            (x + 1) (read + BLOCK_SIZE)
            (block_read_part (disk st) blk 0 BLOCK_SIZE buffer read) st
      else (read, buffer)
  end.

(** [db_read].  The sum [size + start_pos] is taken in [Z]: it is the
    [int] of the code as long as it does not exceed [INT_MAX]. *)
Definition db_read (id : Z) (buffer : list Z) (size start_pos : Z)
    (st : fs_state) : Z * list Z :=
  let i := inode_at st id in
  let finish_pos0 := size + start_pos in
  let finish_pos :=
    if finish_pos0 >? i_size (d_inode i) then i_size (d_inode i)
    else finish_pos0 in
  let start_block := Z.quot start_pos BLOCK_SIZE in
  let finish_block := Z.quot finish_pos BLOCK_SIZE + 1 in
  let toread := finish_pos in
  if toread <? 0 then (FSE_ERROR, buffer)
  else
    db_read_loop (Z.to_nat (finish_block - start_block)) id start_pos
      finish_pos start_block finish_block start_block 0 buffer st.

(** The [for] loop of [db_write], with the same bound. *)
Fixpoint db_write_loop (n : nat) (id : Z) (buffer : list Z)
    (start_pos finish_pos start_block finish_block : Z) (x written : Z)
    (st : fs_state) : Z * fs_state :=
  match n with
  | O => (written, st)
  | S n' =>
      let i := inode_at st id in
      if (x <? finish_block) && (start_pos + written <? i_size (d_inode i))
      then
        let blk := idx2blk st (load (i_direct (d_inode i)) x) in
        if x =? start_block then
          let in_ :=
            if x + 1 =? finish_block then finish_pos - start_pos
            else BLOCK_SIZE - Z.rem start_pos BLOCK_SIZE in
          db_write_loop n' id buffer start_pos finish_pos start_block
            finish_block (x + 1) (written + in_)
            (set_disk st
               (block_modify (disk st) blk (Z.rem start_pos BLOCK_SIZE)
                             buffer written in_))
        else if x + 1 =? finish_block then
          let in_ := (finish_pos - start_pos) - written in
          db_write_loop n' id buffer start_pos finish_pos start_block
            finish_block (x + 1) (written + in_)
            (set_disk st (block_modify (disk st) blk 0 buffer written in_))
        else
          db_write_loop n' id buffer start_pos finish_pos start_block
            finish_block (x + 1) (written + BLOCK_SIZE)
            (set_disk st
               (block_modify (disk st) blk 0 buffer written BLOCK_SIZE))
      else (written, st)
  end.

Definition db_write (id : Z) (buffer : list Z) (size start_pos : Z)
    (st : fs_state) : Z * fs_state :=
  let start_block := Z.quot start_pos BLOCK_SIZE in
  let finish_pos0 := size + start_pos in
  let finish_block := Z.quot finish_pos0 BLOCK_SIZE + 1 in
  let finish_pos :=
    if finish_pos0 >? max_filesize (super st) then max_filesize (super st)
    else finish_pos0 in
  let '(resize, st1) := resize_inode id finish_pos st in
  if negb (resize =? FSE_OK) then (resize, st1)
  else
    db_write_loop (Z.to_nat (finish_block - start_block)) id buffer
      start_pos finish_pos start_block finish_block start_block 0 st1.

(** *** The system calls on an open file *)

Definition fs_close (fd : Z) (st : fs_state) : Z * fs_state :=
  if mode (fd_at st fd) =? MODE_UNUSED then (FSE_OK, st)
  else
    let id := idx (fd_at st fd) in
    let i := inode_at st id in
    let i' := with_open_count (with_pos i 0) (open_count i - 1) in
    (FSE_OK, set_fd (set_inode st id i') fd (mk_fd MODE_UNUSED (-1))).

(** [fs_lseek].  The target, [offset] or its sum with the position or
    with the size, is taken in [Z]: it is the [int] of the code as long
    as it stays in the range of [int]. *)
Definition fs_lseek (fd offset whence : Z) (st : fs_state) : Z * fs_state :=
  if mode (fd_at st fd) =? MODE_UNUSED then (FSE_INVALIDMODE, st)
  else
    let id := idx (fd_at st fd) in
    let i := inode_at st id in
    let seek (pos : Z) : Z * fs_state :=
      if pos >? i_size (d_inode i) then
        if Z.land (mode (fd_at st fd)) MODE_RDONLY >? 0 then (FSE_EOF, st)
        else if pos >? max_filesize (super st) then (FSE_FULL, st)
        else
          let '(r, st1) := resize_inode id offset st in
          (* [if (!resize_inode (id, offset)) return FSE_FULL;] *)
          if r =? 0 then (FSE_FULL, st1)
          else (FSE_OK, set_inode st1 id (with_pos (inode_at st1 id) pos))
      else (FSE_OK, set_inode st id (with_pos i pos)) in
    if whence =? SEEK_SET then seek offset
    else if whence =? SEEK_CUR then seek (offset + pos i)
    else if whence =? SEEK_END then seek (offset + i_size (d_inode i))
    else (FSE_INVALIDMODE, st).

Definition fs_read (fd : Z) (buffer : list Z) (size : Z) (st : fs_state)
  : Z * list Z * fs_state :=
  if Z.land (mode (fd_at st fd)) (Z.lor MODE_RDONLY MODE_RDWR) =? 0
  then (FSE_INVALIDMODE, buffer, st)
  else
    let id := idx (fd_at st fd) in
    let '(read, buffer') := db_read id buffer size (pos (inode_at st id)) st in
    if read <? 0 then (read, buffer', st)
    else
      let '(seek, st1) := fs_lseek fd read SEEK_CUR st in
      if negb (seek =? FSE_OK) then (seek, buffer', st1)
      else (read, buffer', st1).

Definition fs_write (fd : Z) (buffer : list Z) (size : Z) (st : fs_state)
  : Z * fs_state :=
  if Z.land (mode (fd_at st fd)) (Z.lor MODE_WRONLY MODE_RDWR) =? 0
  then (FSE_INVALIDMODE, st)
  else
    let id := idx (fd_at st fd) in
    let '(written, st1) := db_write id buffer size (pos (inode_at st id)) st in
    if written <? 0 then (written, st1)
    else
      let '(seek, st2) := fs_lseek fd written SEEK_CUR st1 in
      if negb (seek =? FSE_OK) then (seek, st2)
      else (written, st2).

(** *** The data blocks of a file *)

(** The direct slots [0 .. m) hold data blocks of the filesystem, each
    one once. *)
Definition allocated (direct : list Z) (m ndata : Z) : Prop :=
  (forall y, 0 <= y < m -> 0 <= load direct y < ndata)
  /\ (forall y z, 0 <= y < z -> z < m -> load direct y <> load direct z).

(** The slots [0 .. m) that are in use hold data blocks, each one once,
    which the bitmap marks as used. *)
Definition marked (direct bmap : list Z) (m ndata : Z) : Prop :=
  (forall y, 0 <= y < m -> load direct y <> -1 ->
             0 <= load direct y < ndata
             /\ check_bit (load direct y) bmap = 1)
  /\ (forall y z, 0 <= y < z -> z < m ->
                  load direct y <> -1 -> load direct z <> -1 ->
                  load direct y <> load direct z).

(** The sector that holds block [k] of the file [id]. *)
Definition file_block (st : fs_state) (id k : Z) : Z :=
  idx2blk st (load (i_direct (d_inode (inode_at st id))) k).

(** The first [upto] bytes of the file [id] on the device [d] are the
    bytes of [buf]. *)
Definition stored (d : disk_t) (st : fs_state) (id : Z) (buf : list Z)
    (upto : Z) : Prop :=
  forall j, 0 <= j < upto ->
            d (file_block st id (j / BLOCK_SIZE)) (j mod BLOCK_SIZE)
            = load buf j.

End WithParams.

(** *** Inodes *)

(** Modelled from the spec: [inode.h] and [fs_error.h] are missing; the
    two inode types, and one more error code, which is negative. *)
Class inode_params := {
  INTYPE_FILE : Z;
  INTYPE_DIR : Z;
  FSE_NOMOREINODES : Z;
  FSE_NOMOREINODES_neg : FSE_NOMOREINODES < 0
}.

Section Inodes.
Context {P : fs_params} {I : inode_params}.

(** The loop [direct[x] = -1] of [create_inode]: [n] slots left, at
    slot [x]. *)
Fixpoint clear_direct (n : nat) (x : Z) (direct : list Z) : list Z :=
  match n with
  | O => direct
  | S n' => clear_direct n' (x + 1) (store direct x (-1))
  end.

(** [create_inode]; [get_free_entry] has updated [inode_bmap] before
    the test. *)
Definition create_inode (st : fs_state) : Z * fs_state :=
  let '(i, ib) := get_free_entry (inode_bmap st) in
  let st1 := set_bmaps st ib (dblk_bmap st) in
  if (i <? 0) || (i >=? MAX_INODES) then (FSE_NOMOREINODES, st1)
  else
    let st2 := save_bitmaps st1 in
    let direct :=
      clear_direct (Z.to_nat INODE_NDIRECT) 0
                   (i_direct (d_inode (inode_at st2 i))) in
    (i, set_inode st2 i
          (mk_mem_inode (mk_disk_inode INTYPE_FILE 0 0 direct) 0 0 1 i)).

(** The loop of [free_inode] over the direct slots: [n] slots left, at
    slot [x]; the result is the data bitmap. *)
Fixpoint free_direct (n : nat) (x : Z) (direct bmap : list Z) : list Z :=
  match n with
  | O => bmap
  | S n' =>
      free_direct n' (x + 1) direct
        (if negb (load direct x =? -1)
         then snd (free_bitmap_entry (load direct x) bmap)
         else bmap)
  end.

(** [free_inode]. *)
Definition free_inode (id : Z) (st : fs_state) : fs_state :=
  let dnode := d_inode (inode_at st id) in
  let db :=
    free_direct (Z.to_nat INODE_NDIRECT) 0 (i_direct dnode) (dblk_bmap st) in
  let ib := snd (free_bitmap_entry id (inode_bmap st)) in
  save_bitmaps (set_bmaps st ib db).

End Inodes.

(** *** A sample filesystem *)

(** Sample values for the constants of the missing headers: eight direct
    slots, 291 sectors, and a 28-byte inode image. *)
Definition sample_inode_bytes (d : disk_inode) : list Z :=
  int_bytes (i_type d) ++ int_bytes (i_size d)
  ++ int_bytes (i_nlinks d)
  ++ concat (map (fun b => [b mod 256; (b / 256) mod 256]) (i_direct d)).

Definition sample_params : fs_params :=
  {| INODE_NDIRECT := 8;
     FS_BLOCKS := 291;
     FSE_ERROR := -1;
     FSE_FULL := -3;
     FSE_INODETABLEFULL := -4;
     FSE_INVALIDMODE := -6;
     FSE_EOF := -9;
     inode_bytes := sample_inode_bytes;
     FSE_ERROR_neg := eq_refl;
     FSE_FULL_neg := eq_refl;
     FSE_INODETABLEFULL_neg := eq_refl;
     FSE_INVALIDMODE_neg := eq_refl;
     FSE_EOF_neg := eq_refl |}.

(** A mounted filesystem with the root directory in inode 0 and an empty
    file in inode 1, which the running task has open as descriptor 0
    with mode [m]. *)
Definition one_empty_file (m : Z) : fs_state :=
  mk_fs 0 (mk_super 512 256 4096 0)
        (0xc0 :: repeat 0 255) (repeat 0 256)
        [mk_mem_inode (mk_disk_inode 2 0 2 (repeat (-1) 8)) 0 0 0 0;
         mk_mem_inode (mk_disk_inode 1 0 1 (repeat (-1) 8)) 1 0 0 1]
        [mk_fd m 1; mk_fd MODE_UNUSED 0]
        (fun b o => if (b =? 1) && (o =? 0) then 0xc0 else 0).

Definition file_size (st : fs_state) (id : Z) : Z :=
  i_size (d_inode (inode_at st id)).

(** [one_empty_file] with every data block taken. *)
Definition no_free_block (m : Z) : fs_state :=
  set_disk (one_empty_file m)
    (fun b o => if (b =? 1) && (o =? 0) then 0xc0
                else if (b =? 2) && (o <? 32) then 0xff else 0).

(** Sample values for the inode types and for [FSE_NOMOREINODES]. *)
Definition sample_inode_params : inode_params :=
  {| INTYPE_FILE := 1;
     INTYPE_DIR := 2;
     FSE_NOMOREINODES := -2;
     FSE_NOMOREINODES_neg := eq_refl |}.

(** A filesystem with 512 unused inodes and empty bitmaps. *)
Definition blank_fs : fs_state :=
  mk_fs 0 (mk_super 512 256 4096 0)
        (repeat 0 256) (repeat 0 256)
        (repeat (mk_mem_inode (mk_disk_inode 0 7 3 (repeat 5 8)) 2 9 0 0) 512)
        [mk_fd MODE_UNUSED 0]
        (fun b o => 0).

End FS.

(** ** Scheduler ([scheduler.c]) *)

Module Sched.
Local Open Scope nat_scope.

Inductive status :=
| STATUS_FIRST_TIME
| STATUS_READY
| STATUS_BLOCKED
| STATUS_EXITED
| STATUS_FIRST_TIME_THREAD.

Definition status_eqb (a b : status) : bool :=
  match a, b with
  | STATUS_FIRST_TIME, STATUS_FIRST_TIME
  | STATUS_READY, STATUS_READY
  | STATUS_BLOCKED, STATUS_BLOCKED
  | STATUS_EXITED, STATUS_EXITED
  | STATUS_FIRST_TIME_THREAD, STATUS_FIRST_TIME_THREAD => true
  | _, _ => false
  end.

(** A [pcb_t *] is the address of a PCB; [NULL] is 0. *)
Abbreviation ptr := nat (only parsing).
Definition NULL : ptr := 0.

(** The fields of [pcb_t] that the scheduler and the queues use. *)
Record pcb := mk_pcb {
  state : status;
  next : ptr;
  previous : ptr
}.

(** The PCB table, addressed by pointer, and [current_running]. *)
Record kernel := mk_kernel {
  pcbs : ptr -> pcb;
  current_running : ptr
}.

Definition set_state (h : ptr -> pcb) (p : ptr) (s : status) : ptr -> pcb :=
  <[p := mk_pcb s (next (h p)) (previous (h p))]> h.

Definition set_next (h : ptr -> pcb) (p : ptr) (n : ptr) : ptr -> pcb :=
  <[p := mk_pcb (state (h p)) n (previous (h p))]> h.

Definition set_previous (h : ptr -> pcb) (p : ptr) (n : ptr) : ptr -> pcb :=
  <[p := mk_pcb (state (h p)) (next (h p)) n]> h.

(** [dispatch]: a task that runs for the first time becomes ready and is
    started on its stack. *)
Definition dispatch (k : kernel) : kernel :=
  let cr := current_running k in
  match state (pcbs k cr) with
  | STATUS_FIRST_TIME | STATUS_FIRST_TIME_THREAD =>
      mk_kernel (set_state (pcbs k) cr STATUS_READY) cr
  | _ => k
  end.

(** [scheduler].  [None] is the [while (1)] that is entered when the last
    task of the ring has exited: the scheduler never returns. *)
Definition scheduler (k : kernel) : option kernel :=
  let cr := current_running k in
  let h := pcbs k in
  if status_eqb (state (h cr)) STATUS_BLOCKED
     || status_eqb (state (h cr)) STATUS_EXITED
  then
    if status_eqb (state (h cr)) STATUS_EXITED && (next (h cr) =? cr)
    then None
    else
      let h1 := set_next h (previous (h cr)) (next (h cr)) in
      let h2 := set_previous h1 (next (h1 cr)) (previous (h1 cr)) in
      let tmp := cr in
      let cr' := next (h2 cr) in
      let h3 := set_next h2 tmp 0 in
      let h4 := set_previous h3 tmp 0 in
      Some (dispatch (mk_kernel h4 cr'))
  else Some (dispatch (mk_kernel h (next (h cr)))).

(** [yield] and [exit] enter the scheduler through [scheduler_entry],
    which saves and restores the registers around it. *)
Definition yield (k : kernel) : option kernel := scheduler k.

Definition exit (k : kernel) : option kernel :=
  scheduler
    (mk_kernel (set_state (pcbs k) (current_running k) STATUS_EXITED)
               (current_running k)).

(** The [while (tmp->next != 0)] walk of [block]; [None] when the walk
    has not reached the end of the queue after [fuel] tasks. *)
Fixpoint last_waiter (fuel : nat) (h : ptr -> pcb) (tmp : ptr) : option ptr :=
  match fuel with
  | O => None
  | S f => if next (h tmp) =? 0 then Some tmp
           else last_waiter f h (next (h tmp))
  end.

(** [block (&q)]: the new value of [q] and the kernel after the switch
    to the next task. *)
Definition block (fuel : nat) (q : ptr) (k : kernel) : option (ptr * kernel) :=
  let cr := current_running k in
  let h := set_state (pcbs k) cr STATUS_BLOCKED in
  if q =? 0 then
    match scheduler (mk_kernel h cr) with
    | Some k' => Some (cr, k')
    | None => None
    end
  else
    match last_waiter fuel h q with
    | Some tmp =>
        match scheduler (mk_kernel (set_next h tmp cr) cr) with
        | Some k' => Some (q, k')
        | None => None
        end
    | None => None
    end.

(** [unblock (&q)]: the new value of [q] and the kernel. *)
Definition unblock (q : ptr) (k : kernel) : ptr * kernel :=
  let cr := current_running k in
  let h := pcbs k in
  let tmp := q in
  let q' := next (h tmp) in
  let h1 := set_state h tmp STATUS_READY in
  let h2 := set_previous h1 tmp (previous (h1 cr)) in
  let h3 := set_next h2 tmp cr in
  let h4 := set_next h3 (previous (h3 cr)) tmp in
  let h5 := set_previous h4 cr tmp in
  (q', mk_kernel h5 cr).

(** The tasks of a wait queue, from its head along [next]. *)
Fixpoint wait_queue (h : ptr -> pcb) (q : ptr) (l : list ptr) : Prop :=
  match l with
  | [] => q = NULL
  | p :: l' => q = p /\ p <> NULL /\ wait_queue h (next (h p)) l'
  end.

(** The same, computed: the first [fuel] tasks of the queue. *)
Fixpoint waiters (fuel : nat) (h : ptr -> pcb) (q : ptr) : list ptr :=
  match fuel with
  | O => []
  | S f => if q =? 0 then [] else q :: waiters f h (next (h q))
  end.

(** *** The ready ring, and sample kernels *)

(** The ready ring as the tasks met from [p] along [next]. *)
Fixpoint ring_path (h : ptr -> pcb) (p : ptr) (l : list ptr) : Prop :=
  match l with
  | [] => True
  | x :: l' => next (h p) = x /\ ring_path h x l'
  end.

(** A queue that [condition_broadcast] empties: its tasks are distinct
    and none of them is the running task or its predecessor in the
    ring. *)
Definition releasable (k : kernel) (q : ptr) (l : list ptr) : Prop :=
  wait_queue (pcbs k) q l /\ List.NoDup l
  /\ ~ In (current_running k) l
  /\ ~ In (previous (pcbs k (current_running k))) l.

(** Two ready tasks, 1 (running) and 2, and task 3 blocked on a queue. *)
Definition two_ready_one_blocked : kernel :=
  mk_kernel
    (fun p =>
       match p with
       | 1 => mk_pcb STATUS_READY 2 2
       | 2 => mk_pcb STATUS_READY 1 1
       | 3 => mk_pcb STATUS_BLOCKED 0 0
       | _ => mk_pcb STATUS_EXITED 0 0
       end)
    1.

(** Three ready tasks; task 1 runs. *)
Definition three_ready : kernel :=
  mk_kernel
    (fun p =>
       match p with
       | 1 => mk_pcb STATUS_READY 2 3
       | 2 => mk_pcb STATUS_READY 3 1
       | 3 => mk_pcb STATUS_READY 1 2
       | _ => mk_pcb STATUS_EXITED 0 0
       end)
    1.

(** [n] calls of [yield], each by the task that runs then. *)
Fixpoint yields (n : nat) (k : kernel) : option kernel :=
  match n with
  | O => Some k
  | S n' =>
      match yield k with
      | Some k' => yields n' k'
      | None => None
      end
  end.

(** Task 1 runs, and is the only task of the ring. *)
Definition lone_task : kernel :=
  mk_kernel (fun p => match p with
                      | 1 => mk_pcb STATUS_READY 1 1
                      | _ => mk_pcb STATUS_EXITED 0 0
                      end) 1.

(** Task 1 runs, task 2 is ready, tasks 3 and 4 wait on a queue. *)
Definition two_ready_two_blocked : kernel :=
  mk_kernel
    (fun p =>
       match p with
       | 1 => mk_pcb STATUS_READY 2 2
       | 2 => mk_pcb STATUS_READY 1 1
       | 3 => mk_pcb STATUS_BLOCKED 4 0
       | 4 => mk_pcb STATUS_BLOCKED 0 0
       | _ => mk_pcb STATUS_EXITED 0 0
       end)
    1.

End Sched.

(** ** Locks and semaphores ([thread.c]) *)

(** [enter_critical] and [leave_critical] mask the interrupts and touch
    neither the queues nor the objects below; they are left out.  A call
    that blocks is followed up to its switch to the next task. *)
Module Sync.
Import Sched.

Inductive lock_status := LOCKED | UNLOCKED.

Record lock_t := mk_lock {
  status : lock_status;
  waiting : ptr
}.

Record semaphore_t := mk_semaphore {
  counter : Z;
  sem_waiting : ptr
}.

Record condition_t := mk_condition {
  cond_waiting : ptr
}.

Definition lock_init : lock_t := mk_lock UNLOCKED NULL.

Definition lock_acquire_helper (fuel : nat) (l : lock_t) (k : kernel)
  : option (lock_t * kernel) :=
  match status l with
  | UNLOCKED => Some (mk_lock LOCKED (waiting l), k)
  | LOCKED =>
      match block fuel (waiting l) k with
      | Some (q, k') => Some (mk_lock (status l) q, k')
      | None => None
      end
  end.

Definition lock_acquire (fuel : nat) (l : lock_t) (k : kernel)
  : option (lock_t * kernel) :=
  lock_acquire_helper fuel l k.

Definition lock_release (l : lock_t) (k : kernel) : lock_t * kernel :=
  if (waiting l =? NULL)%nat then (mk_lock UNLOCKED (waiting l), k)
  else
    let '(q, k') := unblock (waiting l) k in
    (mk_lock (status l) q, k').

Definition condition_init : condition_t := mk_condition NULL.

(** [condition_broadcast]: [unblock] until the queue is empty; [None]
    when it is not empty after [fuel] rounds. *)
Fixpoint condition_broadcast (fuel : nat) (c : condition_t) (k : kernel)
  : option (condition_t * kernel) :=
  if (cond_waiting c =? NULL)%nat then Some (c, k)
  else
    match fuel with
    | O => None
    | S f =>
        let '(q, k') := unblock (cond_waiting c) k in
        condition_broadcast f (mk_condition q) k'
    end.

Definition semaphore_init (value : Z) : semaphore_t :=
  mk_semaphore value NULL.

Definition semaphore_up (s : semaphore_t) (k : kernel)
  : semaphore_t * kernel :=
  let s1 := mk_semaphore (counter s + 1) (sem_waiting s) in
  if counter s1 >=? 0 then
    if negb (sem_waiting s1 =? NULL)%nat then
      let '(q, k') := unblock (sem_waiting s1) k in
      (mk_semaphore (counter s1) q, k')
    else (s1, k)
  else (s1, k).

Definition semaphore_down (fuel : nat) (s : semaphore_t) (k : kernel)
  : option (semaphore_t * kernel) :=
  let s1 := mk_semaphore (counter s - 1) (sem_waiting s) in
  if counter s1 <? 0 then
    match block fuel (sem_waiting s1) k with
    | Some (q, k') => Some (mk_semaphore (counter s1) q, k')
    | None => None
    end
  else Some (s1, k).

(** *** Conditions and barriers *)

(** [condition_signal]. *)
Definition condition_signal (c : condition_t) (k : kernel)
  : condition_t * kernel :=
  if negb (cond_waiting c =? NULL)%nat then
    let '(q, k') := unblock (cond_waiting c) k in
    (mk_condition q, k')
  else (c, k).

(** [barrier_t]: the tasks that have arrived, and the number to reach. *)
Record barrier_t := mk_barrier {
  bar_counter : Z;
  reach : Z;
  bar_waiting : ptr
}.

Definition barrier_init (n : Z) : barrier_t := mk_barrier 0 n NULL.

(** The [while (b->waiting != NULL) unblock (&b->waiting)] loop of
    [barrier_wait]; [None] when the queue is not empty after [fuel]
    rounds. *)
Fixpoint barrier_release (fuel : nat) (q : ptr) (k : kernel)
  : option (ptr * kernel) :=
  if (q =? NULL)%nat then Some (q, k)
  else
    match fuel with
    | O => None
    | S f =>
        let '(q', k') := unblock q k in
        barrier_release f q' k'
    end.

(** [barrier_wait]; in the branch that blocks, up to the switch. *)
Definition barrier_wait (fuel : nat) (b : barrier_t) (k : kernel)
  : option (barrier_t * kernel) :=
  let b1 := mk_barrier (bar_counter b + 1) (reach b) (bar_waiting b) in
  if (bar_counter b1 =? reach b1)%Z then
    match barrier_release fuel (bar_waiting b1) k with
    | Some (q, k') => Some (mk_barrier 0 (reach b1) q, k')
    | None => None
    end
  else
    match block fuel (bar_waiting b1) k with
    | Some (q, k') => Some (mk_barrier (bar_counter b1) (reach b1) q, k')
    | None => None
    end.

End Sync.

(** ** Mailboxes ([mbox.c]) *)

Module Mbox.
Import Sched Sync.

(** Modelled from the spec: [mbox.h] is missing; the number of mailboxes
    and the size of the ring are constants of that header. *)
Class mbox_params := {
  MAX_MBOX : Z;
  BUFFER_SIZE : Z;
  BUFFER_SIZE_pos : 0 < BUFFER_SIZE
}.

(** [sizeof (m)] for [msg_t *m]: a pointer of the 32-bit kernel. *)
Definition SIZEOF_PTR : Z := 4.

(** Modelled from the spec: [mbox.h] is missing; a message is a header
    that holds the size of the payload, followed by the payload.  The
    header is the [int size] read by [m->size], little-endian, in two's
    complement. *)
Definition msg_size (m : list Z) : Z :=
  let u := load m 0 + 256 * load m 1 + 65536 * load m 2
           + 16777216 * load m 3 in
  if u >=? 2147483648 then u - 4294967296 else u.

Record mbox_t := mk_mbox {
  used : Z;
  l : lock_t;
  moreSpace : condition_t;
  moreData : condition_t;
  count : Z;
  head : Z;
  tail : Z;
  buffer : list Z
}.

Definition no_mbox : mbox_t :=
  mk_mbox 0 lock_init condition_init condition_init 0 0 0 [].

Definition with_l (q : mbox_t) (x : lock_t) : mbox_t :=
  mk_mbox (used q) x (moreSpace q) (moreData q) (count q) (head q) (tail q)
          (buffer q).

Definition with_moreSpace (q : mbox_t) (c : condition_t) : mbox_t :=
  mk_mbox (used q) (l q) c (moreData q) (count q) (head q) (tail q)
          (buffer q).

Definition with_moreData (q : mbox_t) (c : condition_t) : mbox_t :=
  mk_mbox (used q) (l q) (moreSpace q) c (count q) (head q) (tail q)
          (buffer q).

Definition with_ring (q : mbox_t) (cnt hd tl : Z) (buf : list Z) : mbox_t :=
  mk_mbox (used q) (l q) (moreSpace q) (moreData q) cnt hd tl buf.

(** What a call does to its caller: it returns, it blocks the caller in
    a wait (the state is the one after the switch to the next task), it
    ends the caller with [exit ()] ([None]: the scheduler spins, no task
    is left), or a queue walk is longer than the fuel. *)
Inductive outcome (A : Type) : Type :=
| Returns (v : A) (k : kernel) (Q : list mbox_t)
| Suspends (k : kernel) (Q : list mbox_t)
| Exits (k : option kernel) (Q : list mbox_t)
| NoFuel.
Arguments Returns {A} v k Q.
Arguments Suspends {A} k Q.
Arguments Exits {A} k Q.
Arguments NoFuel {A}.

(** [condition_wait (m, c)] up to the switch: the lock is released and
    the caller is queued on [c]. *)
Definition condition_wait (fuel : nat) (m : lock_t) (c : condition_t)
    (k : kernel) : option (lock_t * condition_t * kernel) :=
  let '(m1, k1) := lock_release m k in
  match block fuel (cond_waiting c) k1 with
  | Some (q, k2) => Some (m1, mk_condition q, k2)
  | None => None
  end.

(** [q] with another [used] counter. *)
Definition with_used (q : mbox_t) (u : Z) : mbox_t :=
  mk_mbox u (l q) (moreSpace q) (moreData q) (count q) (head q) (tail q)
          (buffer q).

Section WithParams.
Context {P : mbox_params}.

Definition space_available (q : mbox_t) : Z :=
  if (tail q =? head q) && negb (count q =? 0) then 0
  else if tail q >? head q then tail q - head q
  else tail q + BUFFER_SIZE - head q.

Definition mbox_acquire (fuel : nat) (key : Z) (k : kernel)
    (Q : list mbox_t) : outcome unit :=
  if (key <? 0) || (key >=? MAX_MBOX) then Exits (exit k) Q
  else
    let mb := aget no_mbox Q key in
    match lock_acquire fuel (l mb) k with
    | Some (l', k') =>
        match status (l mb) with
        | UNLOCKED => Returns tt k' (aset Q key (with_l mb l'))
        | LOCKED => Suspends k' (aset Q key (with_l mb l'))
        end
    | None => NoFuel
    end.

Definition mbox_release (key : Z) (k : kernel) (Q : list mbox_t)
  : kernel * list mbox_t :=
  let mb := aget no_mbox Q key in
  let '(l', k') := lock_release (l mb) k in
  (k', aset Q key (with_l mb l')).

(** The copy loop of [mbox_send]: [n] bytes left, at byte [i]. *)
Fixpoint send_copy (n : nat) (i start : Z) (m buf : list Z) : list Z :=
  match n with
  | O => buf
  | S n' =>
      send_copy n' (i + 1) start m
                (store buf (Z.rem (start + i) BUFFER_SIZE) (load m i))
  end.

(** The copy loops of [mbox_recv]. *)
Fixpoint recv_copy (n : nat) (i start : Z) (buf m : list Z) : list Z :=
  match n with
  | O => m
  | S n' =>
      recv_copy n' (i + 1) start buf
                (store m i (load buf (Z.rem (start + i) BUFFER_SIZE)))
  end.

(** [mbox_send]; a caller that has to wait is followed up to its
    [condition_wait].  The sum [sizeof (m) + m->size] is taken in [Z]: it
    is the [int] of the code for sizes up to [INT_MAX - 4]. *)
Definition mbox_send (fuel : nat) (q : Z) (m : list Z) (k : kernel)
    (Q : list mbox_t) : outcome Z :=
  match mbox_acquire fuel q k Q with
  | Returns _ k1 Q1 =>
      let mb := aget no_mbox Q1 q in
      if SIZEOF_PTR + msg_size m >? space_available mb then
        match condition_wait fuel (l mb) (moreSpace mb) k1 with
        | Some (l', c', k2) =>
            Suspends k2 (aset Q1 q (with_moreSpace (with_l mb l') c'))
        | None => NoFuel
        end
      else
        let start := head mb in
        let size := SIZEOF_PTR + msg_size m in
        let buf := send_copy (Z.to_nat size) 0 start m (buffer mb) in
        let mb1 :=
          with_ring mb (count mb + 1) (Z.rem (start + size) BUFFER_SIZE)
                    (tail mb) buf in
        match condition_broadcast fuel (moreData mb1) k1 with
        | Some (c', k2) =>
            let '(k3, Q3) :=
              mbox_release q k2 (aset Q1 q (with_moreData mb1 c')) in
            Returns 1 k3 Q3
        | None => NoFuel
        end
  | Suspends k1 Q1 => Suspends k1 Q1
  | Exits k1 Q1 => Exits k1 Q1
  | NoFuel => NoFuel
  end.

(** [mbox_recv]: the value returned and the message stored in [m]. *)
Definition mbox_recv (fuel : nat) (q : Z) (m : list Z) (k : kernel)
    (Q : list mbox_t) : outcome (Z * list Z) :=
  match mbox_acquire fuel q k Q with
  | Returns _ k1 Q1 =>
      let mb := aget no_mbox Q1 q in
      if count mb <=? 0 then
        match condition_wait fuel (l mb) (moreData mb) k1 with
        | Some (l', c', k2) =>
            Suspends k2 (aset Q1 q (with_moreData (with_l mb l') c'))
        | None => NoFuel
        end
      else
        let start := tail mb in
        let m1 := recv_copy (Z.to_nat SIZEOF_PTR) 0 start (buffer mb) m in
        let size := SIZEOF_PTR + msg_size m1 in
        let m2 := recv_copy (Z.to_nat size) 0 start (buffer mb) m1 in
        let mb1 :=
          with_ring mb (count mb - 1) (head mb)
                    (Z.rem (start + size) BUFFER_SIZE) (buffer mb) in
        match condition_broadcast fuel (moreSpace mb1) k1 with
        | Some (c', k2) =>
            let '(k3, Q3) :=
              mbox_release q k2 (aset Q1 q (with_moreSpace mb1 c')) in
            Returns (1, m2) k3 Q3
        | None => NoFuel
        end
  | Suspends k1 Q1 => Suspends k1 Q1
  | Exits k1 Q1 => Exits k1 Q1
  | NoFuel => NoFuel
  end.

(** *** The other calls *)

(** The assignments of [mbox_init] and of the reset in [mbox_close]: the
    counters, the lock and the conditions; the buffer is not touched. *)
Definition mbox_reset (q : mbox_t) : mbox_t :=
  mk_mbox 0 lock_init condition_init condition_init 0 0 0 (buffer q).

(** The [for] loop of [mbox_init]: [n] mailboxes left, at index [i]. *)
Fixpoint mbox_init_loop (n : nat) (i : Z) (Q : list mbox_t) : list mbox_t :=
  match n with
  | O => Q
  | S n' => mbox_init_loop n' (i + 1) (aset Q i (mbox_reset (aget no_mbox Q i)))
  end.

(** [mbox_init]: the loop runs over the [MAX_MBOX] mailboxes. *)
Definition mbox_init (Q : list mbox_t) : list mbox_t :=
  mbox_init_loop (Z.to_nat MAX_MBOX) 0 Q.

(** [mbox_open]. *)
Definition mbox_open (fuel : nat) (key : Z) (k : kernel) (Q : list mbox_t)
  : outcome Z :=
  match mbox_acquire fuel key k Q with
  | Returns _ k1 Q1 =>
      let mb := aget no_mbox Q1 key in
      let '(k2, Q2) :=
        mbox_release key k1 (aset Q1 key (with_used mb (used mb + 1))) in
      Returns key k2 Q2
  | Suspends k1 Q1 => Suspends k1 Q1
  | Exits k1 Q1 => Exits k1 Q1
  | NoFuel => NoFuel
  end.

(** [mbox_close]; [NoFuel] when a queue is not empty after [fuel] rounds
    of [condition_broadcast]. *)
Definition mbox_close (fuel : nat) (q : Z) (k : kernel) (Q : list mbox_t)
  : outcome Z :=
  match mbox_acquire fuel q k Q with
  | Returns _ k1 Q1 =>
      let mb := aget no_mbox Q1 q in
      let mb1 := if used mb >? 0 then with_used mb (used mb - 1) else mb in
      if used mb1 <=? 0 then
        match condition_broadcast fuel (moreSpace mb1) k1 with
        | Some (cs, k2) =>
            match condition_broadcast fuel (moreData mb1) k2 with
            | Some (cd, k3) =>
                let '(k4, Q4) :=
                  mbox_release q k3 (aset Q1 q (mbox_reset mb1)) in
                Returns q k4 Q4
            | None => NoFuel
            end
        | None => NoFuel
        end
      else
        let '(k4, Q4) := mbox_release q k1 (aset Q1 q mb1) in
        Returns q k4 Q4
  | Suspends k1 Q1 => Suspends k1 Q1
  | Exits k1 Q1 => Exits k1 Q1
  | NoFuel => NoFuel
  end.

(** [mbox_stat]: the value returned, [*count] and [*space]. *)
Definition mbox_stat (fuel : nat) (q : Z) (k : kernel) (Q : list mbox_t)
  : outcome (Z * Z * Z) :=
  match mbox_acquire fuel q k Q with
  | Returns _ k1 Q1 =>
      let mb := aget no_mbox Q1 q in
      let count_ := count mb in
      let space := space_available mb in
      let '(k2, Q2) := mbox_release q k1 Q1 in
      Returns (1, count_, space) k2 Q2
  | Suspends k1 Q1 => Suspends k1 Q1
  | Exits k1 Q1 => Exits k1 Q1
  | NoFuel => NoFuel
  end.

(** *** Mailboxes after a call that did not wait *)

(** The mailbox after a [mbox_send] of [m] that did not wait. *)
Definition after_send (mb : mbox_t) (m : list Z) : mbox_t :=
  mk_mbox (used mb) (l mb) (moreSpace mb) (mk_condition NULL)
          (count mb + 1)
          (Z.rem (head mb + (SIZEOF_PTR + msg_size m)) BUFFER_SIZE)
          (tail mb)
          (send_copy (Z.to_nat (SIZEOF_PTR + msg_size m)) 0 (head mb) m
                     (buffer mb)).

(** The message that [mbox_recv] stores in [m], and the mailbox after
    a [mbox_recv] that did not wait. *)
Definition received (mb : mbox_t) (m : list Z) : list Z :=
  let m1 := recv_copy (Z.to_nat SIZEOF_PTR) 0 (tail mb) (buffer mb) m in
  recv_copy (Z.to_nat (SIZEOF_PTR + msg_size m1)) 0 (tail mb) (buffer mb) m1.

Definition after_recv (mb : mbox_t) (m : list Z) : mbox_t :=
  let m1 := recv_copy (Z.to_nat SIZEOF_PTR) 0 (tail mb) (buffer mb) m in
  mk_mbox (used mb) (l mb) (mk_condition NULL) (moreData mb)
          (count mb - 1) (head mb)
          (Z.rem (tail mb + (SIZEOF_PTR + msg_size m1)) BUFFER_SIZE)
          (buffer mb).

End WithParams.

(** *** A sample mailbox table *)

(** A ring of 8 bytes and five mailboxes, as after [mbox_init]. *)
Definition small_ring : mbox_params :=
  {| MAX_MBOX := 5; BUFFER_SIZE := 8; BUFFER_SIZE_pos := eq_refl |}.

Definition fresh_boxes : list mbox_t :=
  repeat (mk_mbox 0 lock_init condition_init condition_init 0 0 0
                  (repeat 0 8)) 5.

(** Five open mailboxes with two messages in rings of 8 bytes. *)
Definition stale_boxes_free : list mbox_t :=
  repeat (mk_mbox 3 (mk_lock UNLOCKED NULL) (mk_condition NULL)
                  (mk_condition NULL) 2 4 1 [1; 2; 3; 4; 5; 6; 7; 8]) 5.

(** Five mailboxes with rings of 8 bytes that hold stale values. *)
Definition stale_boxes : list mbox_t :=
  repeat (mk_mbox 3 (mk_lock LOCKED 7) (mk_condition 5) (mk_condition 6)
                  2 4 1 [1; 2; 3; 4; 5; 6; 7; 8]) 5.

(** Mailbox 0 with one user, two messages and tasks 3 and 4 waiting for
    space. *)
Definition last_user_boxes : list mbox_t :=
  mk_mbox 1 (mk_lock UNLOCKED NULL) (mk_condition 3%nat) (mk_condition NULL)
          2 4 1 [1; 2; 3; 4; 5; 6; 7; 8]
  :: repeat (mk_mbox 0 lock_init condition_init condition_init 0 0 0
                     (repeat 0 8)) 4.

(** Two mailboxes with rings of 16 bytes, as after [mbox_init]. *)
Definition wide_ring : mbox_params :=
  {| MAX_MBOX := 2; BUFFER_SIZE := 16; BUFFER_SIZE_pos := eq_refl |}.

Definition wide_boxes : list mbox_t :=
  repeat (mk_mbox 0 lock_init condition_init condition_init 0 0 0
                  (repeat 0 16)) 2.

End Mbox.

(** ** Image builder (the host tool, [main]) *)

Module Image.

Definition SECTOR_SIZE : Z := 512.
Definition OS_SIZE_LOC : Z := 2.

(** A [struct Segment]: [size] bytes of [data]. *)
Record Segment := mk_segment {
  size : Z;
  data : list Z
}.

(** A [FILE] opened for writing: its bytes and its position. *)
Record FILE := mk_file {
  bytes : list Z;
  fpos : Z
}.

(** [fwrite (buf, n, 1, f)]: [n] bytes at the position, over the bytes
    that are there and past the end of the file. *)
Definition fwrite (buf : list Z) (n : Z) (f : FILE) : FILE :=
  let p := Z.to_nat (fpos f) in
  let w := firstn (Z.to_nat n) buf in
  mk_file (firstn p (bytes f) ++ w ++ skipn (p + length w) (bytes f))
          (fpos f + Z.of_nat (length w)).

(** [fseek (f, off, SEEK_SET)]. *)
Definition fseek (f : FILE) (off : Z) : FILE := mk_file (bytes f) off.

Fixpoint write_segments (d : list Segment) (f : FILE) : FILE :=
  match d with
  | [] => f
  | s :: d' => write_segments d' (fwrite (data s) (size s) f)
  end.

(** What [parse_file] hands to [main]: the segments, their number and
    the sum of their sizes. *)
Definition segments_count (d : list Segment) : Z := Z.of_nat (length d).

Fixpoint memory_size (d : list Segment) : Z :=
  match d with
  | [] => 0
  | s :: d' => size s + memory_size d'
  end.

(** The part of [main] that builds the image from the parsed bootblock
    and kernel, once [fopen] has given the file; [None] when the check
    of the parsed files fails and no image is written. *)
Definition build_image (boot_data kernel_data : list Segment)
  : option (list Z) :=
  let boot_segments := segments_count boot_data in
  let boot_size := memory_size boot_data in
  let kernel_segments := segments_count kernel_data in
  let kernel_size := memory_size kernel_data in
  if (boot_segments >? 0) && (kernel_segments >? 0)
     && (boot_size =? 512) && (kernel_size >? 0)
  then
    let f0 := mk_file [] 0 in
    let f1 := write_segments boot_data f0 in
    let f2 := write_segments kernel_data f1 in
    let f3 :=
      if negb (Z.rem kernel_size SECTOR_SIZE =? 0) then
        let rem := SECTOR_SIZE - Z.rem kernel_size SECTOR_SIZE in
        fwrite (repeat 0 512) rem f2
      else f2 in
    let os_size :=
      Z.quot kernel_size SECTOR_SIZE
      + (if negb (Z.rem kernel_size SECTOR_SIZE =? 0) then 1 else 0) in
    let f4 := fseek f3 OS_SIZE_LOC in
    let f5 := fwrite (int_bytes os_size) 4 f4 in
    Some (bytes f5)
  else None.

(** *** [parse_file] *)

(** The sizes and the fields of [Elf32_Ehdr] and [Elf32_Phdr] (the
    system header [elf.h]) that [parse_file] uses: [e_phnum] is the
    16-bit word at offset 44 of the 52-byte file header, [p_memsz] the
    32-bit word at offset 20 of the 32-byte program header; the host is
    little-endian. *)
Definition SIZEOF_EHDR : Z := 52.

Definition SIZEOF_PHDR : Z := 32.

Definition e_phnum (header : list Z) : Z :=
  load header 44 + 256 * load header 45.

Definition p_memsz (program_header : list Z) : Z :=
  load program_header 20 + 256 * load program_header 21
  + 65536 * load program_header 22 + 16777216 * load program_header 23.

(** The conversion of an unsigned 32-bit value to [int]. *)
Definition to_int (v : Z) : Z :=
  let u := v mod 4294967296 in
  if u >=? 2147483648 then u - 4294967296 else u.

(** [fread (buf, n, 1, f)] on a file opened for reading: the bytes that
    are read, which are fewer than [n] when the file ends before, and
    the file after the read.  The call returns 1 when all [n] bytes were
    read. *)
Definition fread (n : Z) (f : FILE) : list Z * FILE :=
  let got := firstn (Z.to_nat n) (skipn (Z.to_nat (fpos f)) (bytes f)) in
  (got, mk_file (bytes f) (fpos f + Z.of_nat (length got))).

(** The loop of [parse_file] over the program headers: [n] headers
    left.  [None] is the [return NULL] after a program header that
    could not be read.  The data of a segment is [calloc]'ed, so that
    the bytes that [fread] did not deliver are 0. *)
Fixpoint parse_segments (n : nat) (f : FILE) (memsz : Z)
    (segments : list Segment) : option (list Segment * Z) :=
  match n with
  | O => Some (segments, memsz)
  | S n' =>
      let '(program_header, f1) := fread SIZEOF_PHDR f in
      if negb (Z.of_nat (length program_header) =? SIZEOF_PHDR) then None
      else
        let sz := p_memsz program_header in
        let '(got, f2) := fread sz f1 in
        let data := got ++ repeat 0 (Z.to_nat sz - length got) in
        parse_segments n' f2 (to_int (memsz + sz))
                       (segments ++ [mk_segment (to_int sz) data])
  end.

(** [parse_file] on the bytes of the file ([None]: the file cannot be
    opened): the segments, [*segments_count] and [*memory_size]; [None]
    is [return NULL], which leaves the two counters of [main] at 0. *)
Definition parse_file (file : option (list Z))
  : option (list Segment * Z * Z) :=
  match file with
  | None => None
  | Some content =>
      let '(header, f1) := fread SIZEOF_EHDR (mk_file content 0) in
      if negb (Z.of_nat (length header) =? SIZEOF_EHDR) then None
      else
        match parse_segments (Z.to_nat (e_phnum header)) f1 0 [] with
        | Some (segments, memsz) => Some (segments, e_phnum header, memsz)
        | None => None
        end
  end.

(** *** Parsed files, and samples *)

(** Segments as [parse_file] builds them: [size] bytes of data. *)
Definition parsed (d : list Segment) : Prop :=
  Forall (fun s => size s = Z.of_nat (length (data s))) d.

Definition contents (d : list Segment) : list Z := concat (map data d).

(** A bootblock of 512 bytes [0x90] and a kernel of one byte. *)
Definition nop_boot : list Segment := [mk_segment 512 (repeat 0x90 512)].

Definition tiny_kernel : list Segment := [mk_segment 1 [0xf4]].

(** A file in the layout that [parse_file] reads: the file header, and
    then each program header followed by the bytes of its segment. *)
Definition segment_bytes (s : list Z * list Z) : list Z := fst s ++ snd s.

Definition sequential_elf (header : list Z) (segs : list (list Z * list Z))
  : list Z :=
  header ++ concat (map segment_bytes segs).

(** The segment that [parse_file] builds from such a pair. *)
Definition segment_of (s : list Z * list Z) : Segment :=
  mk_segment (Z.of_nat (length (snd s))) (snd s).

(** A program header of 32 bytes whose [p_memsz] is the length of the
    bytes that follow it. *)
Definition well_sized (s : list Z * list Z) : Prop :=
  Z.of_nat (length (fst s)) = SIZEOF_PHDR
  /\ p_memsz (fst s) = Z.of_nat (length (snd s)).

(** A program header that asks for [n] bytes, with 255 in every other
    byte. *)
Definition phdr_for (n : Z) : list Z :=
  repeat 255 20 ++ [n; 0; 0; 0] ++ repeat 255 8.

(** A file header that announces [n] program headers. *)
Definition ehdr_for (n : Z) : list Z := repeat 0 44 ++ [n; 0] ++ repeat 0 6.

End Image.

(** * Properties *)

(** ** Arrays *)

Lemma load_store_eq (l : list Z) (i v : Z) :
  0 <= i < Z.of_nat (length l) -> load (store l i v) i = v.
Proof.
  intros H. unfold load, store.
  destruct (Z.ltb_spec i 0); [lia|].
  rewrite list_lookup_insert_eq by lia. reflexivity.
Qed.

Lemma load_store_ne (l : list Z) (i j v : Z) :
  i <> j -> load (store l i v) j = load l j.
Proof.
  intros H. unfold load, store.
  destruct (Z.ltb_spec j 0); [reflexivity|].
  destruct (Z.ltb_spec i 0); [reflexivity|].
  rewrite list_lookup_insert_ne by lia. reflexivity.
Qed.

Lemma length_store (l : list Z) (i v : Z) : length (store l i v) = length l.
Proof. unfold store. destruct (i <? 0); [reflexivity|apply length_insert]. Qed.

Lemma store_load_same (l : list Z) (i : Z) :
  0 <= i < Z.of_nat (length l) -> store l i (load l i) = l.
Proof.
  intros H. unfold load, store.
  destruct (Z.ltb_spec i 0); [lia|].
  destruct (lookup_lt_is_Some_2 l (Z.to_nat i)) as [x Hx]; [lia|].
  rewrite Hx. simpl. apply list_insert_id. exact Hx.
Qed.

Lemma store_store_eq (l : list Z) (i v w : Z) :
  store (store l i v) i w = store l i w.
Proof.
  unfold store. destruct (i <? 0); [reflexivity|].
  apply list_insert_insert_eq.
Qed.

Lemma load_in_range (l : list Z) (i : Z) (Q : Z -> Prop) :
  Forall Q l -> 0 <= i < Z.of_nat (length l) -> Q (load l i).
Proof.
  intros HF H. unfold load.
  destruct (Z.ltb_spec i 0); [lia|].
  destruct (lookup_lt_is_Some_2 l (Z.to_nat i)) as [x Hx]; [lia|].
  rewrite Hx. simpl. eapply Forall_lookup_1; eauto.
Qed.

Lemma list_eq_load (l1 l2 : list Z) :
  length l1 = length l2 ->
  (forall i, 0 <= i < Z.of_nat (length l1) -> load l1 i = load l2 i) ->
  l1 = l2.
Proof.
  intros Hlen H. apply list_eq. intros k.
  destruct (Nat.lt_ge_cases k (length l1)) as [Hk|Hk].
  - specialize (H (Z.of_nat k) ltac:(lia)). unfold load in H.
    destruct (Z.ltb_spec (Z.of_nat k) 0); [lia|].
    rewrite Nat2Z.id in H.
    destruct (lookup_lt_is_Some_2 l1 k Hk) as [x Hx].
    destruct (lookup_lt_is_Some_2 l2 k ltac:(lia)) as [y Hy].
    rewrite Hx, Hy in *. simpl in H. congruence.
  - rewrite !lookup_ge_None_2 by lia. reflexivity.
Qed.

Lemma load_lookup (l : list Z) (i : nat) :
  load l (Z.of_nat i) = default 0 (l !! i).
Proof.
  unfold load. destruct (Z.ltb_spec (Z.of_nat i) 0); [lia|].
  rewrite Nat2Z.id. reflexivity.
Qed.

Lemma load_app_l (l1 l2 : list Z) (i : Z) :
  i < Z.of_nat (length l1) -> load (l1 ++ l2) i = load l1 i.
Proof.
  intros H. unfold load. destruct (Z.ltb_spec i 0); [reflexivity|].
  rewrite lookup_app_l by lia. reflexivity.
Qed.

Lemma load_app_r (l1 l2 : list Z) (i : Z) :
  Z.of_nat (length l1) <= i ->
  load (l1 ++ l2) i = load l2 (i - Z.of_nat (length l1)).
Proof.
  intros H. unfold load.
  destruct (Z.ltb_spec i 0); [lia|].
  destruct (Z.ltb_spec (i - Z.of_nat (length l1)) 0); [lia|].
  rewrite lookup_app_r by lia. do 2 f_equal. lia.
Qed.

Lemma load_firstn (l : list Z) (n : nat) (i : Z) :
  i < Z.of_nat n -> load (firstn n l) i = load l i.
Proof.
  intros H. unfold load. destruct (Z.ltb_spec i 0); [reflexivity|].
  rewrite lookup_take_lt by lia. reflexivity.
Qed.

Lemma load_skipn (l : list Z) (n : nat) (i : Z) :
  0 <= i -> load (skipn n l) i = load l (Z.of_nat n + i).
Proof.
  intros H. unfold load.
  destruct (Z.ltb_spec i 0); [lia|].
  destruct (Z.ltb_spec (Z.of_nat n + i) 0); [lia|].
  rewrite lookup_drop. do 2 f_equal. lia.
Qed.

Lemma aget_aset_eq {A} (d : A) (l : list A) (i : Z) (v : A) :
  0 <= i < Z.of_nat (length l) -> aget d (aset l i v) i = v.
Proof.
  intros H. unfold aget, aset. destruct (Z.ltb_spec i 0); [lia|].
  rewrite list_lookup_insert_eq by lia. reflexivity.
Qed.

Lemma length_aset {A} (l : list A) (i : Z) (v : A) :
  length (aset l i v) = length l.
Proof. unfold aset. destruct (i <? 0); [reflexivity|apply length_insert]. Qed.

Lemma aget_aset_ne {A} (d : A) (l : list A) (i j : Z) (v : A) :
  i <> j -> aget d (aset l i v) j = aget d l j.
Proof.
  intros H. unfold aget, aset.
  destruct (Z.ltb_spec j 0); [reflexivity|].
  destruct (Z.ltb_spec i 0); [reflexivity|].
  rewrite list_lookup_insert_ne by lia. reflexivity.
Qed.

Lemma aset_aset_eq {A} (l : list A) (i : Z) (v w : A) :
  aset (aset l i v) i w = aset l i w.
Proof.
  unfold aset. destruct (i <? 0); [reflexivity|].
  apply list_insert_insert_eq.
Qed.

Lemma aset_aget_same {A} (d : A) (l : list A) (i : Z) :
  aset l i (aget d l i) = l.
Proof.
  unfold aset, aget. destruct (i <? 0); [reflexivity|].
  destruct (l !! Z.to_nat i) as [x|] eqn:E; cbn [default].
  - apply list_insert_id. exact E.
  - apply list_insert_ge. apply lookup_ge_None. exact E.
Qed.

Lemma aget_out_of_range {A} (d : A) (l : list A) (i : Z) :
  Z.of_nat (length l) <= i -> aget d l i = d.
Proof.
  intros H. unfold aget. destruct (Z.ltb_spec i 0); [reflexivity|].
  rewrite lookup_ge_None_2 by lia. reflexivity.
Qed.

(** Comparisons in hypotheses, as propositions. *)
Ltac bools :=
  repeat match goal with
  | H : _ && _ = true |- _ => apply andb_true_iff in H; destruct H
  | H : _ && _ = false |- _ => apply andb_false_iff in H; destruct H
  | H : _ || _ = true |- _ => apply orb_true_iff in H; destruct H
  | H : _ || _ = false |- _ => apply orb_false_iff in H; destruct H
  | H : negb _ = true |- _ => apply negb_true_iff in H
  | H : negb _ = false |- _ => apply negb_false_iff in H
  | H : (_ <=? _) = true |- _ => apply Z.leb_le in H
  | H : (_ <=? _) = false |- _ => apply Z.leb_gt in H
  | H : (_ <? _) = true |- _ => apply Z.ltb_lt in H
  | H : (_ <? _) = false |- _ => apply Z.ltb_ge in H
  | H : (_ >? _) = true |- _ => apply Z.gtb_lt in H
  | H : (_ >? _) = false |- _ => rewrite Z.gtb_ltb in H
  | H : (_ >=? _) = true |- _ => rewrite Z.geb_leb in H
  | H : (_ >=? _) = false |- _ => rewrite Z.geb_leb in H
  | H : (_ =? _) = true |- _ => apply Z.eqb_eq in H
  | H : (_ =? _) = false |- _ => apply Z.eqb_neq in H
  end.

(** ** Bitmaps *)

Module BitmapFacts.
Import Bitmap.

(** A property of bytes that holds on each of the 256 values. *)
Lemma byte_forall (p : Z -> bool) :
  forallb p (map Z.of_nat (seq 0 256)) = true ->
  forall v, is_byte v -> p v = true.
Proof.
  intros H v Hv. rewrite forallb_forall in H. apply H.
  apply in_map_iff. exists (Z.to_nat v). split; [unfold is_byte in Hv; lia|].
  apply in_seq. unfold is_byte in Hv. lia.
Qed.

Lemma claim_bit_ok_all v : is_byte v -> claim_bit_ok v = true.
Proof. apply byte_forall. vm_compute. reflexivity. Qed.

Lemma in_bits (j : Z) : 0 <= j < 8 -> In j [0; 1; 2; 3; 4; 5; 6; 7].
Proof. intros H. simpl. lia. Qed.

Lemma claim_bit_some v v' k :
  is_byte v -> claim_bit v = Some (v', k) ->
  0 <= k < 8 /\ is_byte v' /\ bit_of v k = false /\ bit_of v' k = true
  /\ to_uchar (Z.land v' (Z.lnot (mask_of k))) = v
  /\ (forall j, 0 <= j < 8 -> j <> k -> bit_of v' j = bit_of v j)
  /\ (forall j, 0 <= j < k -> bit_of v j = true).
Proof.
  intros Hv Hc. pose proof (claim_bit_ok_all v Hv) as H.
  unfold claim_bit_ok in H. rewrite Hc in H.
  rewrite !andb_true_iff, !forallb_forall in H.
  destruct H as [[[[[[[[H1 H2] H3] H4] H5] H6] H7] H8] H9].
  apply negb_true_iff in H5.
  split; [lia|]. split; [unfold is_byte; lia|].
  split; [exact H5|]. split; [exact H6|]. split; [lia|]. split.
  - intros j Hj Hne. specialize (H8 j (in_bits j Hj)).
    apply orb_prop in H8. destruct H8 as [H8|H8]; [lia|].
    apply eqb_prop in H8. exact H8.
  - intros j Hj. specialize (H9 j (in_bits j ltac:(lia))).
    apply orb_prop in H9. destruct H9 as [H9|H9]; [|exact H9].
    apply negb_true_iff in H9. lia.
Qed.

Lemma claim_bit_none v : is_byte v -> claim_bit v = None -> v = 0xff.
Proof.
  intros Hv Hc. pose proof (claim_bit_ok_all v Hv) as H.
  unfold claim_bit_ok in H. rewrite Hc in H. lia.
Qed.

Lemma check_bit_bit_of (j : Z) (b : list Z) :
  check_bit j b = if bit_of (load b (Z.quot j 8)) (Z.rem j 8) then 1 else 0.
Proof. reflexivity. Qed.

Lemma bit_of_full k : 0 <= k < 8 -> bit_of 0xff k = true.
Proof.
  intros H. assert (k = 0 \/ k = 1 \/ k = 2 \/ k = 3 \/ k = 4 \/ k = 5 \/ k = 6 \/ k = 7) as C by lia.
  repeat (destruct C as [->|C]; [reflexivity|]). subst. reflexivity.
Qed.

Lemma get_free_entry_loop_spec (n : nat) : forall (i : Z) (b b' : list Z) (e : Z),
  0 <= i -> i + Z.of_nat n <= Z.of_nat (length b) -> Forall is_byte b ->
  get_free_entry_loop n i b = (e, b') ->
  (e = -1 /\ b' = b /\ forall t, i <= t < i + Z.of_nat n -> load b t = 0xff)
  \/ (exists t k v', i <= t < i + Z.of_nat n /\ e = t * 8 + k
        /\ claim_bit (load b t) = Some (v', k) /\ b' = store b t v'
        /\ forall t', i <= t' < t -> load b t' = 0xff).
Proof.
  induction n as [|n IH]; intros i b b' e Hi Hlen Hb H; simpl in H.
  - injection H as <- <-. left. repeat split; intros; lia.
  - assert (Hv : is_byte (load b i)) by (apply load_in_range; [assumption|lia]).
    assert (Hnext : forall e b', get_free_entry_loop n (i + 1) b = (e, b') -> load b i = 0xff ->
      (e = -1 /\ b' = b /\ forall t, i <= t < i + Z.of_nat (S n) -> load b t = 0xff)
  \/ (exists t k v', i <= t < i + Z.of_nat (S n) /\ e = t * 8 + k
        /\ claim_bit (load b t) = Some (v', k) /\ b' = store b t v'
        /\ forall t', i <= t' < t -> load b t' = 0xff)).
    { intros e0 b0 H0 Hff. apply IH in H0; [|lia|lia|assumption].
      destruct H0 as [(-> & -> & Hall)|(t & k & v' & Ht & -> & Hc & -> & Hall)].
      - left. repeat split. intros t Ht. destruct (Z.eq_dec t i) as [->|]; [assumption|apply Hall; lia].
      - right. exists t, k, v'. repeat split; try lia; try assumption.
        intros t' Ht'. destruct (Z.eq_dec t' i) as [->|]; [assumption|apply Hall; lia]. }
    destruct (Z.eqb_spec (load b i) 0xff) as [Hff|Hff]; [apply Hnext; assumption|].
    destruct (claim_bit (load b i)) as [[v' k]|] eqn:Hc.
    + injection H as <- <-. right. exists i, k, v'. repeat split; try lia; try assumption.
    + apply claim_bit_none in Hc; [|assumption]. contradiction.
Qed.

Lemma Forall_store (Q : Z -> Prop) (l : list Z) (i v : Z) :
  Forall Q l -> Q v -> Forall Q (store l i v).
Proof.
  intros Hl Hv. unfold store. destruct (i <? 0); [assumption|].
  apply Forall_insert; assumption.
Qed.

Lemma free_bitmap_entry_at (b : list Z) (t k : Z) :
  0 <= t -> 0 <= k < 8 -> t * 8 + k < BITMAP_ENTRIES ->
  free_bitmap_entry (t * 8 + k) b
  = (0, store b t (to_uchar (Z.land (load b t) (Z.lnot (mask_of k))))).
Proof.
  intros Ht Hk Hlt. unfold free_bitmap_entry.
  destruct (Z.geb_spec (t * 8 + k) BITMAP_ENTRIES); [lia|].
  rewrite Z.quot_div_nonneg, Z.rem_mod_nonneg by lia.
  replace ((t * 8 + k) / 8) with t by (apply Z.div_unique with k; lia).
  replace ((t * 8 + k) mod 8) with k by (apply Z.mod_unique with t; lia).
  assert (k = 0 \/ k = 1 \/ k = 2 \/ k = 3 \/ k = 4 \/ k = 5 \/ k = 6 \/ k = 7) as C by lia.
  repeat (destruct C as [->|C]; [reflexivity|]). subst. reflexivity.
Qed.

Lemma Forall_repeat_byte (v : Z) (n : nat) :
  is_byte v -> Forall is_byte (repeat v n).
Proof. intros Hv. induction n; simpl; constructor; assumption. Qed.

(** The definition of [get_free_entry], as an equation to rewrite with. *)
Lemma get_free_entry_unfold (b : list Z) :
  get_free_entry b
  = get_free_entry_loop (Z.to_nat (Z.quot BITMAP_ENTRIES 8)) 0 b.
Proof. reflexivity. Qed.

Lemma get_free_entry_spec (b b' : list Z) (e : Z) :
  (32 <= length b)%nat -> Forall is_byte b ->
  get_free_entry b = (e, b') ->
  (e = -1 /\ b' = b /\ forall j, 0 <= j < BITMAP_ENTRIES -> check_bit j b = 1)
  \/ (0 <= e < BITMAP_ENTRIES /\ check_bit e b = 0 /\ check_bit e b' = 1
      /\ (forall j, 0 <= j -> j <> e -> check_bit j b' = check_bit j b)
      /\ (forall j, 0 <= j < e -> check_bit j b = 1)
      /\ length b' = length b /\ Forall is_byte b'
      /\ free_bitmap_entry e b' = (0, b)).
Proof.
  intros Hlen Hb H. rewrite get_free_entry_unfold in H.
  apply get_free_entry_loop_spec in H; [|lia| |assumption].
  2: { change (Z.of_nat (Z.to_nat (Z.quot BITMAP_ENTRIES 8))) with 32. lia. }
  change (Z.of_nat (Z.to_nat (Z.quot BITMAP_ENTRIES 8))) with 32 in H.
  destruct H as [(-> & -> & Hall)|(t & k & v' & Ht & -> & Hc & -> & Hall)].
  - left. repeat split. intros j Hj. rewrite check_bit_bit_of.
    unfold BITMAP_ENTRIES in Hj.
    rewrite Z.quot_div_nonneg, Z.rem_mod_nonneg by lia.
    rewrite Hall by (split; [apply Z.div_pos; lia|apply Z.div_lt_upper_bound; lia]).
    rewrite bit_of_full; [reflexivity|apply Z.mod_pos_bound; lia].
  - right.
    assert (Hv : is_byte (load b t)) by (apply load_in_range; [assumption|lia]).
    destruct (claim_bit_some _ _ _ Hv Hc) as (Hk & Hv' & Hb0 & Hb1 & Hclr & Hoth & Hlow).
    assert (Hq : Z.quot (t * 8 + k) 8 = t).
    { rewrite Z.quot_div_nonneg by lia. symmetry. apply Z.div_unique with k; lia. }
    assert (Hr : Z.rem (t * 8 + k) 8 = k).
    { rewrite Z.rem_mod_nonneg by lia. symmetry. apply Z.mod_unique with t; lia. }
    split; [unfold BITMAP_ENTRIES; lia|].
    split; [rewrite check_bit_bit_of, Hq, Hr, Hb0; reflexivity|].
    split; [rewrite check_bit_bit_of, Hq, Hr, load_store_eq, Hb1 by lia; reflexivity|].
    split.
    { intros j Hj Hne. rewrite !check_bit_bit_of.
      rewrite Z.quot_div_nonneg, Z.rem_mod_nonneg by lia.
      destruct (Z.eq_dec (j / 8) t) as [Heq|Hneq].
      - rewrite Heq, load_store_eq by lia.
        rewrite Hoth; [reflexivity|apply Z.mod_pos_bound; lia|].
        intros Hm. apply Hne. rewrite (Z.div_mod j 8) by lia. lia.
      - rewrite load_store_ne by congruence. reflexivity. }
    split.
    { intros j Hj. rewrite check_bit_bit_of.
      rewrite Z.quot_div_nonneg, Z.rem_mod_nonneg by lia.
      assert (j / 8 < t + 1) by (apply Z.div_lt_upper_bound; lia).
      destruct (Z.eq_dec (j / 8) t) as [Heq|Hneq].
      - rewrite Heq, Hlow; [reflexivity|].
        pose proof (Z.div_mod j 8 ltac:(lia)). pose proof (Z.mod_pos_bound j 8 ltac:(lia)). lia.
      - rewrite Hall; [|split; [apply Z.div_pos; lia|lia]].
        rewrite bit_of_full; [reflexivity|apply Z.mod_pos_bound; lia]. }
    split; [apply length_store|].
    split; [apply Forall_store; assumption|].
    rewrite free_bitmap_entry_at by (unfold BITMAP_ENTRIES; lia).
    rewrite load_store_eq by lia. rewrite Hclr, store_store_eq.
    rewrite store_load_same by lia. reflexivity.
Qed.

Lemma free_bitmap_entry_minus_one (b : list Z) :
  free_bitmap_entry (-1) b = (0, b).
Proof. reflexivity. Qed.

(** C9, as stated, fails: [low_bits_taken] is a 256-byte bitmap whose first
    zero bit, MSB-first, is bit 256; [get_free_entry] does not set it and
    returns -1 although the bitmap is not full. *)
Lemma get_free_entry_skips_bit_256 :
  length low_bits_taken = 256%nat
  /\ Forall is_byte low_bits_taken
  /\ (forall j, 0 <= j < 256 -> check_bit j low_bits_taken = 1)
  /\ check_bit 256 low_bits_taken = 0
  /\ get_free_entry low_bits_taken = (-1, low_bits_taken).
Proof.
  assert (HF : Forall is_byte low_bits_taken).
  { unfold low_bits_taken. apply Forall_app.
    split; apply Forall_repeat_byte; unfold is_byte; lia. }
  assert (HG : get_free_entry low_bits_taken = (-1, low_bits_taken))
    by (vm_compute; reflexivity).
  assert (HL : length low_bits_taken = 256%nat) by reflexivity.
  split; [exact HL|]. split; [exact HF|]. split; [|split].
  - destruct (get_free_entry_spec low_bits_taken low_bits_taken (-1)
                 ltac:(lia) HF HG)
      as [(_ & _ & H)|(H & _)]; [exact H|lia].
  - vm_compute. reflexivity.
  - exact HG.
Qed.

(** C9, amended: on every 256-byte bitmap [b], [free_bitmap_entry] after
    [get_free_entry] restores [b].  [get_free_entry] looks at the first
    [BITMAP_ENTRIES] = 256 bits only: it returns -1 and leaves [b] as it
    is when these are all set, and otherwise sets the first zero bit
    among them, MSB-first, and returns its index; [free_bitmap_entry]
    clears that bit again, and does nothing for -1. *)
Theorem free_after_get_free_entry_restores (b : list Z) :
  length b = 256%nat -> Forall is_byte b ->
  let '(e, b1) := get_free_entry b in
  free_bitmap_entry e b1 = (0, b)
  /\ ((e = -1 /\ b1 = b
       /\ forall j, 0 <= j < BITMAP_ENTRIES -> check_bit j b = 1)
      \/ (0 <= e < BITMAP_ENTRIES
          /\ check_bit e b = 0
          /\ (forall j, 0 <= j < e -> check_bit j b = 1)
          /\ check_bit e b1 = 1
          /\ (forall j, 0 <= j -> j <> e -> check_bit j b1 = check_bit j b))).
Proof.
  intros Hlen Hb. destruct (get_free_entry b) as [e b1] eqn:H.
  destruct (get_free_entry_spec b b1 e ltac:(lia) Hb H)
    as [(-> & -> & Hall)|(He & H0 & H1 & Hoth & Hlow & _ & _ & Hfree)].
  - split; [apply free_bitmap_entry_minus_one|]. left. auto.
  - split; [exact Hfree|]. right. auto.
Qed.

(** The amended C9 at the empty bitmap: entry 0 is handed out and given
    back. *)
Lemma free_after_get_free_entry_restores_witness :
  free_bitmap_entry (fst (get_free_entry (repeat 0 256)))
                    (snd (get_free_entry (repeat 0 256)))
  = (0, repeat 0 256).
Proof.
  assert (HF : Forall is_byte (repeat 0 256)).
  { apply Forall_repeat_byte. unfold is_byte. lia. }
  pose proof (free_after_get_free_entry_restores (repeat 0 256) eq_refl HF)
    as H.
  destruct (get_free_entry (repeat 0 256)) as [e b1]. exact (proj1 H).
Defined.

(** *** The number of entries in use *)

Lemma count_byte_acc (n : nat) : forall y v c,
  count_byte n y v c = c + count_byte n y v 0.
Proof.
  induction n as [|n IH]; intros y v c; cbn [count_byte]; [lia|].
  rewrite IH.
  rewrite (IH (y + 1) v (if Z.land v (Z.shiftl 1 y) >? 0 then 0 + 1 else 0)).
  destruct (Z.land v (Z.shiftl 1 y) >? 0); lia.
Qed.

Lemma count_byte_range (n : nat) : forall y v,
  0 <= count_byte n y v 0 <= Z.of_nat n.
Proof.
  induction n as [|n IH]; intros y v; cbn [count_byte]; [lia|].
  rewrite count_byte_acc. specialize (IH (y + 1) v).
  destruct (Z.land v (Z.shiftl 1 y) >? 0); lia.
Qed.

Lemma bitmap_used_space_unfold (b : list Z) :
  bitmap_used_space b
  = bitmap_used_space_loop (Z.to_nat BITMAP_ENTRIES) 0 b 0.
Proof. reflexivity. Qed.

Lemma used_loop_acc (n : nat) : forall x b c,
  bitmap_used_space_loop n x b c = c + bitmap_used_space_loop n x b 0.
Proof.
  induction n as [|n IH]; intros x b c; cbn [bitmap_used_space_loop]; [lia|].
  rewrite IH. rewrite (IH _ _ (count_byte 8 0 (load b x) 0)).
  rewrite (count_byte_acc 8 0 (load b x) c). lia.
Qed.

Lemma used_loop_range (n : nat) : forall x b,
  0 <= bitmap_used_space_loop n x b 0 <= 8 * Z.of_nat n.
Proof.
  induction n as [|n IH]; intros x b; cbn [bitmap_used_space_loop]; [lia|].
  rewrite used_loop_acc. specialize (IH (x + 1) b).
  pose proof (count_byte_range 8 0 (load b x)). lia.
Qed.

(** The count after one byte of the bitmap has changed. *)
Lemma used_loop_store (n : nat) : forall x b t v,
  0 <= t < Z.of_nat (length b) ->
  bitmap_used_space_loop n x (store b t v) 0
  = bitmap_used_space_loop n x b 0
    + (if (x <=? t) && (t <? x + Z.of_nat n)
       then popcount v - popcount (load b t) else 0).
Proof.
  induction n as [|n IH]; intros x b t v Ht; cbn [bitmap_used_space_loop].
  - destruct ((x <=? t) && (t <? x + Z.of_nat 0)) eqn:E; [bools; lia|lia].
  - rewrite used_loop_acc. rewrite (used_loop_acc n (x + 1) b).
    rewrite IH by exact Ht. fold (popcount (load (store b t v) x)).
    fold (popcount (load b x)).
    destruct (Z.eq_dec x t) as [->|Hne].
    + rewrite load_store_eq by exact Ht.
      destruct (Z.leb_spec (t + 1) t); [lia|]. cbn [andb].
      destruct (Z.leb_spec t t); [|lia].
      destruct (Z.ltb_spec t (t + Z.of_nat (S n))); [|lia]. cbn [andb]. lia.
    + rewrite load_store_ne by congruence.
      destruct (Z.leb_spec (x + 1) t); destruct (Z.leb_spec x t); try lia;
        destruct (Z.ltb_spec t (x + 1 + Z.of_nat n));
        destruct (Z.ltb_spec t (x + Z.of_nat (S n))); cbn [andb]; lia.
Qed.

Lemma claim_bit_adds_one_all v : is_byte v -> claim_bit_adds_one v = true.
Proof. apply byte_forall. vm_compute. reflexivity. Qed.

Lemma clear_bit_drops_all v : is_byte v -> clear_bit_drops v = true.
Proof. apply byte_forall. vm_compute. reflexivity. Qed.

Lemma bitmap_used_space_store (b : list Z) (t v : Z) :
  0 <= t < Z.of_nat (length b) -> t < BITMAP_ENTRIES ->
  bitmap_used_space (store b t v)
  = bitmap_used_space b + popcount v - popcount (load b t).
Proof.
  intros Ht Hlt. rewrite !bitmap_used_space_unfold.
  rewrite used_loop_store by exact Ht.
  change (Z.of_nat (Z.to_nat BITMAP_ENTRIES)) with 256.
  unfold BITMAP_ENTRIES in Hlt.
  destruct (Z.leb_spec 0 t); [|lia].
  destruct (Z.ltb_spec t (0 + 256)); [|lia]. cbn [andb]. lia.
Qed.

(** X21: [bitmap_used_space] lies between 0 and 2048; it grows by 1 with
    every [get_free_entry] that finds an entry and stays as it is when
    [get_free_entry] returns -1; [free_bitmap_entry e] lowers it by the
    bit of [e], that is by 1 when the entry was taken and by 0 when it
    was free. *)
Theorem bitmap_used_space_tracks_entries (b : list Z) :
  length b = 256%nat -> Forall is_byte b ->
  0 <= bitmap_used_space b <= 2048
  /\ (let '(e, b1) := get_free_entry b in
      bitmap_used_space b1
      = if e =? -1 then bitmap_used_space b else bitmap_used_space b + 1)
  /\ (forall e, 0 <= e < BITMAP_ENTRIES ->
        bitmap_used_space (snd (free_bitmap_entry e b))
        = bitmap_used_space b - check_bit e b).
Proof.
  intros Hlen Hb. split; [|split].
  - rewrite bitmap_used_space_unfold.
    pose proof (used_loop_range (Z.to_nat BITMAP_ENTRIES) 0 b) as H.
    change (Z.of_nat (Z.to_nat BITMAP_ENTRIES)) with 256 in H. lia.
  - destruct (get_free_entry b) as [e b1] eqn:H.
    rewrite get_free_entry_unfold in H.
    apply get_free_entry_loop_spec in H; [|lia| |assumption].
    2: { change (Z.of_nat (Z.to_nat (Z.quot BITMAP_ENTRIES 8))) with 32. lia. }
    change (Z.of_nat (Z.to_nat (Z.quot BITMAP_ENTRIES 8))) with 32 in H.
    destruct H as [(-> & -> & _)|(t & k & v' & Ht & -> & Hc & -> & _)];
      [reflexivity|].
    assert (Hv : is_byte (load b t)) by (apply load_in_range; [assumption|lia]).
    destruct (claim_bit_some _ _ _ Hv Hc) as (Hk & _).
    destruct (Z.eqb_spec (t * 8 + k) (-1)); [lia|].
    rewrite bitmap_used_space_store by (unfold BITMAP_ENTRIES; lia).
    pose proof (claim_bit_adds_one_all _ Hv) as Hp.
    unfold claim_bit_adds_one in Hp. rewrite Hc in Hp. lia.
  - intros e He. unfold BITMAP_ENTRIES in He.
    set (t := e / 8). set (k := e mod 8).
    assert (Hk : 0 <= k < 8) by (apply Z.mod_pos_bound; lia).
    assert (Ht : 0 <= t < 32).
    { unfold t. split; [apply Z.div_pos; lia|apply Z.div_lt_upper_bound; lia]. }
    assert (Ee : e = t * 8 + k) by (unfold t, k; rewrite (Z.div_mod e 8) at 1; lia).
    rewrite Ee. rewrite free_bitmap_entry_at by (unfold BITMAP_ENTRIES; lia).
    cbn [snd]. rewrite bitmap_used_space_store by (unfold BITMAP_ENTRIES; lia).
    assert (Hv : is_byte (load b t)) by (apply load_in_range; [assumption|lia]).
    pose proof (clear_bit_drops_all _ Hv) as Hp.
    unfold clear_bit_drops in Hp. rewrite forallb_forall in Hp.
    specialize (Hp k (in_bits k Hk)). apply Z.eqb_eq in Hp. rewrite Hp.
    rewrite check_bit_bit_of.
    rewrite Z.quot_div_nonneg, Z.rem_mod_nonneg by lia.
    replace ((t * 8 + k) / 8) with t by (apply Z.div_unique with k; lia).
    replace ((t * 8 + k) mod 8) with k by (apply Z.mod_unique with t; lia).
    destruct (bit_of (load b t) k); lia.
Qed.

(** X21 on the empty bitmap. *)
Lemma bitmap_used_space_tracks_entries_witness :
  0 <= bitmap_used_space (repeat 0 256) <= 2048
  /\ (let '(e, b1) := get_free_entry (repeat 0 256) in
      bitmap_used_space b1
      = if e =? -1 then bitmap_used_space (repeat 0 256)
        else bitmap_used_space (repeat 0 256) + 1)
  /\ (forall e, 0 <= e < BITMAP_ENTRIES ->
        bitmap_used_space (snd (free_bitmap_entry e (repeat 0 256)))
        = bitmap_used_space (repeat 0 256) - check_bit e (repeat 0 256)).
Proof.
  apply (bitmap_used_space_tracks_entries (repeat 0 256)).
  - reflexivity.
  - apply Forall_repeat_byte. unfold is_byte. lia.
Defined.

(** *** Clearing a bit *)

Lemma clear_bit_ok_all v : is_byte v -> clear_bit_ok v = true.
Proof. apply byte_forall. vm_compute. reflexivity. Qed.

Lemma clear_bit_some (v k : Z) :
  is_byte v -> 0 <= k < 8 ->
  let v' := to_uchar (Z.land v (Z.lnot (mask_of k))) in
  is_byte v'
  /\ forall j, 0 <= j < 8 ->
       bit_of v' j = if j =? k then false else bit_of v j.
Proof.
  intros Hv Hk v'. pose proof (clear_bit_ok_all v Hv) as H.
  unfold clear_bit_ok in H. rewrite forallb_forall in H.
  specialize (H k (in_bits k Hk)). cbv zeta in H. fold v' in H.
  rewrite !andb_true_iff, forallb_forall in H.
  destruct H as [[H1 H2] H3]. split; [unfold is_byte; lia|].
  intros j Hj. specialize (H3 j (in_bits j Hj)).
  apply eqb_prop in H3. exact H3.
Qed.

Lemma quot8 (t k : Z) : 0 <= t -> 0 <= k < 8 -> Z.quot (t * 8 + k) 8 = t.
Proof.
  intros. rewrite Z.quot_div_nonneg by lia.
  symmetry. apply Z.div_unique with k; lia.
Qed.

Lemma rem8 (t k : Z) : 0 <= t -> 0 <= k < 8 -> Z.rem (t * 8 + k) 8 = k.
Proof.
  intros. rewrite Z.rem_mod_nonneg by lia.
  symmetry. apply Z.mod_unique with t; lia.
Qed.

Lemma split8 (e : Z) :
  0 <= e -> exists t k, 0 <= t /\ 0 <= k < 8 /\ e = t * 8 + k.
Proof.
  intros He. exists (e / 8), (e mod 8).
  split; [apply Z.div_pos; lia|]. split; [apply Z.mod_pos_bound; lia|].
  rewrite (Z.div_mod e 8) at 1 by lia. lia.
Qed.

(** The bits after [free_bitmap_entry]. *)
Lemma free_bitmap_entry_check (b : list Z) (e : Z) :
  Forall is_byte b -> (32 <= length b)%nat -> 0 <= e ->
  let b' := snd (free_bitmap_entry e b) in
  Forall is_byte b' /\ length b' = length b
  /\ forall j, 0 <= j ->
       check_bit j b'
       = if (j =? e) && (e <? BITMAP_ENTRIES) then 0 else check_bit j b.
Proof.
  intros Hb Hlen He b'. unfold b'. clear b'.
  destruct (Z.ltb_spec e BITMAP_ENTRIES) as [Hlt|Hge].
  2:{ unfold free_bitmap_entry.
      destruct (Z.geb_spec e BITMAP_ENTRIES); [|lia]. cbn [snd].
      split; [exact Hb|]. split; [reflexivity|].
      intros j _. rewrite andb_false_r. reflexivity. }
  destruct (split8 e He) as (t & k & Ht & Hk & ->).
  unfold BITMAP_ENTRIES in Hlt.
  rewrite free_bitmap_entry_at by (unfold BITMAP_ENTRIES; lia).
  cbn [snd].
  assert (Hv : is_byte (load b t)) by (apply load_in_range; [assumption|lia]).
  destruct (clear_bit_some (load b t) k Hv Hk) as (Hv' & Hbits).
  split; [apply Forall_store; assumption|].
  split; [apply length_store|].
  intros j Hj. rewrite andb_true_r.
  destruct (split8 j Hj) as (tj & kj & Htj & Hkj & ->).
  rewrite !check_bit_bit_of, !quot8, !rem8 by lia.
  destruct (Z.eq_dec tj t) as [->|Hne].
  - rewrite load_store_eq by lia. rewrite Hbits by lia.
    destruct (Z.eqb_spec kj k) as [->|Hk'].
    + rewrite Z.eqb_refl. reflexivity.
    + destruct (Z.eqb_spec (t * 8 + kj) (t * 8 + k)); [lia|reflexivity].
  - rewrite load_store_ne by congruence.
    destruct (Z.eqb_spec (tj * 8 + kj) (t * 8 + k)); [lia|reflexivity].
Qed.

End BitmapFacts.

(** ** Filesystem *)

Module FSFacts.
Import Bitmap BitmapFacts FS.

Section WithParams.
Context {P : fs_params}.

(** *** [resize_inode] *)

Lemma resize_loop_release (n : nat) :
  forall (x blocks ndata : Z) (direct bmap : list Z),
  blocks <= x ->
  exists bmap', resize_loop n x blocks ndata direct bmap
                = (true, direct, bmap').
Proof.
  induction n as [|n IH]; intros x blocks ndata direct bmap Hx.
  - exists bmap. reflexivity.
  - cbn [resize_loop]. destruct (Z.ltb_spec x blocks); [lia|].
    destruct (negb _); apply IH; lia.
Qed.

Lemma resize_loop_allocates (n : nat) :
  forall (x blocks ndata : Z) (direct bmap direct' bmap' : list Z),
  0 <= x -> x + Z.of_nat n = Z.of_nat (length direct) ->
  (32 <= length bmap)%nat -> Forall is_byte bmap ->
  marked direct bmap (Z.min blocks (Z.of_nat (length direct))) ndata ->
  (forall y, 0 <= y < x -> y < blocks -> load direct y <> -1) ->
  resize_loop n x blocks ndata direct bmap = (true, direct', bmap') ->
  length direct' = length direct
  /\ allocated direct' (Z.min blocks (Z.of_nat (length direct))) ndata.
Proof.
  induction n as [|n IH];
    intros x blocks ndata direct bmap direct' bmap' Hx Hn Hlen Hb
           (Hin & Hdis) Hfilled H.
  - cbn [resize_loop] in H. injection H as <- <-.
    split; [reflexivity|]. split.
    + intros y Hy. apply Hin; [lia|]. apply Hfilled; lia.
    + intros y z Hy Hz. apply Hdis; try lia; apply Hfilled; lia.
  - cbn [resize_loop] in H.
    destruct (Z.ltb_spec x blocks) as [Hlt|Hge].
    2:{ destruct (resize_loop_release (S n) x blocks ndata direct bmap Hge)
          as (b2 & Hr).
        cbn [resize_loop] in Hr.
        destruct (Z.ltb_spec x blocks); [lia|]. rewrite Hr in H.
        injection H as <- <-.
        split; [reflexivity|]. split.
        - intros y Hy. apply Hin; [lia|]. apply Hfilled; lia.
        - intros y z Hy Hz. apply Hdis; try lia; apply Hfilled; lia. }
    destruct (Z.eqb_spec (load direct x) (-1)) as [Hfree|Hused].
    + destruct (get_free_entry bmap) as [e bmap1] eqn:Hg.
      rewrite load_store_eq in H by lia.
      destruct (Z.eqb_spec e (-1)) as [He|He]; [discriminate|].
      destruct (Z.geb_spec e ndata) as [He2|He2]; [discriminate|].
      cbn [orb] in H.
      destruct (get_free_entry_spec bmap bmap1 e Hlen Hb Hg)
        as [(-> & _)|(He0 & Hb0 & Hb1 & Hoth & _ & Hl1 & HB1 & _)];
        [congruence|].
      apply IH in H; try lia.
      * rewrite length_store in H. exact H.
      * rewrite length_store. lia.
      * assumption.
      * rewrite length_store. split.
        -- intros y Hy Hne. destruct (Z.eq_dec y x) as [->|Hyx].
           ++ rewrite load_store_eq by lia. split; [lia|exact Hb1].
           ++ rewrite load_store_ne in * by congruence.
              destruct (Hin y Hy Hne) as [Hr Hc]. split; [exact Hr|].
              destruct (Z.eq_dec (load direct y) e) as [->|Hne'];
                [exact Hb1|].
              rewrite Hoth by lia. exact Hc.
        -- intros y z Hy Hz Hny Hnz.
           destruct (Z.eq_dec y x) as [->|Hyx];
             destruct (Z.eq_dec z x) as [->|Hzx]; try lia.
           ++ rewrite load_store_eq by lia.
              rewrite load_store_ne in * by congruence.
              intros Heq. destruct (Hin z ltac:(lia) Hnz) as [_ Hc].
              rewrite <- Heq in Hc. congruence.
           ++ rewrite load_store_eq by lia.
              rewrite load_store_ne in * by congruence.
              intros Heq. destruct (Hin y ltac:(lia) Hny) as [_ Hc].
              rewrite Heq in Hc. congruence.
           ++ rewrite !load_store_ne in * by congruence.
              apply Hdis; assumption.
      * intros y Hy Hyb. destruct (Z.eq_dec y x) as [->|Hyx].
        -- rewrite load_store_eq by lia. exact He.
        -- rewrite load_store_ne by congruence. apply Hfilled; lia.
    + apply IH in H; try lia; try assumption.
      * split; assumption.
      * intros y Hy Hyb. destruct (Z.eq_dec y x) as [->|Hyx];
          [exact Hused|apply Hfilled; lia].
Qed.

(** What a successful [resize_inode] leaves: the inode with its new
    slots and size; the superblock, the layout and the open-file table
    as they were. *)
Lemma resize_inode_ok (id new_size : Z) (st st' : fs_state) :
  resize_inode id new_size st = (FSE_OK, st') ->
  0 <= id < Z.of_nat (length (inodes st)) ->
  exists direct' bmap',
    resize_loop (Z.to_nat INODE_NDIRECT) 0
                (Z.quot new_size BLOCK_SIZE + 1) (ndata_blks (super st))
                (i_direct (d_inode (inode_at st id)))
                (sector_prefix (disk st) (SUPER_BLOCK_START st + 2)
                               (Z.to_nat BITMAP_ENTRIES))
    = (true, direct', bmap')
    /\ inodes st'
       = aset (inodes st) id
              (with_size (with_direct (inode_at st id) direct') new_size)
    /\ super st' = super st
    /\ SUPER_BLOCK_START st' = SUPER_BLOCK_START st
    /\ filedes st' = filedes st.
Proof.
  intros H Hid. unfold resize_inode in H.
  destruct (new_size >? max_filesize (super st)).
  { injection H as H _. pose proof FSE_INODETABLEFULL_neg. unfold FSE_OK in H. lia. }
  cbn [load_bitmaps set_bmaps inodes dblk_bmap inode_bmap super disk
       SUPER_BLOCK_START] in H.
  change (inode_at (set_bmaps st _ _) id) with (inode_at st id) in H.
  destruct (resize_loop _ _ _ _ _ _) as [[ok direct'] bmap'] eqn:Hloop.
  destruct ok.
  2:{ injection H as H _. pose proof FSE_FULL_neg. unfold FSE_OK in H. lia. }
  injection H as <-. exists direct', bmap'. split; [reflexivity|].
  cbn. unfold inode_at. cbn. rewrite aget_aset_eq by lia.
  rewrite aset_aset_eq. auto.
Qed.

(** *** Transfers between a buffer and the data blocks *)

Lemma read_cells_spec (d : disk_t) (blk : Z) (n : nat) :
  forall (off : Z) (buf : list Z) (to : Z),
  0 <= to -> to + Z.of_nat n <= Z.of_nat (length buf) ->
  length (read_cells n d blk off buf to) = length buf
  /\ forall j,
       load (read_cells n d blk off buf to) j
       = if (to <=? j) && (j <? to + Z.of_nat n)
         then d blk (off + (j - to)) else load buf j.
Proof.
  induction n as [|n IH]; intros off buf to Hto Hn.
  - split; [reflexivity|]. intros j. cbn [read_cells].
    destruct ((to <=? j) && (j <? to + Z.of_nat 0)) eqn:E; [|reflexivity].
    bools. lia.
  - cbn [read_cells].
    destruct (IH (off + 1) (store buf to (d blk off)) (to + 1))
      as (Hl & Hj); try lia.
    { rewrite length_store. lia. }
    rewrite length_store in Hl. split; [exact Hl|].
    intros j. rewrite Hj.
    destruct ((to + 1 <=? j) && (j <? to + 1 + Z.of_nat n)) eqn:E1;
      destruct ((to <=? j) && (j <? to + Z.of_nat (S n))) eqn:E2;
      bools.
    all: try lia.
    all: try (f_equal; lia).
    all: try (apply load_store_ne; lia).
    all: replace j with to by lia; rewrite load_store_eq by lia;
      f_equal; lia.
Qed.

Lemma idx2blk_inj (st : fs_state) (ndata a b : Z) :
  ndata <= FS_BLOCKS - INODE_BLOCKS - BITMAP_BLOCKS ->
  0 <= a < ndata -> 0 <= b < ndata -> a <> b ->
  idx2blk st a <> idx2blk st b.
Proof.
  intros Hnd Ha Hb Hne. unfold idx2blk.
  destruct (Z.ltb_spec a 0); [lia|]. destruct (Z.ltb_spec b 0); [lia|].
  destruct (Z.gtb_spec a (FS_BLOCKS - INODE_BLOCKS - BITMAP_BLOCKS - 1)); [lia|].
  destruct (Z.gtb_spec b (FS_BLOCKS - INODE_BLOCKS - BITMAP_BLOCKS - 1)); [lia|].
  cbn [orb]. lia.
Qed.

(** One round of the loop of [db_write] on a write from position 0: the
    next [len] bytes go to the start of block [x]. *)
Lemma db_write_loop_step (f : nat) (id : Z) (buf : list Z) (n x : Z)
    (st : fs_state) :
  let fb := n / BLOCK_SIZE + 1 in
  let len := if x + 1 =? fb then n - BLOCK_SIZE * x else BLOCK_SIZE in
  0 <= x < fb -> BLOCK_SIZE * x < n ->
  i_size (d_inode (inode_at st id)) = n ->
  db_write_loop (S f) id buf 0 n 0 fb x (BLOCK_SIZE * x) st
  = db_write_loop f id buf 0 n 0 fb (x + 1) (BLOCK_SIZE * x + len)
      (set_disk st
         (block_modify (disk st) (file_block st id x) 0 buf
                       (BLOCK_SIZE * x) len)).
Proof.
  intros fb len Hx Hlt Hsize. cbn [db_write_loop]. rewrite Hsize.
  destruct (Z.ltb_spec x fb); [|lia].
  destruct (Z.ltb_spec (0 + BLOCK_SIZE * x) n); [|lia]. cbn [andb].
  fold (file_block st id x). unfold len.
  change (Z.rem 0 BLOCK_SIZE) with 0.
  destruct (Z.eqb_spec x 0) as [->|Hx0].
  - change (BLOCK_SIZE * 0) with 0.
    destruct (0 + 1 =? fb); repeat f_equal; lia.
  - destruct (x + 1 =? fb); repeat f_equal; lia.
Qed.

Lemma db_write_loop_stores (id : Z) (buf : list Z) (n ndata : Z)
    (st0 : fs_state) (fuel : nat) :
  let fb := n / BLOCK_SIZE + 1 in
  let direct := i_direct (d_inode (inode_at st0 id)) in
  i_size (d_inode (inode_at st0 id)) = n ->
  ndata <= FS_BLOCKS - INODE_BLOCKS - BITMAP_BLOCKS ->
  n <= BLOCK_SIZE * Z.of_nat (length direct) ->
  allocated direct (Z.min fb (Z.of_nat (length direct))) ndata ->
  forall (x : Z) (d : disk_t),
  0 <= x -> x + Z.of_nat fuel = fb -> BLOCK_SIZE * x <= n ->
  stored d st0 id buf (BLOCK_SIZE * x) ->
  exists d',
    db_write_loop fuel id buf 0 n 0 fb x (BLOCK_SIZE * x) (set_disk st0 d)
    = (n, set_disk st0 d')
    /\ stored d' st0 id buf n.
Proof.
  intros fb direct Hsize Hnd Hcap (Hin & Hdis).
  assert (Hfb : BLOCK_SIZE * (fb - 1) <= n < BLOCK_SIZE * fb).
  { unfold fb, BLOCK_SIZE.
    pose proof (Z.div_mod n 512 ltac:(lia)).
    pose proof (Z.mod_pos_bound n 512 ltac:(lia)). lia. }
  induction fuel as [|f IH]; intros x d Hx Hf Hle Hst.
  - unfold BLOCK_SIZE in *. lia.
  - destruct (Z.eq_dec (BLOCK_SIZE * x) n) as [Heq|Hne].
    { exists d. split; [|rewrite <- Heq; exact Hst].
      cbn [db_write_loop]. change (inode_at (set_disk st0 d) id)
        with (inode_at st0 id). rewrite Hsize.
      destruct (Z.ltb_spec (0 + BLOCK_SIZE * x) n); [lia|].
      rewrite andb_false_r. rewrite Heq. reflexivity. }
    rewrite db_write_loop_step; [|lia|lia|exact Hsize].
    fold fb. cbn [disk set_disk].
    change (file_block (set_disk st0 d) id x) with (file_block st0 id x).
    set (len := if x + 1 =? fb then n - BLOCK_SIZE * x else BLOCK_SIZE).
    set (d1 := block_modify d (file_block st0 id x) 0 buf (BLOCK_SIZE * x) len).
    change (set_disk (set_disk st0 d) d1) with (set_disk st0 d1).
    assert (Hlen : 0 < len <= BLOCK_SIZE
                   /\ BLOCK_SIZE * x + len <= n
                   /\ (x + 1 = fb -> BLOCK_SIZE * x + len = n)
                   /\ (x + 1 <> fb -> len = BLOCK_SIZE)).
    { unfold len. destruct (Z.eqb_spec (x + 1) fb); unfold BLOCK_SIZE in *; lia. }
    assert (Hst1 : stored d1 st0 id buf (BLOCK_SIZE * x + len)).
    { intros j Hj. unfold d1, block_modify.
      assert (Hjd : j = BLOCK_SIZE * (j / BLOCK_SIZE) + j mod BLOCK_SIZE)
        by (apply Z.div_mod; unfold BLOCK_SIZE; lia).
      assert (Hjm : 0 <= j mod BLOCK_SIZE < BLOCK_SIZE)
        by (apply Z.mod_pos_bound; unfold BLOCK_SIZE; lia).
      destruct (Z.lt_ge_cases j (BLOCK_SIZE * x)) as [Hlow|Hhigh].
      - assert (Hq : 0 <= j / BLOCK_SIZE < x).
        { split; [apply Z.div_pos; unfold BLOCK_SIZE; lia|].
          apply Z.div_lt_upper_bound; unfold BLOCK_SIZE in *; lia. }
        assert (Hxm : x < Z.min fb (Z.of_nat (length direct)))
          by (unfold BLOCK_SIZE in *; lia).
        destruct (Z.eqb_spec (file_block st0 id (j / BLOCK_SIZE))
                             (file_block st0 id x)) as [Heq|_].
        + exfalso. revert Heq. unfold file_block. fold direct.
          apply (idx2blk_inj st0 ndata); try assumption.
          * apply Hin. lia.
          * apply Hin. lia.
          * apply Hdis; lia.
        + cbn [andb]. apply Hst. lia.
      - assert (Hq : j / BLOCK_SIZE = x).
        { symmetry. apply Z.div_unique with (j - BLOCK_SIZE * x);
            unfold BLOCK_SIZE in *; lia. }
        rewrite Hq, Z.eqb_refl.
        destruct (Z.leb_spec 0 (j mod BLOCK_SIZE)); [|lia].
        destruct (Z.ltb_spec (j mod BLOCK_SIZE) (0 + len));
          [|unfold BLOCK_SIZE in *; lia].
        cbn [andb]. f_equal. unfold BLOCK_SIZE in *. lia. }
    destruct (Z.eq_dec (x + 1) fb) as [Hlast|Hmore].
    + assert (f = 0%nat) by lia. subst f. exists d1.
      cbn [db_write_loop]. destruct Hlen as (_ & _ & Hl & _).
      rewrite (Hl Hlast) in *. split; [reflexivity|exact Hst1].
    + destruct Hlen as (_ & Hl1 & _ & Hl2). rewrite (Hl2 Hmore) in *.
      replace (BLOCK_SIZE * x + BLOCK_SIZE) with (BLOCK_SIZE * (x + 1))
        in * by lia.
      apply IH; try lia. exact Hst1.
Qed.

(** One round of the loop of [db_read] on a read from position 0. *)
Lemma db_read_loop_step (f : nat) (id : Z) (buffer : list Z) (n x : Z)
    (st : fs_state) :
  let fb := n / BLOCK_SIZE + 1 in
  let len := if x + 1 =? fb then n - BLOCK_SIZE * x else BLOCK_SIZE in
  0 <= x < fb -> BLOCK_SIZE * x < n ->
  i_size (d_inode (inode_at st id)) = n ->
  db_read_loop (S f) id 0 n 0 fb x (BLOCK_SIZE * x) buffer st
  = db_read_loop f id 0 n 0 fb (x + 1) (BLOCK_SIZE * x + len)
      (block_read_part (disk st) (file_block st id x) 0 len buffer
                       (BLOCK_SIZE * x)) st.
Proof.
  intros fb len Hx Hlt Hsize. cbn [db_read_loop]. rewrite Hsize.
  destruct (Z.ltb_spec x fb); [|lia].
  destruct (Z.ltb_spec (BLOCK_SIZE * x + 0) n); [|lia]. cbn [andb].
  fold (file_block st id x). unfold len.
  change (Z.rem 0 BLOCK_SIZE) with 0.
  destruct (Z.eqb_spec x 0) as [->|Hx0].
  - change (BLOCK_SIZE * 0) with 0.
    destruct (0 + 1 =? fb); repeat f_equal; lia.
  - destruct (x + 1 =? fb); repeat f_equal; lia.
Qed.

Lemma db_read_loop_loads (id : Z) (n : Z) (st : fs_state) (fuel : nat) :
  let fb := n / BLOCK_SIZE + 1 in
  i_size (d_inode (inode_at st id)) = n ->
  forall (x : Z) (buffer : list Z),
  0 <= x -> x + Z.of_nat fuel = fb -> BLOCK_SIZE * x <= n ->
  n <= Z.of_nat (length buffer) ->
  exists buffer',
    db_read_loop fuel id 0 n 0 fb x (BLOCK_SIZE * x) buffer st
    = (n, buffer')
    /\ length buffer' = length buffer
    /\ forall j,
         load buffer' j
         = if (BLOCK_SIZE * x <=? j) && (j <? n)
           then disk st (file_block st id (j / BLOCK_SIZE))
                     (j mod BLOCK_SIZE)
           else load buffer j.
Proof.
  intros fb Hsize.
  assert (Hfb : BLOCK_SIZE * (fb - 1) <= n < BLOCK_SIZE * fb).
  { unfold fb, BLOCK_SIZE.
    pose proof (Z.div_mod n 512 ltac:(lia)).
    pose proof (Z.mod_pos_bound n 512 ltac:(lia)). lia. }
  induction fuel as [|f IH]; intros x buffer Hx Hf Hle Hbuf.
  - unfold BLOCK_SIZE in *. lia.
  - destruct (Z.eq_dec (BLOCK_SIZE * x) n) as [Heq|Hne].
    { exists buffer. split; [|split; [reflexivity|]].
      - cbn [db_read_loop]. rewrite Hsize.
        destruct (Z.ltb_spec (BLOCK_SIZE * x + 0) n); [lia|].
        rewrite andb_false_r. rewrite Heq. reflexivity.
      - intros j.
        destruct ((BLOCK_SIZE * x <=? j) && (j <? n)) eqn:E;
          [bools; lia|reflexivity]. }
    rewrite db_read_loop_step; [|lia|lia|exact Hsize].
    fold fb.
    set (len := if x + 1 =? fb then n - BLOCK_SIZE * x else BLOCK_SIZE).
    assert (Hlen : 0 < len <= BLOCK_SIZE
                   /\ BLOCK_SIZE * x + len <= n
                   /\ (x + 1 = fb -> BLOCK_SIZE * x + len = n)
                   /\ (x + 1 <> fb -> len = BLOCK_SIZE)).
    { unfold len. destruct (Z.eqb_spec (x + 1) fb); unfold BLOCK_SIZE in *; lia. }
    unfold block_read_part.
    destruct (read_cells_spec (disk st) (file_block st id x) (Z.to_nat len)
                0 buffer (BLOCK_SIZE * x)) as (Hl1 & Hc1);
      [unfold BLOCK_SIZE in *; lia|unfold BLOCK_SIZE in *; lia|].
    set (b1 := read_cells _ _ _ _ _ _) in *.
    assert (Hb1 : forall j,
              load b1 j
              = if (BLOCK_SIZE * x <=? j) && (j <? BLOCK_SIZE * x + len)
                then disk st (file_block st id (j / BLOCK_SIZE))
                          (j mod BLOCK_SIZE)
                else load buffer j).
    { intros j. rewrite Hc1. rewrite Z2Nat.id by lia.
      destruct ((BLOCK_SIZE * x <=? j) && (j <? BLOCK_SIZE * x + len)) eqn:E;
        [|reflexivity].
      bools.
      assert (Hq : j / BLOCK_SIZE = x).
      { symmetry. apply Z.div_unique with (j - BLOCK_SIZE * x);
          unfold BLOCK_SIZE in *; lia. }
      assert (Hjd : j = BLOCK_SIZE * (j / BLOCK_SIZE) + j mod BLOCK_SIZE)
        by (apply Z.div_mod; unfold BLOCK_SIZE; lia).
      rewrite Hq in *. f_equal. lia. }
    destruct (Z.eq_dec (x + 1) fb) as [Hlast|Hmore].
    + assert (f = 0%nat) by lia. subst f. exists b1.
      cbn [db_read_loop]. destruct Hlen as (_ & _ & Hl & _).
      rewrite (Hl Hlast) in *. split; [reflexivity|]. split; [exact Hl1|].
      exact Hb1.
    + destruct Hlen as (_ & Hl1' & _ & Hl2). rewrite (Hl2 Hmore) in *.
      replace (BLOCK_SIZE * x + BLOCK_SIZE) with (BLOCK_SIZE * (x + 1))
        in * by lia.
      destruct (IH (x + 1) b1) as (b2 & Hr & Hl2' & Hc2); try lia.
      exists b2. split; [exact Hr|]. split; [lia|].
      intros j. rewrite Hc2, Hb1.
      destruct ((BLOCK_SIZE * (x + 1) <=? j) && (j <? n)) eqn:E1;
        destruct ((BLOCK_SIZE * x <=? j) && (j <? BLOCK_SIZE * (x + 1))) eqn:E2;
        destruct ((BLOCK_SIZE * x <=? j) && (j <? n)) eqn:E3;
        bools; try reflexivity; unfold BLOCK_SIZE in *; lia.
Qed.

(** *** System calls *)

Lemma set_disk_same (st : fs_state) : set_disk st (disk st) = st.
Proof. destruct st. reflexivity. Qed.

Lemma inode_at_set_inode (st : fs_state) (id : Z) (i : mem_inode) :
  0 <= id < Z.of_nat (length (inodes st)) ->
  inode_at (set_inode st id i) id = i.
Proof. intros H. unfold inode_at. cbn. apply aget_aset_eq. exact H. Qed.

Lemma resize_inode_codes (id new_size : Z) (st : fs_state) :
  fst (resize_inode id new_size st) = FSE_OK
  \/ fst (resize_inode id new_size st) < 0.
Proof.
  unfold resize_inode.
  destruct (new_size >? max_filesize (super st)).
  { right. apply FSE_INODETABLEFULL_neg. }
  destruct (resize_loop _ _ _ _ _ _) as [[[] ?] ?]; cbn [fst].
  - left. reflexivity.
  - right. apply FSE_FULL_neg.
Qed.

(** A seek to a position inside the file moves the position. *)
Lemma fs_lseek_inside (st : fs_state) (fd offset whence p : Z) :
  let i := inode_at st (idx (fd_at st fd)) in
  mode (fd_at st fd) <> MODE_UNUSED ->
  (whence = SEEK_SET /\ p = offset)
  \/ (whence = SEEK_CUR /\ p = offset + pos i)
  \/ (whence = SEEK_END /\ p = offset + i_size (d_inode i)) ->
  p <= i_size (d_inode i) ->
  fs_lseek fd offset whence st
  = (FSE_OK, set_inode st (idx (fd_at st fd)) (with_pos i p)).
Proof.
  intros i Hm Hw Hp. unfold fs_lseek. fold i.
  destruct (Z.eqb_spec (mode (fd_at st fd)) MODE_UNUSED); [contradiction|].
  cbv zeta.
  destruct Hw as [[-> ->]|[[-> ->]|[-> ->]]].
  - change (SEEK_SET =? SEEK_SET) with true. cbv iota.
    destruct (Z.gtb_spec offset (i_size (d_inode i))); [lia|reflexivity].
  - change (SEEK_CUR =? SEEK_SET) with false.
    change (SEEK_CUR =? SEEK_CUR) with true. cbv iota.
    destruct (Z.gtb_spec (offset + pos i) (i_size (d_inode i)));
      [lia|reflexivity].
  - change (SEEK_END =? SEEK_SET) with false.
    change (SEEK_END =? SEEK_CUR) with false.
    change (SEEK_END =? SEEK_END) with true. cbv iota.
    destruct (Z.gtb_spec (offset + i_size (d_inode i)) (i_size (d_inode i)));
      [lia|reflexivity].
Qed.

Lemma rdwr_mode (m : Z) :
  Z.land m MODE_RDWR = MODE_RDWR ->
  m <> MODE_UNUSED
  /\ (Z.land m (Z.lor MODE_WRONLY MODE_RDWR) =? 0) = false
  /\ (Z.land m (Z.lor MODE_RDONLY MODE_RDWR) =? 0) = false.
Proof.
  intros H. change (Z.lor MODE_WRONLY MODE_RDWR) with MODE_RDWR.
  change (Z.lor MODE_RDONLY MODE_RDWR) with MODE_RDWR. rewrite H.
  split; [|split; reflexivity]. intros ->. discriminate.
Qed.

(** A successful write of [n] bytes from position 0. *)
Lemma fs_write_from_start (st : fs_state) (fd id n : Z) (buf : list Z) :
  let direct := i_direct (d_inode (inode_at st id)) in
  let bitmap :=
    sector_prefix (disk st) (SUPER_BLOCK_START st + 2)
                  (Z.to_nat BITMAP_ENTRIES) in
  idx (fd_at st fd) = id ->
  Z.land (mode (fd_at st fd)) MODE_RDWR = MODE_RDWR ->
  0 <= id < Z.of_nat (length (inodes st)) ->
  pos (inode_at st id) = 0 ->
  0 <= n <= max_filesize (super st) ->
  max_filesize (super st) <= BLOCK_SIZE * INODE_NDIRECT ->
  ndata_blks (super st) <= FS_BLOCKS - INODE_BLOCKS - BITMAP_BLOCKS ->
  Z.of_nat (length direct) = INODE_NDIRECT ->
  Forall is_byte bitmap ->
  marked direct bitmap (Z.min (n / BLOCK_SIZE + 1) INODE_NDIRECT)
         (ndata_blks (super st)) ->
  fst (fs_write fd buf n st) = n ->
  exists st1,
    fs_write fd buf n st = (n, st1)
    /\ filedes st1 = filedes st
    /\ length (inodes st1) = length (inodes st)
    /\ i_size (d_inode (inode_at st1 id)) = n
    /\ stored (disk st1) st1 id buf n.
Proof.
  intros direct bitmap Hidx Hmode Hid Hpos Hn Hmax Hnd Hdlen Hbytes Hmarked Hok.
  destruct (rdwr_mode _ Hmode) as (Hm0 & Hmw & _).
  unfold fs_write in *. rewrite Hmw, Hidx, Hpos in *.
  unfold db_write in *. rewrite Z.add_0_r in *.
  change (Z.quot 0 BLOCK_SIZE) with 0 in *.
  rewrite Z.quot_div_nonneg in * by (unfold BLOCK_SIZE; lia).
  destruct (Z.gtb_spec n (max_filesize (super st))); [lia|].
  pose proof (resize_inode_codes id n st) as Hcodes.
  destruct (resize_inode id n st) as [r st1] eqn:Hres. cbn [fst] in Hcodes.
  destruct Hcodes as [->|Hneg].
  2:{ exfalso. destruct (Z.eqb_spec r FSE_OK) as [->|_];
        [unfold FSE_OK in Hneg; lia|].
      cbn [negb] in Hok. destruct (Z.ltb_spec r 0); [|lia].
      cbn [fst] in Hok. lia. }
  cbn [Z.eqb FSE_OK negb] in *.
  destruct (resize_inode_ok id n st st1 Hres Hid)
    as (direct' & bmap' & Hloop & Hinodes & Hsuper & Hstart & Hfds).
  fold direct bitmap in Hloop.
  replace (Z.quot n BLOCK_SIZE) with (n / BLOCK_SIZE) in Hloop
    by (symmetry; apply Z.quot_div_nonneg; unfold BLOCK_SIZE; lia).
  apply resize_loop_allocates in Hloop; try lia.
  2:{ unfold bitmap, sector_prefix. rewrite length_map, length_seq.
      unfold BITMAP_ENTRIES. lia. }
  2:{ exact Hbytes. }
  2:{ rewrite Hdlen. exact Hmarked. }
  destruct Hloop as (Hdlen' & Halloc).
  assert (Hi1 : inode_at st1 id
                = with_size (with_direct (inode_at st id) direct') n).
  { unfold inode_at. rewrite Hinodes. apply aget_aset_eq. exact Hid. }
  assert (Hsize1 : i_size (d_inode (inode_at st1 id)) = n)
    by (rewrite Hi1; reflexivity).
  assert (Hdir1 : i_direct (d_inode (inode_at st1 id)) = direct')
    by (rewrite Hi1; reflexivity).
  assert (Hlen1 : length (inodes st1) = length (inodes st))
    by (rewrite Hinodes; apply length_aset).
  rewrite Z.sub_0_r in *.
  destruct (db_write_loop_stores id buf n (ndata_blks (super st)) st1
              (Z.to_nat (n / BLOCK_SIZE + 1)) Hsize1) with (x := 0) (d := disk st1)
    as (d' & Hw & Hst); try lia.
  { rewrite Hdir1, Hdlen', Hdlen. lia. }
  { rewrite Hdir1, Hdlen', Hdlen. rewrite Hdlen in Halloc. exact Halloc. }
  { pose proof (Z.div_pos n BLOCK_SIZE ltac:(lia) ltac:(unfold BLOCK_SIZE; lia)). lia. }
  { intros j Hj. unfold BLOCK_SIZE in Hj. lia. }
  rewrite set_disk_same in Hw. change (BLOCK_SIZE * 0) with 0 in Hw.
  rewrite Hw in *.
  destruct (Z.ltb_spec n 0); [lia|].
  set (st2 := set_disk st1 d') in *.
  assert (Hfd2 : fd_at st2 fd = fd_at st fd)
    by (unfold fd_at, st2; cbn [filedes set_disk]; rewrite Hfds; reflexivity).
  assert (Hi2 : inode_at st2 id = inode_at st1 id) by reflexivity.
  assert (Hseek : fs_lseek fd n SEEK_CUR st2
                  = (FSE_OK, set_inode st2 id (with_pos (inode_at st2 id) n))).
  { pose proof (fs_lseek_inside st2 fd n SEEK_CUR n) as Hs. cbv zeta in Hs.
    rewrite Hfd2, Hidx in Hs. apply Hs.
    - exact Hm0.
    - right. left. split; [reflexivity|]. rewrite Hi2, Hi1. cbn. lia.
    - rewrite Hi2. lia. }
  rewrite Hseek in *. cbn [Z.eqb FSE_OK negb fst] in *.
  eexists. split; [reflexivity|].
  assert (Hinew : forall i, inode_at (set_inode st2 id i) id = i)
    by (intros i; apply inode_at_set_inode; unfold st2; cbn; lia).
  split; [exact Hfds|].
  split; [cbn [inodes set_inode]; rewrite length_aset; exact Hlen1|].
  rewrite Hinew. split; [rewrite Hi2; exact Hsize1|].
  intros j Hj. unfold file_block. rewrite Hinew.
  exact (Hst j Hj).
Qed.

(** A read of [n] bytes from position 0 of a file of [n] bytes. *)
Lemma fs_read_from_start (st : fs_state) (fd id n : Z) (buf buf2 : list Z) :
  idx (fd_at st fd) = id ->
  Z.land (mode (fd_at st fd)) MODE_RDWR = MODE_RDWR ->
  pos (inode_at st id) = 0 ->
  0 <= n -> n <= Z.of_nat (length buf2) ->
  i_size (d_inode (inode_at st id)) = n ->
  stored (disk st) st id buf n ->
  exists buf2' st',
    fs_read fd buf2 n st = (n, buf2', st')
    /\ length buf2' = length buf2
    /\ forall j, 0 <= j < n -> load buf2' j = load buf j.
Proof.
  intros Hidx Hmode Hpos Hn Hbuf2 Hsize Hst.
  destruct (rdwr_mode _ Hmode) as (Hm0 & _ & Hmr).
  unfold fs_read. rewrite Hmr, Hidx, Hpos.
  unfold db_read. rewrite Hsize, Z.add_0_r.
  destruct (Z.gtb_spec n n); [lia|].
  destruct (Z.ltb_spec n 0); [lia|].
  change (Z.quot 0 BLOCK_SIZE) with 0.
  rewrite Z.quot_div_nonneg by (unfold BLOCK_SIZE; lia).
  rewrite Z.sub_0_r.
  destruct (db_read_loop_loads id n st (Z.to_nat (n / BLOCK_SIZE + 1)) Hsize
              0 buf2) as (buf2' & Hr & Hlen & Hload); try lia.
  { pose proof (Z.div_pos n BLOCK_SIZE ltac:(lia) ltac:(unfold BLOCK_SIZE; lia)). lia. }
  change (BLOCK_SIZE * 0) with 0 in Hr. rewrite Hr.
  destruct (Z.ltb_spec n 0); [lia|].
  pose proof (fs_lseek_inside st fd n SEEK_CUR n) as Hs. cbv zeta in Hs.
  rewrite Hidx in Hs. rewrite Hs.
  - cbn [Z.eqb FSE_OK negb]. eexists _, _. split; [reflexivity|].
    split; [exact Hlen|]. intros j Hj. rewrite Hload.
    change (BLOCK_SIZE * 0) with 0.
    destruct (Z.leb_spec 0 j); [|lia]. destruct (Z.ltb_spec j n); [|lia].
    cbn [andb]. apply Hst. exact Hj.
  - exact Hm0.
  - right. left. split; [reflexivity|]. lia.
  - lia.
Qed.

(** C1, amended: on a descriptor open for reading and writing whose file
    position is 0, a write of the [n <= max_filesize] bytes of [buf] that
    succeeds, a seek to 0 and a read of [n] bytes store the bytes of
    [buf] in [buf2].  The slots of the inode that are in use hold
    distinct data blocks which the data bitmap on the device marks. *)
Theorem write_seek_read_roundtrip (st : fs_state) (fd id n : Z)
    (buf buf2 : list Z) :
  let direct := i_direct (d_inode (inode_at st id)) in
  let bitmap :=
    sector_prefix (disk st) (SUPER_BLOCK_START st + 2)
                  (Z.to_nat BITMAP_ENTRIES) in
  idx (fd_at st fd) = id ->
  Z.land (mode (fd_at st fd)) MODE_RDWR = MODE_RDWR ->
  0 <= id < Z.of_nat (length (inodes st)) ->
  pos (inode_at st id) = 0 ->
  Z.of_nat (length buf) = n -> n <= Z.of_nat (length buf2) ->
  n <= max_filesize (super st) ->
  max_filesize (super st) <= BLOCK_SIZE * INODE_NDIRECT ->
  ndata_blks (super st) <= FS_BLOCKS - INODE_BLOCKS - BITMAP_BLOCKS ->
  Z.of_nat (length direct) = INODE_NDIRECT ->
  Forall is_byte bitmap ->
  marked direct bitmap (Z.min (n / BLOCK_SIZE + 1) INODE_NDIRECT)
         (ndata_blks (super st)) ->
  fst (fs_write fd buf n st) = n ->
  let st1 := snd (fs_write fd buf n st) in
  let r2 := fs_lseek fd 0 SEEK_SET st1 in
  let r3 := fs_read fd buf2 n (snd r2) in
  fst r2 = FSE_OK
  /\ fst (fst r3) = n
  /\ firstn (Z.to_nat n) (snd (fst r3)) = buf.
Proof.
  intros direct bitmap Hidx Hmode Hid Hpos Hbuf Hbuf2 Hn Hmax Hnd Hdlen
         Hbytes Hmarked Hok.
  destruct (fs_write_from_start st fd id n buf Hidx Hmode Hid Hpos
              ltac:(lia) Hmax Hnd Hdlen Hbytes Hmarked Hok)
    as (st1 & Hw & Hfds & Hlen & Hsize & Hst).
  rewrite Hw. cbn [snd]. clear Hok.
  assert (Hfd1 : fd_at st1 fd = fd_at st fd)
    by (unfold fd_at; rewrite Hfds; reflexivity).
  destruct (rdwr_mode _ Hmode) as (Hm0 & _ & _).
  pose proof (fs_lseek_inside st1 fd 0 SEEK_SET 0) as Hs. cbv zeta in Hs.
  rewrite Hfd1, Hidx in Hs. rewrite Hs; [|exact Hm0|left; auto|lia].
  cbn [fst snd]. split; [reflexivity|].
  set (st2 := set_inode st1 id (with_pos (inode_at st1 id) 0)).
  assert (Hi2 : inode_at st2 id = with_pos (inode_at st1 id) 0)
    by (apply inode_at_set_inode; lia).
  assert (Hfd2 : fd_at st2 fd = fd_at st fd) by exact Hfd1.
  destruct (fs_read_from_start st2 fd id n buf buf2)
    as (buf2' & st3 & Hr & Hlen2 & Hload); try lia.
  - rewrite Hfd2. exact Hidx.
  - rewrite Hfd2. exact Hmode.
  - rewrite Hi2. reflexivity.
  - rewrite Hi2. exact Hsize.
  - intros j Hj. unfold file_block. rewrite Hi2. exact (Hst j Hj).
  - rewrite Hr. cbn [fst snd]. split; [reflexivity|].
    apply list_eq_load.
    + rewrite length_take. lia.
    + intros i Hi. rewrite length_take in Hi.
      rewrite load_firstn by lia. apply Hload. lia.
Qed.

(** C10: on a slot of the open-file table whose mode is [MODE_UNUSED],
    [fs_close] returns [FSE_OK] and changes nothing: the open-file table
    and the inodes, with their [open_count] and [pos], are as before. *)
Theorem fs_close_unused_slot (st : fs_state) (fd : Z) :
  0 <= fd < Z.of_nat (length (filedes st)) ->
  mode (fd_at st fd) = MODE_UNUSED ->
  fs_close fd st = (FSE_OK, st).
Proof. intros _ H. unfold fs_close. rewrite H. reflexivity. Qed.

End WithParams.

(** *** Inodes *)

Lemma clear_direct_spec (n : nat) : forall (x : Z) (d : list Z),
  0 <= x ->
  length (clear_direct n x d) = length d
  /\ forall j,
       load (clear_direct n x d) j
       = if (x <=? j) && (j <? x + Z.of_nat n) && (j <? Z.of_nat (length d))
         then -1 else load d j.
Proof.
  induction n as [|n IH]; intros x d Hx; cbn [clear_direct].
  - split; [reflexivity|]. intros j.
    destruct ((x <=? j) && (j <? x + Z.of_nat 0)) eqn:E; [bools; lia|].
    reflexivity.
  - destruct (IH (x + 1) (store d x (-1))) as (Hl & Hj); [lia|].
    rewrite length_store in Hl, Hj. split; [exact Hl|].
    intros j. rewrite Hj.
    destruct (Z.eq_dec j x) as [->|Hne].
    + destruct (Z.leb_spec (x + 1) x); [lia|]. cbn [andb].
      destruct (Z.leb_spec x x); [|lia].
      destruct (Z.ltb_spec x (x + Z.of_nat (S n))); [|lia]. cbn [andb].
      destruct (Z.ltb_spec x (Z.of_nat (length d))).
      * apply load_store_eq. lia.
      * unfold load, store. destruct (x <? 0); [reflexivity|].
        rewrite list_insert_ge by lia. reflexivity.
    + rewrite load_store_ne by congruence.
      destruct (Z.leb_spec (x + 1) j); destruct (Z.leb_spec x j); try lia;
        destruct (Z.ltb_spec j (x + 1 + Z.of_nat n));
        destruct (Z.ltb_spec j (x + Z.of_nat (S n))); try lia; reflexivity.
Qed.

Lemma free_direct_spec (n : nat) : forall (x : Z) (direct bmap : list Z),
  Forall is_byte bmap -> (32 <= length bmap)%nat ->
  (forall y, x <= y < x + Z.of_nat n -> -1 <= load direct y) ->
  let b' := free_direct n x direct bmap in
  Forall is_byte b' /\ length b' = length bmap
  /\ (forall y, x <= y < x + Z.of_nat n ->
        0 <= load direct y < BITMAP_ENTRIES ->
        check_bit (load direct y) b' = 0)
  /\ (forall j, 0 <= j ->
        (forall y, x <= y < x + Z.of_nat n -> load direct y <> j) ->
        check_bit j b' = check_bit j bmap)
  /\ (forall j, 0 <= j -> check_bit j bmap = 0 -> check_bit j b' = 0).
Proof.
  induction n as [|n IH]; intros x direct bmap Hb Hlen Hd; cbn [free_direct].
  - split; [exact Hb|]. split; [reflexivity|]. split; [intros; lia|]. auto.
  - set (b1 := if negb (load direct x =? -1)
               then snd (free_bitmap_entry (load direct x) bmap) else bmap).
    assert (H1 : Forall is_byte b1 /\ length b1 = length bmap
                 /\ forall j, 0 <= j ->
                      check_bit j b1
                      = if (j =? load direct x)
                           && (load direct x <? BITMAP_ENTRIES)
                        then 0 else check_bit j bmap).
    { unfold b1. destruct (Z.eqb_spec (load direct x) (-1)) as [E|E];
        cbn [negb].
      - split; [exact Hb|]. split; [reflexivity|]. intros j Hj.
        destruct (Z.eqb_spec j (load direct x)); [lia|reflexivity].
      - apply free_bitmap_entry_check; try assumption.
        specialize (Hd x ltac:(lia)). lia. }
    destruct H1 as (Hb1 & Hl1 & Hc1).
    destruct (IH (x + 1) direct b1 Hb1 ltac:(lia)) as (Hb' & Hl' & Ha & Hf & Hm).
    { intros y Hy. apply Hd. lia. }
    split; [exact Hb'|]. split; [lia|]. split; [|split].
    + intros y Hy Hr. destruct (Z.eq_dec y x) as [->|Hne].
      * apply Hm; [lia|]. rewrite Hc1 by lia. rewrite Z.eqb_refl.
        destruct (Z.ltb_spec (load direct x) BITMAP_ENTRIES); [reflexivity|lia].
      * apply Ha; [lia|exact Hr].
    + intros j Hj Hno. rewrite Hf; [|exact Hj|intros y Hy; apply Hno; lia].
      rewrite Hc1 by exact Hj.
      destruct (Z.eqb_spec j (load direct x)) as [E|E]; [|reflexivity].
      exfalso. apply (Hno x); [lia|congruence].
    + intros j Hj H0. apply Hm; [exact Hj|]. rewrite Hc1 by exact Hj.
      destruct ((j =? load direct x) && _); [reflexivity|exact H0].
Qed.

Lemma load_sector_prefix (d : disk_t) (blk : Z) (n : nat) (i : Z) :
  0 <= i < Z.of_nat n -> load (sector_prefix d blk n) i = d blk i.
Proof.
  intros Hi. unfold sector_prefix.
  replace i with (Z.of_nat (Z.to_nat i)) at 1 by lia.
  rewrite load_lookup, list_lookup_fmap, lookup_seq_lt by lia.
  cbn. f_equal. lia.
Qed.

Lemma sector_prefix_block_modify (d : disk_t) (blk : Z) (buf : list Z)
    (n : nat) :
  length buf = n ->
  sector_prefix (block_modify d blk 0 buf 0 (Z.of_nat n)) blk n = buf.
Proof.
  intros Hlen. apply list_eq_load.
  - unfold sector_prefix. rewrite length_map, length_seq. lia.
  - intros i Hi. unfold sector_prefix in Hi.
    rewrite length_map, length_seq in Hi.
    rewrite load_sector_prefix by lia.
    unfold block_modify. rewrite Z.eqb_refl.
    destruct (Z.leb_spec 0 i); [|lia].
    destruct (Z.ltb_spec i (0 + Z.of_nat n)); [|lia].
    cbn [andb]. f_equal. lia.
Qed.

Lemma sector_prefix_other (d : disk_t) (blk blk' off : Z) (buf : list Z)
    (from len : Z) (n : nat) :
  blk' <> blk ->
  sector_prefix (block_modify d blk off buf from len) blk' n
  = sector_prefix d blk' n.
Proof.
  intros Hne. unfold sector_prefix. apply map_ext. intros k.
  unfold block_modify. destruct (Z.eqb_spec blk' blk); [contradiction|].
  reflexivity.
Qed.

(** What [save_bitmaps] leaves on the device. *)
Lemma save_bitmaps_disk (st : fs_state) :
  length (inode_bmap st) = 256%nat -> length (dblk_bmap st) = 256%nat ->
  sector_prefix (disk (save_bitmaps st)) (SUPER_BLOCK_START st + 1) 256
  = inode_bmap st
  /\ sector_prefix (disk (save_bitmaps st)) (SUPER_BLOCK_START st + 2) 256
     = dblk_bmap st.
Proof.
  intros Hi Hd. unfold save_bitmaps. cbn [disk set_disk]. split.
  - rewrite sector_prefix_other by lia.
    apply (sector_prefix_block_modify _ _ _ 256 Hi).
  - apply (sector_prefix_block_modify _ _ _ 256 Hd).
Qed.

Section Inodes.
Context {P : fs_params} {I : inode_params}.

Lemma set_bmaps_same (st : fs_state) :
  set_bmaps st (inode_bmap st) (dblk_bmap st) = st.
Proof. destruct st. reflexivity. Qed.

(** X22: [create_inode] returns [FSE_NOMOREINODES] and changes nothing
    when all 256 bits of the inode bitmap are set.  Otherwise it returns
    the lowest free inode number, sets its bit and no other, writes the
    bitmap to the device, and makes the inode an empty file: size 0, no
    links, not open, position 0, dirty, all direct slots -1; the other
    inodes and the data bitmap are unchanged. *)
Theorem create_inode_takes_lowest_free (st : fs_state) :
  length (inode_bmap st) = 256%nat -> Forall is_byte (inode_bmap st) ->
  length (dblk_bmap st) = 256%nat ->
  Z.of_nat (length (inodes st)) = MAX_INODES ->
  let i := fst (create_inode st) in
  let st' := snd (create_inode st) in
  (i = FSE_NOMOREINODES /\ st' = st
   /\ forall j, 0 <= j < BITMAP_ENTRIES -> check_bit j (inode_bmap st) = 1)
  \/ (0 <= i < BITMAP_ENTRIES
      /\ check_bit i (inode_bmap st) = 0
      /\ (forall j, 0 <= j < i -> check_bit j (inode_bmap st) = 1)
      /\ check_bit i (inode_bmap st') = 1
      /\ (forall j, 0 <= j -> j <> i ->
            check_bit j (inode_bmap st') = check_bit j (inode_bmap st))
      /\ dblk_bmap st' = dblk_bmap st
      /\ sector_prefix (disk st') (SUPER_BLOCK_START st + 1) 256
         = inode_bmap st'
      /\ (let ino := inode_at st' i in
          i_type (d_inode ino) = INTYPE_FILE /\ i_size (d_inode ino) = 0
          /\ i_nlinks (d_inode ino) = 0
          /\ open_count ino = 0 /\ pos ino = 0 /\ dirty ino = 1
          /\ inode_num ino = i
          /\ length (i_direct (d_inode ino))
             = length (i_direct (d_inode (inode_at st i)))
          /\ forall x, 0 <= x < INODE_NDIRECT ->
               x < Z.of_nat (length (i_direct (d_inode ino))) ->
               load (i_direct (d_inode ino)) x = -1)
      /\ forall id, id <> i -> inode_at st' id = inode_at st id).
Proof.
  intros Hlen Hb Hdlen Hinodes i st'. unfold i, st', create_inode. clear i st'.
  destruct (get_free_entry (inode_bmap st)) as [e ib] eqn:Hg.
  assert (Hlen32 : (32 <= length (inode_bmap st))%nat) by lia.
  destruct (get_free_entry_spec _ _ _ Hlen32 Hb Hg)
    as [(-> & -> & Hall)|(He & H0 & H1 & Hoth & Hlow & Hl1 & Hb1 & _)].
  - left. cbn [Z.ltb orb fst snd]. rewrite set_bmaps_same. auto.
  - right. unfold BITMAP_ENTRIES, MAX_INODES in *.
    destruct (Z.ltb_spec e 0); [lia|].
    destruct (Z.geb_spec e 512); [lia|]. cbn [orb fst snd].
    set (st1 := set_bmaps st ib (dblk_bmap st)).
    destruct (save_bitmaps_disk st1) as (Hd1 & _);
      [cbn; lia|cbn; exact Hdlen|].
    split; [lia|]. split; [exact H0|]. split; [exact Hlow|].
    split; [exact H1|]. split; [exact Hoth|]. split; [reflexivity|].
    split; [exact Hd1|].
    split.
    + unfold inode_at. cbn [inodes set_inode save_bitmaps set_disk].
      rewrite aget_aset_eq by (cbn; lia).
      cbn [d_inode i_type i_size i_nlinks i_direct open_count pos dirty
           inode_num].
      destruct (clear_direct_spec (Z.to_nat INODE_NDIRECT) 0
                  (i_direct (d_inode (aget no_inode (inodes st1) e))))
        as (Hcl & Hcj); [lia|].
      repeat (split; [reflexivity|]).
      split; [exact Hcl|].
      intros x Hx Hxl. rewrite Hcl in Hxl. rewrite Hcj.
      destruct (Z.leb_spec 0 x); [|lia].
      destruct (Z.ltb_spec x (0 + Z.of_nat (Z.to_nat INODE_NDIRECT))); [|lia].
      destruct (Z.ltb_spec x (Z.of_nat (length
                  (i_direct (d_inode (aget no_inode (inodes st1) e))))));
        [reflexivity|lia].
    + intros id Hid. unfold inode_at.
      cbn [inodes set_inode save_bitmaps set_disk].
      apply aget_aset_ne. congruence.
Qed.

(** X23: [free_inode id] clears the bit of [id] in the inode bitmap and
    the bit of every data block that a direct slot of the inode names
    (numbers below 256; a slot with -1 names none), leaves all other
    bits as they are, writes both bitmaps to the device, and does not
    change the inode table in memory. *)
Theorem free_inode_clears_bits (id : Z) (st : fs_state) :
  let direct := i_direct (d_inode (inode_at st id)) in
  let st' := free_inode id st in
  length (inode_bmap st) = 256%nat -> Forall is_byte (inode_bmap st) ->
  length (dblk_bmap st) = 256%nat -> Forall is_byte (dblk_bmap st) ->
  0 <= id ->
  (forall x, 0 <= x < INODE_NDIRECT -> -1 <= load direct x) ->
  (forall j, 0 <= j ->
     check_bit j (inode_bmap st')
     = if (j =? id) && (id <? BITMAP_ENTRIES) then 0
       else check_bit j (inode_bmap st))
  /\ (forall x, 0 <= x < INODE_NDIRECT ->
        0 <= load direct x < BITMAP_ENTRIES ->
        check_bit (load direct x) (dblk_bmap st') = 0)
  /\ (forall j, 0 <= j ->
        (forall x, 0 <= x < INODE_NDIRECT -> load direct x <> j) ->
        check_bit j (dblk_bmap st') = check_bit j (dblk_bmap st))
  /\ sector_prefix (disk st') (SUPER_BLOCK_START st + 1) 256
     = inode_bmap st'
  /\ sector_prefix (disk st') (SUPER_BLOCK_START st + 2) 256
     = dblk_bmap st'
  /\ inodes st' = inodes st.
Proof.
  intros direct st' Hil Hib Hdl Hdb Hid Hdir.
  assert (Hil32 : (32 <= length (inode_bmap st))%nat) by lia.
  assert (Hdl32 : (32 <= length (dblk_bmap st))%nat) by lia.
  destruct (free_bitmap_entry_check (inode_bmap st) id Hib Hil32 Hid)
    as (Hib' & Hil' & Hic).
  destruct (free_direct_spec (Z.to_nat INODE_NDIRECT) 0 direct (dblk_bmap st)
              Hdb Hdl32)
    as (Hdb' & Hdl' & Ha & Hf & _).
  { intros y Hy. apply Hdir. lia. }
  set (st1 := set_bmaps st (snd (free_bitmap_entry id (inode_bmap st)))
                (free_direct (Z.to_nat INODE_NDIRECT) 0 direct (dblk_bmap st))).
  destruct (save_bitmaps_disk st1) as (Hd1 & Hd2);
    [cbn; lia|cbn; lia|].
  split; [exact Hic|]. split.
  { intros x Hx Hr. apply Ha; [lia|exact Hr]. }
  split.
  { intros j Hj Hno. apply Hf; [exact Hj|]. intros y Hy. apply Hno. lia. }
  split; [exact Hd1|]. split; [exact Hd2|]. reflexivity.
Qed.

End Inodes.

(** *** Sectors, and the edges of the system calls *)

Section Edges.
Context {P : fs_params}.

Lemma set_inode_same (st : fs_state) (id : Z) :
  set_inode st id (inode_at st id) = st.
Proof.
  unfold set_inode, inode_at. rewrite aset_aget_same. destruct st. reflexivity.
Qed.

Lemma with_pos_same (i : mem_inode) : with_pos i (pos i) = i.
Proof. destruct i. reflexivity. Qed.

(** X24: The table sector of an inode below 496 lies between the bitmaps
    and the data area and is the sector of no data block.  For the
    inodes 496 to 511 [ino2blk] returns the sector of data block 0, and
    for the number [MAX_INODES], which it accepts, that of data block 1. *)
Theorem inode_sectors_apart_from_data (st : fs_state) (ino : Z) :
  let s := SUPER_BLOCK_START st in
  0 <= s ->
  (0 <= ino < 496 ->
   s + BITMAP_BLOCKS < ino2blk st ino < s + BITMAP_BLOCKS + INODE_BLOCKS
   /\ forall index, idx2blk st index <> ino2blk st ino)
  /\ (496 <= ino <= 511 -> 0 <= FS_BLOCKS - INODE_BLOCKS - BITMAP_BLOCKS - 1 ->
      ino2blk st ino = idx2blk st 0)
  /\ (1 <= FS_BLOCKS - INODE_BLOCKS - BITMAP_BLOCKS - 1 ->
      ino2blk st MAX_INODES = idx2blk st 1).
Proof.
  intros s Hs. unfold ino2blk, idx2blk, BITMAP_BLOCKS, INODE_BLOCKS,
    BLOCK_SIZE, INODE_SIZE, MAX_INODES. fold s.
  change (Z.quot 512 32) with 16.
  split; [|split].
  - intros Hi.
    destruct (Z.ltb_spec ino 0); [lia|].
    destruct (Z.gtb_spec ino 512); [lia|]. cbn [orb].
    rewrite Z.quot_div_nonneg by lia.
    assert (0 <= ino / 16 < 31).
    { split; [apply Z.div_pos; lia|apply Z.div_lt_upper_bound; lia]. }
    split; [lia|]. intros index.
    destruct ((index <? 0) || (index >? FS_BLOCKS - 32 - 2 - 1)) eqn:E.
    + lia.
    + bools. lia.
  - intros Hi Hfs.
    destruct (Z.ltb_spec ino 0); [lia|].
    destruct (Z.gtb_spec ino 512); [lia|]. cbn [orb].
    destruct (Z.gtb_spec 0 (FS_BLOCKS - 32 - 2 - 1)); [lia|].
    change (0 <? 0) with false. cbn [orb].
    rewrite Z.quot_div_nonneg by lia.
    replace (ino / 16) with 31; [lia|].
    apply Z.div_unique with (ino - 496); lia.
  - intros Hfs.
    destruct (Z.gtb_spec 1 (FS_BLOCKS - 32 - 2 - 1)); [lia|].
    change (512 <? 0) with false. change (512 >? 512) with false.
    change (1 <? 0) with false. cbn [orb].
    change (Z.quot 512 16) with 32. lia.
Qed.

(** X25: [resize_inode] to more than [max_filesize] returns
    [FSE_INODETABLEFULL] and changes nothing.  It returns [FSE_OK],
    [FSE_FULL] or [FSE_INODETABLEFULL], and whenever it fails the
    device, the size of the file, the superblock and the descriptor
    table are as before. *)
Theorem resize_inode_failure_keeps_device (id new_size : Z) (st : fs_state) :
  let r := resize_inode id new_size st in
  (new_size > max_filesize (super st) -> r = (FSE_INODETABLEFULL, st))
  /\ (fst r = FSE_OK \/ fst r = FSE_FULL \/ fst r = FSE_INODETABLEFULL)
  /\ (fst r <> FSE_OK ->
      disk (snd r) = disk st
      /\ i_size (d_inode (inode_at (snd r) id))
         = i_size (d_inode (inode_at st id))
      /\ super (snd r) = super st /\ filedes (snd r) = filedes st).
Proof.
  intros r. unfold r, resize_inode. clear r.
  destruct (Z.gtb_spec new_size (max_filesize (super st))) as [Hgt|Hle].
  { split; [reflexivity|]. split; [auto|]. intros _. auto. }
  split; [lia|].
  cbn [load_bitmaps set_bmaps inodes dblk_bmap inode_bmap super disk
       SUPER_BLOCK_START].
  change (inode_at (set_bmaps st _ _) id) with (inode_at st id).
  destruct (resize_loop _ _ _ _ _ _) as [[ok direct'] bmap'] eqn:Hloop.
  destruct ok; cbn [fst snd].
  - split; [auto|]. intros H. contradiction.
  - split; [auto|]. intros _.
    split; [reflexivity|]. split; [|split; reflexivity].
    unfold inode_at. cbn [inodes set_inode set_bmaps].
    destruct (Z.ltb_spec id 0) as [Hneg|Hpos].
    { unfold aset, aget. destruct (Z.ltb_spec id 0); [reflexivity|lia]. }
    destruct (Z.ltb_spec id (Z.of_nat (length (inodes st)))) as [Hin|Hout].
    + rewrite aget_aset_eq by (cbn; lia). reflexivity.
    + rewrite !aget_out_of_range by (rewrite ?length_aset; cbn; lia).
      reflexivity.
Qed.

(** X26: [fs_read] of [size] bytes through a descriptor that passes its
    mode check, on a file whose position is at the end of the file,
    returns 0 and changes neither the buffer nor the filesystem, when
    the [int] sum of [size] and the position does not exceed
    [INT_MAX]. *)
Theorem fs_read_at_end_of_file (st : fs_state) (fd size : Z)
    (buffer : list Z) :
  let f := fd_at st fd in
  let i := inode_at st (idx f) in
  Z.land (mode f) (Z.lor MODE_RDONLY MODE_RDWR) <> 0 ->
  pos i = i_size (d_inode i) -> 0 <= i_size (d_inode i) -> 0 <= size ->
  size + pos i <= 2147483647 ->
  fs_read fd buffer size st = (0, buffer, st).
Proof.
  intros f i Hm Hpos Hsz Hsize _. unfold fs_read. fold f.
  destruct (Z.eqb_spec (Z.land (mode f) (Z.lor MODE_RDONLY MODE_RDWR)) 0);
    [contradiction|].
  fold i. rewrite Hpos.
  assert (Hdb : db_read (idx f) buffer size (i_size (d_inode i)) st
                = (0, buffer)).
  { unfold db_read. fold i.
    set (fp := if size + i_size (d_inode i) >? i_size (d_inode i)
               then i_size (d_inode i) else size + i_size (d_inode i)).
    assert (Hfp : fp = i_size (d_inode i)).
    { unfold fp. destruct (Z.gtb_spec (size + i_size (d_inode i))
                             (i_size (d_inode i))); lia. }
    rewrite Hfp. destruct (Z.ltb_spec (i_size (d_inode i)) 0); [lia|].
    replace (Z.quot (i_size (d_inode i)) BLOCK_SIZE + 1
             - Z.quot (i_size (d_inode i)) BLOCK_SIZE) with 1 by lia.
    change (Z.to_nat 1) with 1%nat. cbn [db_read_loop].
    fold i. rewrite Z.add_0_l, Z.ltb_irrefl, andb_false_r. reflexivity. }
  rewrite Hdb. cbn [Z.ltb Z.compare].
  assert (Hmode : mode f <> MODE_UNUSED).
  { intros E. apply Hm. rewrite E. reflexivity. }
  rewrite (fs_lseek_inside st fd 0 SEEK_CUR (i_size (d_inode i)));
    [|exact Hmode|right; left; fold f i; split; [reflexivity|lia]|fold f i; lia].
  fold f i. rewrite <- Hpos, with_pos_same.
  unfold i. rewrite set_inode_same. reflexivity.
Qed.

(** X27: [fs_close] on an open descriptor returns [FSE_OK], marks the
    slot unused, sets the position of the file back to 0 and lowers its
    open count by 1, and touches neither the other descriptors nor the
    device.  Afterwards [fs_read], [fs_write] and [fs_lseek] on that
    descriptor return [FSE_INVALIDMODE], and a second [fs_close] changes
    nothing. *)
Theorem fs_close_releases_descriptor (st : fs_state) (fd n off wh : Z)
    (buf : list Z) :
  let id := idx (fd_at st fd) in
  let st1 := snd (fs_close fd st) in
  0 <= fd < Z.of_nat (length (filedes st)) ->
  mode (fd_at st fd) <> MODE_UNUSED ->
  fst (fs_close fd st) = FSE_OK
  /\ fd_at st1 fd = mk_fd MODE_UNUSED (-1)
  /\ (forall fd', fd' <> fd -> fd_at st1 fd' = fd_at st fd')
  /\ (0 <= id < Z.of_nat (length (inodes st)) ->
      pos (inode_at st1 id) = 0
      /\ open_count (inode_at st1 id) = open_count (inode_at st id) - 1
      /\ d_inode (inode_at st1 id) = d_inode (inode_at st id))
  /\ disk st1 = disk st
  /\ fs_read fd buf n st1 = (FSE_INVALIDMODE, buf, st1)
  /\ fs_write fd buf n st1 = (FSE_INVALIDMODE, st1)
  /\ fs_lseek fd off wh st1 = (FSE_INVALIDMODE, st1)
  /\ fs_close fd st1 = (FSE_OK, st1).
Proof.
  intros id st1 Hfd Hm. unfold st1, fs_close. fold id.
  destruct (Z.eqb_spec (mode (fd_at st fd)) MODE_UNUSED); [contradiction|].
  cbn [fst snd].
  set (st2 := set_fd _ fd (mk_fd MODE_UNUSED (-1))).
  assert (Hfd2 : fd_at st2 fd = mk_fd MODE_UNUSED (-1)).
  { unfold st2, fd_at. cbn [filedes set_fd set_inode].
    apply aget_aset_eq. exact Hfd. }
  split; [reflexivity|]. split; [exact Hfd2|]. split.
  { intros fd' Hne. unfold st2, fd_at. cbn [filedes set_fd set_inode].
    apply aget_aset_ne. congruence. }
  split.
  { intros Hid. unfold st2, inode_at. cbn [inodes set_fd set_inode].
    rewrite aget_aset_eq by exact Hid. auto. }
  split; [reflexivity|].
  unfold fs_read, fs_write, fs_lseek. rewrite Hfd2.
  cbn [mode]. repeat split.
Qed.

(** X28: [fs_lseek] returns [FSE_INVALIDMODE] and changes nothing on an
    unused descriptor or with an unknown [whence].  Otherwise, when the
    target ([offset], or its sum with the position or with the size) is
    in the range of [int]: a target inside the file becomes the
    position, with [FSE_OK]; a target behind the end fails and changes
    nothing, with [FSE_EOF] when the mode has the read-only bit, and
    without that bit with [FSE_FULL] when the target lies beyond
    [max_filesize]. *)
Theorem fs_lseek_outcomes (st : fs_state) (fd offset whence p : Z) :
  let f := fd_at st fd in
  let i := inode_at st (idx f) in
  (mode f = MODE_UNUSED ->
   fs_lseek fd offset whence st = (FSE_INVALIDMODE, st))
  /\ (whence <> SEEK_SET -> whence <> SEEK_CUR -> whence <> SEEK_END ->
      fs_lseek fd offset whence st = (FSE_INVALIDMODE, st))
  /\ (mode f <> MODE_UNUSED ->
      (whence = SEEK_SET /\ p = offset)
      \/ (whence = SEEK_CUR /\ p = offset + pos i)
      \/ (whence = SEEK_END /\ p = offset + i_size (d_inode i)) ->
      -2147483648 <= p <= 2147483647 ->
      (p <= i_size (d_inode i) ->
       fs_lseek fd offset whence st
       = (FSE_OK, set_inode st (idx f) (with_pos i p)))
      /\ (i_size (d_inode i) < p -> Z.land (mode f) MODE_RDONLY > 0 ->
          fs_lseek fd offset whence st = (FSE_EOF, st))
      /\ (i_size (d_inode i) < p -> Z.land (mode f) MODE_RDONLY <= 0 ->
          max_filesize (super st) < p ->
          fs_lseek fd offset whence st = (FSE_FULL, st))).
Proof.
  intros f i. split; [|split].
  - intros H. unfold fs_lseek. fold f. rewrite H. reflexivity.
  - intros H1 H2 H3. unfold fs_lseek. fold f.
    destruct (mode f =? MODE_UNUSED); [reflexivity|]. cbv zeta.
    destruct (Z.eqb_spec whence SEEK_SET); [contradiction|].
    destruct (Z.eqb_spec whence SEEK_CUR); [contradiction|].
    destruct (Z.eqb_spec whence SEEK_END); [contradiction|]. reflexivity.
  - intros Hm Hw _. split; [|split].
    + intros Hp. apply fs_lseek_inside; assumption.
    + intros Hp Hro. unfold fs_lseek. fold f i.
      destruct (Z.eqb_spec (mode f) MODE_UNUSED); [contradiction|]. cbv zeta.
      assert (E : (if p >? i_size (d_inode i)
                   then if Z.land (mode f) MODE_RDONLY >? 0
                        then (FSE_EOF, st)
                        else if p >? max_filesize (super st)
                             then (FSE_FULL, st)
                             else let '(r, st1) := resize_inode (idx f) offset st in
                                  if r =? 0 then (FSE_FULL, st1)
                                  else (FSE_OK, set_inode st1 (idx f)
                                                  (with_pos (inode_at st1 (idx f)) p))
                   else (FSE_OK, set_inode st (idx f) (with_pos i p)))
                  = (FSE_EOF, st)).
      { destruct (Z.gtb_spec p (i_size (d_inode i))); [|lia].
        destruct (Z.gtb_spec (Z.land (mode f) MODE_RDONLY) 0); [|lia].
        reflexivity. }
      destruct Hw as [[-> ->]|[[-> ->]|[-> ->]]]; exact E.
    + intros Hp Hro Hmax. unfold fs_lseek. fold f i.
      destruct (Z.eqb_spec (mode f) MODE_UNUSED); [contradiction|]. cbv zeta.
      assert (E : (if p >? i_size (d_inode i)
                   then if Z.land (mode f) MODE_RDONLY >? 0
                        then (FSE_EOF, st)
                        else if p >? max_filesize (super st)
                             then (FSE_FULL, st)
                             else let '(r, st1) := resize_inode (idx f) offset st in
                                  if r =? 0 then (FSE_FULL, st1)
                                  else (FSE_OK, set_inode st1 (idx f)
                                                  (with_pos (inode_at st1 (idx f)) p))
                   else (FSE_OK, set_inode st (idx f) (with_pos i p)))
                  = (FSE_FULL, st)).
      { destruct (Z.gtb_spec p (i_size (d_inode i))); [|lia].
        destruct (Z.gtb_spec (Z.land (mode f) MODE_RDONLY) 0); [lia|].
        destruct (Z.gtb_spec p (max_filesize (super st))); [|lia].
        reflexivity. }
      destruct Hw as [[-> ->]|[[-> ->]|[-> ->]]]; exact E.
Qed.

End Edges.

#[local] Existing Instance sample_params.

(** C10 on the unused descriptor 1 of [one_empty_file]. *)
Lemma fs_close_unused_slot_witness :
  fs_close 1 (one_empty_file MODE_RDWR) = (FSE_OK, one_empty_file MODE_RDWR).
Proof.
  apply fs_close_unused_slot.
  - simpl. lia.
  - reflexivity.
Defined.

(** C6 on the code: the masks [MODE_RDONLY | MODE_RDWR] and
    [MODE_WRONLY | MODE_RDWR] are both 3, so that a descriptor opened
    with [MODE_WRONLY] reads the file and one opened with [MODE_RDONLY]
    writes it. *)
Theorem mode_checks_accept_either_access :
  Z.lor MODE_RDONLY MODE_RDWR = 3 /\ Z.lor MODE_WRONLY MODE_RDWR = 3
  /\ (let st1 := snd (fs_write 0 [104; 105] 2 (one_empty_file MODE_WRONLY)) in
      let st2 := snd (fs_lseek 0 0 SEEK_SET st1) in
      let r := fs_read 0 [0; 0] 2 st2 in
      mode (fd_at st2 0) = MODE_WRONLY
      /\ fst (fst r) = 2 /\ snd (fst r) = [104; 105]
      /\ pos (inode_at (snd r) 1) = 2)
  /\ (let r := fs_write 0 [104; 105] 2 (one_empty_file MODE_RDONLY) in
      mode (fd_at (snd r) 0) = MODE_RDONLY
      /\ fst r = 2 /\ file_size (snd r) 1 = 2
      /\ pos (inode_at (snd r) 1) = 2)
  /\ FSE_INVALIDMODE < 0.
Proof. vm_compute. repeat split. Qed.

(** C4 on the code: a seek past the end of the file on a descriptor
    opened with [MODE_WRONLY] resizes the file and then returns
    [FSE_FULL] without moving the position; with [SEEK_CUR] the file is
    resized to the offset, not to the position; on a descriptor opened
    with [MODE_RDWR] the seek returns [FSE_EOF]. *)
Theorem fs_lseek_past_end_fails :
  (let r := fs_lseek 0 10 SEEK_SET (one_empty_file MODE_WRONLY) in
   fst r = FSE_FULL /\ pos (inode_at (snd r) 1) = 0
   /\ file_size (snd r) 1 = 10)
  /\ (let st1 := snd (fs_write 0 [104; 105] 2 (one_empty_file MODE_WRONLY)) in
      let r := fs_lseek 0 3 SEEK_CUR st1 in
      pos (inode_at st1 1) = 2 /\ file_size st1 1 = 2
      /\ fst r = FSE_FULL /\ pos (inode_at (snd r) 1) = 2
      /\ file_size (snd r) 1 = 3)
  /\ (let r := fs_lseek 0 10 SEEK_SET (one_empty_file MODE_RDWR) in
      fst r = FSE_EOF /\ pos (inode_at (snd r) 1) = 0
      /\ file_size (snd r) 1 = 0)
  /\ 10 <= max_filesize (super (one_empty_file MODE_WRONLY))
  /\ FSE_FULL < FSE_OK /\ FSE_EOF < FSE_OK.
Proof. vm_compute. repeat split; intros; discriminate. Qed.

(** C1, as stated, fails.  After "abc" has been written the descriptor is
    open for reading and writing at position 3: the bytes "xy" are then
    written behind "abc", and the read from position 0 gives "ab".  And
    when no data block is free the write returns [FSE_FULL] and the read
    gives nothing. *)
Lemma write_seek_read_misses_buffer :
  (let st := snd (fs_write 0 [97; 98; 99] 3 (one_empty_file MODE_RDWR)) in
   let r1 := fs_write 0 [120; 121] 2 st in
   let r2 := fs_lseek 0 0 SEEK_SET (snd r1) in
   let r3 := fs_read 0 [0; 0] 2 (snd r2) in
   mode (fd_at st 0) = MODE_RDWR /\ pos (inode_at st 1) = 3
   /\ 2 <= max_filesize (super st)
   /\ fst r1 = 2 /\ fst r2 = FSE_OK /\ fst (fst r3) = 2
   /\ snd (fst r3) = [97; 98] /\ snd (fst r3) <> [120; 121])
  /\ (let st := no_free_block MODE_RDWR in
      let r1 := fs_write 0 [120; 121] 2 st in
      let r2 := fs_lseek 0 0 SEEK_SET (snd r1) in
      let r3 := fs_read 0 [0; 0] 2 (snd r2) in
      mode (fd_at st 0) = MODE_RDWR /\ pos (inode_at st 1) = 0
      /\ fst r1 = FSE_FULL /\ fst (fst r3) = 0
      /\ snd (fst r3) = [0; 0] /\ snd (fst r3) <> [120; 121]).
Proof. vm_compute. repeat split; discriminate. Qed.

Lemma sector_prefix_bytes (d : disk_t) (blk : Z) (n : nat) :
  (forall o, is_byte (d blk o)) -> Forall is_byte (sector_prefix d blk n).
Proof.
  intros H. unfold sector_prefix. rewrite List.Forall_map.
  apply List.Forall_forall. intros k _. apply H.
Qed.

(** The amended C1 on [one_empty_file]: "hi" written, sought and read. *)
Lemma write_seek_read_roundtrip_witness :
  let st1 := snd (fs_write 0 [104; 105] 2 (one_empty_file MODE_RDWR)) in
  let r2 := fs_lseek 0 0 SEEK_SET st1 in
  let r3 := fs_read 0 [0; 0] 2 (snd r2) in
  fst r2 = FSE_OK
  /\ fst (fst r3) = 2
  /\ firstn (Z.to_nat 2) (snd (fst r3)) = [104; 105].
Proof.
  apply (write_seek_read_roundtrip (one_empty_file MODE_RDWR) 0 1 2
           [104; 105] [0; 0]).
  - reflexivity.
  - reflexivity.
  - simpl. lia.
  - reflexivity.
  - reflexivity.
  - simpl. lia.
  - simpl. lia.
  - simpl. unfold BLOCK_SIZE. lia.
  - simpl. unfold INODE_BLOCKS, BITMAP_BLOCKS. lia.
  - reflexivity.
  - apply sector_prefix_bytes. intros o. simpl.
    destruct ((2 =? 1) && (o =? 0)); unfold is_byte; lia.
  - change (Z.min (2 / BLOCK_SIZE + 1) INODE_NDIRECT) with 1. split.
    + intros y Hy Hne. exfalso. apply Hne.
      replace y with 0 by lia. reflexivity.
    + intros y z Hy Hz. lia.
  - vm_compute. reflexivity.
Defined.

#[local] Existing Instance sample_inode_params.

(** X22 on [blank_fs]. *)
Lemma create_inode_takes_lowest_free_witness :
  let i := fst (create_inode blank_fs) in
  let st' := snd (create_inode blank_fs) in
  0 <= i < BITMAP_ENTRIES
  /\ check_bit i (inode_bmap blank_fs) = 0
  /\ check_bit i (inode_bmap st') = 1
  /\ dblk_bmap st' = dblk_bmap blank_fs
  /\ i_size (d_inode (inode_at st' i)) = 0
  /\ i_direct (d_inode (inode_at st' i)) = repeat (-1) 8.
Proof.
  pose proof (create_inode_takes_lowest_free blank_fs eq_refl
                ltac:(apply Forall_repeat_byte; unfold is_byte; lia)
                eq_refl eq_refl) as H.
  cbv zeta in H. destruct H as [(H & _)|H].
  - exfalso. vm_compute in H. discriminate.
  - cbv zeta. destruct H as (H1 & H2 & _ & H3 & _ & H4 & _ & H5 & _).
    split; [exact H1|]. split; [exact H2|]. split; [exact H3|].
    split; [exact H4|]. split; [apply H5|]. vm_compute. reflexivity.
Defined.

(** X23 on [one_empty_file]. *)
Lemma free_inode_clears_bits_witness :
  let st := one_empty_file MODE_RDWR in
  let st' := free_inode 1 st in
  check_bit 1 (inode_bmap st) = 1
  /\ check_bit 1 (inode_bmap st') = 0
  /\ check_bit 0 (inode_bmap st') = 1
  /\ sector_prefix (disk st') 1 256 = inode_bmap st'
  /\ inodes st' = inodes st.
Proof.
  intros st st'.
  pose proof (free_inode_clears_bits 1 st eq_refl
                ltac:(apply (@Forall_cons _ is_byte 0xc0);
                      [unfold is_byte; lia
                      |apply Forall_repeat_byte; unfold is_byte; lia])
                eq_refl
                ltac:(apply Forall_repeat_byte; unfold is_byte; lia)
                ltac:(lia)) as H.
  cbv zeta in H. destruct H as (H1 & _ & _ & H4 & _ & H6).
  - intros x Hx. change (@INODE_NDIRECT sample_params) with 8 in Hx.
    assert (x = 0 \/ x = 1 \/ x = 2 \/ x = 3 \/ x = 4 \/ x = 5 \/ x = 6
            \/ x = 7) as C by lia.
    repeat (destruct C as [->|C]; [vm_compute; discriminate|]).
    subst. vm_compute. discriminate.
  - subst st'. split; [reflexivity|]. split; [apply (H1 1); lia|].
    split; [rewrite (H1 0) by lia; reflexivity|].
    split; [exact H4|exact H6].
Defined.

(** X24 on [one_empty_file]. *)
Lemma inode_sectors_apart_from_data_witness :
  let st := one_empty_file MODE_RDWR in
  (2 < ino2blk st 1 < 34 /\ forall index, idx2blk st index <> ino2blk st 1)
  /\ ino2blk st 500 = idx2blk st 0.
Proof.
  intros st.
  pose proof (inode_sectors_apart_from_data st) as H. cbv zeta in H.
  split.
  - destruct (H 1 ltac:(simpl; lia)) as (H1 & _).
    destruct (H1 ltac:(lia)) as (Hr & Hd).
    split; [exact Hr|exact Hd].
  - destruct (H 500 ltac:(simpl; lia)) as (_ & H2 & _).
    apply H2; [lia|vm_compute; discriminate].
Defined.

(** X25 on [no_free_block]. *)
Lemma resize_inode_failure_keeps_device_witness :
  let st := no_free_block MODE_RDWR in
  let r := resize_inode 1 2 st in
  fst r = FSE_FULL
  /\ disk (snd r) = disk st
  /\ i_size (d_inode (inode_at (snd r) 1)) = i_size (d_inode (inode_at st 1)).
Proof.
  intros st r.
  pose proof (resize_inode_failure_keeps_device 1 2 st) as H.
  cbv zeta in H. destruct H as (_ & _ & H).
  destruct H as (H1 & H2 & _); [vm_compute; discriminate|].
  split; [reflexivity|]. split; [exact H1|exact H2].
Defined.

(** X26 on [one_empty_file]. *)
Lemma fs_read_at_end_of_file_witness :
  fs_read 0 [7; 7] 2 (one_empty_file MODE_RDONLY)
  = (0, [7; 7], one_empty_file MODE_RDONLY).
Proof.
  apply (fs_read_at_end_of_file (one_empty_file MODE_RDONLY) 0 2 [7; 7]).
  - vm_compute. discriminate.
  - reflexivity.
  - vm_compute. discriminate.
  - lia.
  - vm_compute. discriminate.
Defined.

(** X27 on [one_empty_file]. *)
Lemma fs_close_releases_descriptor_witness :
  let st := one_empty_file MODE_RDWR in
  let st1 := snd (fs_close 0 st) in
  fst (fs_close 0 st) = FSE_OK
  /\ fd_at st1 0 = mk_fd MODE_UNUSED (-1)
  /\ fs_read 0 [7; 7] 2 st1 = (FSE_INVALIDMODE, [7; 7], st1)
  /\ fs_write 0 [7; 7] 2 st1 = (FSE_INVALIDMODE, st1)
  /\ fs_lseek 0 0 SEEK_SET st1 = (FSE_INVALIDMODE, st1)
  /\ fs_close 0 st1 = (FSE_OK, st1).
Proof.
  intros st st1.
  pose proof (fs_close_releases_descriptor st 0 2 0 SEEK_SET [7; 7]) as H.
  cbv zeta in H.
  destruct H as (H1 & H2 & _ & _ & _ & H6 & H7 & H8 & H9).
  - simpl. lia.
  - vm_compute. discriminate.
  - auto 10.
Defined.

(** X28 on [one_empty_file]. *)
Lemma fs_lseek_outcomes_witness :
  fs_lseek 0 10 SEEK_SET (one_empty_file MODE_RDONLY)
  = (FSE_EOF, one_empty_file MODE_RDONLY)
  /\ fs_lseek 0 (-5) SEEK_SET (one_empty_file MODE_RDONLY)
     = (FSE_OK, set_inode (one_empty_file MODE_RDONLY) 1
                  (with_pos (inode_at (one_empty_file MODE_RDONLY) 1) (-5))).
Proof.
  pose proof (fs_lseek_outcomes (one_empty_file MODE_RDONLY) 0 10 SEEK_SET 10)
    as H.
  pose proof (fs_lseek_outcomes (one_empty_file MODE_RDONLY) 0 (-5) SEEK_SET
                (-5)) as H'.
  cbv zeta in H, H'.
  destruct H as (_ & _ & H). destruct H' as (_ & _ & H').
  split.
  - apply H; [vm_compute; discriminate|left; split; reflexivity|lia
             |vm_compute; reflexivity|vm_compute; reflexivity].
  - apply H'; [vm_compute; discriminate|left; split; reflexivity|lia
              |vm_compute; discriminate].
Defined.

End FSFacts.

(** ** Scheduler and wait queues *)

Module SchedFacts.
Import Sched.
Local Open Scope nat_scope.

Lemma set_state_at h p s x :
  set_state h p s x
  = if decide (p = x) then mk_pcb s (next (h p)) (previous (h p)) else h x.
Proof.
  unfold set_state. destruct (decide (p = x)) as [->|Hne].
  - apply fn_lookup_insert.
  - apply fn_lookup_insert_ne. exact Hne.
Qed.

Lemma set_next_at h p n x :
  set_next h p n x
  = if decide (p = x) then mk_pcb (state (h p)) n (previous (h p)) else h x.
Proof.
  unfold set_next. destruct (decide (p = x)) as [->|Hne].
  - apply fn_lookup_insert.
  - apply fn_lookup_insert_ne. exact Hne.
Qed.

Lemma set_previous_at h p n x :
  set_previous h p n x
  = if decide (p = x) then mk_pcb (state (h p)) (next (h p)) n else h x.
Proof.
  unfold set_previous. destruct (decide (p = x)) as [->|Hne].
  - apply fn_lookup_insert.
  - apply fn_lookup_insert_ne. exact Hne.
Qed.

(** Reads of the table after a chain of field updates. *)
Ltac heap :=
  repeat (rewrite ?set_state_at, ?set_next_at, ?set_previous_at;
          try case_decide; cbn [state next previous] in *);
  try congruence; try reflexivity.

Lemma wait_queue_frame h h' l : forall q,
  (forall p, In p l -> next (h' p) = next (h p)) ->
  wait_queue h q l -> wait_queue h' q l.
Proof.
  induction l as [|x l IH]; intros q Hf Hq; simpl in *; [exact Hq|].
  destruct Hq as (-> & Hx & Hq). split; [reflexivity|]. split; [exact Hx|].
  rewrite Hf by (left; reflexivity). apply IH; [|exact Hq].
  intros p Hp. apply Hf. right. exact Hp.
Qed.

Lemma ring_path_frame h h' l : forall p,
  (forall x, In x (removelast (p :: l)) -> next (h' x) = next (h x)) ->
  ring_path h p l -> ring_path h' p l.
Proof.
  induction l as [|x l IH]; intros p Hf Hp; simpl in *; [exact I|].
  destruct Hp as (Hx & Hp). split.
  - rewrite Hf; [exact Hx|]. left. reflexivity.
  - apply IH; [|exact Hp]. intros y Hy. apply Hf. right. exact Hy.
Qed.

Lemma unblock_heap (k : kernel) (q : ptr) :
  let cr := current_running k in
  let h := pcbs k in
  let pv := previous (h cr) in
  q <> cr -> q <> pv ->
  fst (unblock q k) = next (h q)
  /\ current_running (snd (unblock q k)) = cr
  /\ pcbs (snd (unblock q k)) q = mk_pcb STATUS_READY cr pv
  /\ next (pcbs (snd (unblock q k)) pv) = q
  /\ previous (pcbs (snd (unblock q k)) cr) = q
  /\ next (pcbs (snd (unblock q k)) cr) = (if decide (pv = cr) then q else next (h cr))
  /\ state (pcbs (snd (unblock q k)) cr) = state (h cr)
  /\ (forall p, p <> q -> p <> pv -> next (pcbs (snd (unblock q k)) p) = next (h p))
  /\ (forall p, p <> q -> p <> cr -> p <> pv -> pcbs (snd (unblock q k)) p = h p).
Proof.
  intros cr h pv Hcr Hpv. unfold pv, h, cr in *. clear cr h pv.
  unfold unblock. simpl.
  split; [reflexivity|]. split; [reflexivity|].
  split; [heap|]. split; [heap|]. split; [heap|]. split; [heap|].
  split; [heap|]. split.
  - intros p H1 H2. heap.
  - intros p H1 H2 H3. heap.
Qed.

Lemma last_cons_default {A} (l : list A) (x d d' : A) :
  List.last (x :: l) d = List.last (x :: l) d'.
Proof.
  revert x. induction l as [|y l IH]; intros x; [reflexivity|].
  change (List.last (y :: l) d = List.last (y :: l) d'). apply IH.
Qed.

Lemma ring_path_app h l1 : forall p l2,
  ring_path h p (l1 ++ l2)
  <-> ring_path h p l1 /\ ring_path h (List.last l1 p) l2.
Proof.
  induction l1 as [|x l1 IH]; intros p l2.
  - simpl. tauto.
  - change (next (h p) = x /\ ring_path h x (l1 ++ l2)
            <-> (next (h p) = x /\ ring_path h x l1)
                /\ ring_path h (List.last (x :: l1) p) l2).
    rewrite IH. destruct l1 as [|y l1]; [simpl; tauto|].
    change (List.last (x :: y :: l1) p) with (List.last (y :: l1) p).
    rewrite (last_cons_default l1 y x p). tauto.
Qed.

Lemma last_in {A} (l : list A) (d : A) : l <> [] -> In (List.last l d) l.
Proof.
  induction l as [|y l IH]; intros Hne; [congruence|].
  destruct l as [|z l]; [left; reflexivity|].
  right. apply IH. discriminate.
Qed.

Lemma in_removelast {A} (l : list A) (x : A) :
  In x (removelast l) -> In x l.
Proof.
  induction l as [|y l IH]; intros Hin; [exact Hin|].
  destruct l as [|z l]; [contradiction|].
  destruct Hin as [->|Hin]; [left; reflexivity|right; apply IH; exact Hin].
Qed.

Lemma removelast_not_last {A} (l : list A) (d x : A) :
  List.NoDup l -> In x (removelast l) -> x <> List.last l d.
Proof.
  induction l as [|y l IH]; intros Hnd Hin; [contradiction|].
  destruct l as [|z l]; [contradiction|].
  inversion Hnd as [|? ? Hy Hnd']; subst.
  destruct Hin as [->|Hin].
  - intros Heq. apply Hy. rewrite Heq. apply (last_in (z :: l)). discriminate.
  - apply IH; assumption.
Qed.

Lemma unblock_ring (k : kernel) (q : ptr) (ring : list ptr) :
  let cr := current_running k in
  let h := pcbs k in
  ring_path h cr (ring ++ [cr]) ->
  previous (h cr) = List.last ring cr ->
  List.NoDup (cr :: ring) ->
  ~ In q (cr :: ring) ->
  ring_path (pcbs (snd (unblock q k))) cr (ring ++ [q; cr]).
Proof.
  intros cr h Hring Hpv Hnd Hq.
  assert (Hqcr : q <> cr) by (intros ->; apply Hq; left; reflexivity).
  assert (Hlast : In (List.last ring cr) (cr :: ring)).
  { destruct ring as [|a r]; [left; reflexivity|].
    right. apply last_in. discriminate. }
  assert (Hqpv : q <> previous (h cr)).
  { rewrite Hpv. intros ->. apply Hq. exact Hlast. }
  destruct (unblock_heap k q Hqcr Hqpv)
    as (_ & _ & Hw & Hnpv & _ & _ & _ & Hnext & _).
  fold cr h in Hw, Hnpv, Hnext.
  apply ring_path_app in Hring as [Hring _].
  apply ring_path_app. split.
  - apply ring_path_frame with (h := h); [|exact Hring].
    intros x Hx. apply Hnext.
    + intros ->. apply Hq. apply in_removelast. exact Hx.
    + rewrite Hpv.
      replace (List.last ring cr) with (List.last (cr :: ring) cr)
        by (destruct ring; reflexivity).
      apply removelast_not_last; assumption.
  - cbn [ring_path]. rewrite <- Hpv. split; [exact Hnpv|]. split; [|exact I].
    rewrite Hw. reflexivity.
Qed.

Lemma current_running_dispatch k :
  current_running (dispatch k) = current_running k.
Proof. unfold dispatch. destruct (state _); reflexivity. Qed.

Lemma next_dispatch k p : next (pcbs (dispatch k) p) = next (pcbs k p).
Proof.
  unfold dispatch. destruct (state _); simpl; try reflexivity;
    rewrite set_state_at; case_decide; subst; reflexivity.
Qed.

Lemma yield_ready k :
  state (pcbs k (current_running k)) = STATUS_READY ->
  option_map current_running (yield k)
  = Some (next (pcbs k (current_running k))).
Proof.
  intros H. unfold yield, scheduler. rewrite H. simpl.
  rewrite current_running_dispatch. reflexivity.
Qed.

Lemma last_waiter_spec h l : forall q fuel,
  wait_queue h q l -> l <> [] -> length l <= fuel ->
  last_waiter fuel h q = Some (List.last l NULL).
Proof.
  induction l as [|x l IH]; intros q fuel Hq Hne Hlen; [congruence|].
  destruct Hq as (-> & Hx & Hq).
  destruct fuel as [|fuel]; [simpl in Hlen; lia|]. simpl in Hlen.
  destruct l as [|y l].
  - simpl in Hq. cbn [last_waiter]. rewrite Hq. reflexivity.
  - pose proof Hq as (Hy & Hy0 & _). cbn [last_waiter]. rewrite Hy.
    destruct (Nat.eqb_spec y 0) as [->|_]; [contradiction|].
    rewrite Hy in Hq.
    assert (Hl' : length (y :: l) <= fuel) by (simpl in *; lia).
    rewrite (IH y fuel Hq ltac:(discriminate) Hl').
    reflexivity.
Qed.

Lemma wait_queue_snoc h h' c l : forall q,
  wait_queue h q l -> c <> NULL ->
  (forall p, In p (removelast l) -> next (h' p) = next (h p)) ->
  (l <> [] -> next (h' (List.last l NULL)) = c) ->
  next (h' c) = NULL ->
  wait_queue h' (hd c l) (l ++ [c]).
Proof.
  induction l as [|x l IH]; intros q Hq Hc Hf Hlast Hend.
  - simpl. auto.
  - destruct Hq as (-> & Hx & Hq). cbn [hd app wait_queue].
    split; [reflexivity|]. split; [exact Hx|].
    destruct l as [|y l].
    + specialize (Hlast ltac:(discriminate)). simpl in Hlast.
      rewrite Hlast. simpl. auto.
    + pose proof Hq as (Hy & _). rewrite Hf by (left; reflexivity).
      rewrite Hy.
      apply (IH (next (h x)) Hq Hc).
      * intros p Hp. apply Hf. right. exact Hp.
      * intros _. apply Hlast. discriminate.
      * exact Hend.
Qed.

Lemma block_enqueues_at_tail (fuel : nat) (k : kernel) (q : ptr)
    (l : list ptr) :
  let cr := current_running k in
  let h := pcbs k in
  wait_queue h q l -> List.NoDup l -> length l <= fuel ->
  cr <> NULL -> ~ In cr l -> ~ In (previous (h cr)) l ->
  exists k', block fuel q k = Some (hd cr l, k')
             /\ wait_queue (pcbs k') (hd cr l) (l ++ [cr])
             /\ state (pcbs k' cr) = STATUS_BLOCKED.
Proof.
  intros cr h Hq Hnd Hlen Hcr Hin Hpv. unfold block. fold cr h.
  set (h0 := set_state h cr STATUS_BLOCKED).
  set (hX := if q =? 0 then h0 else set_next h0 (List.last l NULL) cr).
  assert (Hlastin : l <> [] -> In (List.last l NULL) l) by apply last_in.
  assert (HstX : state (hX cr) = STATUS_BLOCKED).
  { unfold hX, h0. destruct (q =? 0); heap. }
  assert (HpvX : previous (hX cr) = previous (h cr)).
  { unfold hX, h0. destruct (q =? 0); heap. }
  assert (Hsched : exists k', scheduler (mk_kernel hX cr) = Some k'
            /\ (forall p, p <> cr -> p <> previous (h cr) ->
                          next (pcbs k' p) = next (hX p))
            /\ next (pcbs k' cr) = NULL
            /\ state (pcbs k' cr) = STATUS_BLOCKED).
  { unfold scheduler. cbn [pcbs current_running]. rewrite HstX. cbn.
    eexists. split; [reflexivity|]. rewrite <- HpvX. split; [|split].
    - intros p H1 H2. rewrite next_dispatch. cbn [pcbs]. heap.
    - rewrite next_dispatch. cbn [pcbs]. heap.
    - unfold dispatch. cbn [pcbs current_running].
      set (hh := set_previous _ cr 0).
      assert (Hs : state (hh cr) = STATUS_BLOCKED) by (unfold hh; heap).
      destruct (state (hh (next _))) eqn:E; cbn [pcbs]; try exact Hs;
        rewrite set_state_at; case_decide as Hd; [|exact Hs| |exact Hs];
        rewrite Hd in E; rewrite Hs in E; discriminate. }
  destruct Hsched as (k' & Hk' & Hframe & Hend & Hst).
  assert (Hgoal : wait_queue (pcbs k') (hd cr l) (l ++ [cr])).
  { apply wait_queue_snoc with (h := h) (q := q); try assumption.
    - intros p Hp. rewrite Hframe.
      + unfold hX, h0. destruct (q =? 0); heap.
        exfalso. eapply removelast_not_last; eauto.
      + intros ->. apply Hin. apply in_removelast. exact Hp.
      + intros ->. apply Hpv. apply in_removelast. exact Hp.
    - intros Hne. specialize (Hlastin Hne). rewrite Hframe.
      + unfold hX, h0. destruct (Nat.eqb_spec q 0) as [->|Hq0].
        * destruct l; [congruence|]. destruct Hq as (Hq & Hx & _).
          subst. contradiction.
        * heap.
      + intros Heq. apply Hin. rewrite <- Heq. exact Hlastin.
      + intros Heq. apply Hpv. rewrite <- Heq. exact Hlastin. }
  destruct (Nat.eqb_spec q 0) as [->|Hq0].
  - exists k'. unfold hX in Hk'. cbn [Nat.eqb] in Hk'. fold h0.
    rewrite Hk'. destruct l as [|x l]; [auto|].
    destruct Hq as (Hq & Hx & _). subst x. contradiction.
  - assert (Hne : l <> []) by (destruct l; [simpl in Hq; unfold NULL in Hq; congruence|discriminate]).
    fold h0. rewrite (last_waiter_spec h0 l q fuel); try assumption.
    + unfold hX in Hk'. destruct (Nat.eqb_spec q 0); [contradiction|].
      rewrite Hk'. exists k'. replace q with (hd cr l); [auto|].
      destruct l; [congruence|]. destruct Hq as (-> & _). reflexivity.
    + apply wait_queue_frame with (h := h); [|exact Hq].
      intros p Hp. unfold h0. heap.
Qed.

(** C3, as stated, fails: task 3 is released by [unblock] while task 1
    runs and task 2 is ready; at the next scheduling point of task 1 the
    scheduler runs task 2, and task 3 only at the one after. *)
Lemma unblock_then_yield_runs_ring_successor :
  let k' := snd (unblock 3 two_ready_one_blocked) in
  current_running k' = 1
  /\ match yield k' with
     | Some k2 =>
         current_running k2 = 2
         /\ option_map current_running (yield k2) = Some 3
     | None => False
     end.
Proof. vm_compute. repeat split. Qed.

(** C3, amended: on a non-empty wait queue [w :: rest], [unblock] removes
    the head [w] (the queue is [rest] afterwards, so tasks leave in the
    order in which [block] queued them, see [block_enqueues_at_tail]),
    sets its state to READY and links it into the ready ring immediately
    before [current_running]: the ring [cr, ring] becomes [cr, ring, w].
    The released task therefore runs after every task that was in the
    ring; the next scheduling point of the current task runs the old
    successor of [current_running], which is [w] only when the current
    task was alone in the ring. *)
Theorem unblock_inserts_head_before_current (k : kernel) (q w : ptr)
    (rest ring : list ptr) :
  let cr := current_running k in
  let h := pcbs k in
  wait_queue h q (w :: rest) ->
  List.NoDup (w :: rest) ->
  ring_path h cr (ring ++ [cr]) ->
  previous (h cr) = List.last ring cr ->
  List.NoDup (cr :: ring) ->
  (forall p, In p (w :: rest) -> ~ In p (cr :: ring)) ->
  state (h cr) = STATUS_READY ->
  let k' := snd (unblock q k) in
  wait_queue (pcbs k') (fst (unblock q k)) rest
  /\ state (pcbs k' w) = STATUS_READY
  /\ next (pcbs k' w) = cr
  /\ previous (pcbs k' cr) = w
  /\ current_running k' = cr
  /\ ring_path (pcbs k') cr (ring ++ [w; cr])
  /\ option_map current_running (yield k') = Some (hd w ring).
Proof.
  intros cr h Hq Hnd Hring Hpv Hndr Hdisj Hst k'.
  destruct Hq as (-> & Hw & Hq).
  assert (Hwr : ~ In w (cr :: ring)) by (apply Hdisj; left; reflexivity).
  assert (Hwcr : w <> cr) by (intros ->; apply Hwr; left; reflexivity).
  assert (Hlast : In (List.last ring cr) (cr :: ring)).
  { destruct ring as [|a r]; [left; reflexivity|].
    right. apply last_in. discriminate. }
  assert (Hwpv : w <> previous (h cr)).
  { rewrite Hpv. intros ->. apply Hwr. exact Hlast. }
  destruct (unblock_heap k w Hwcr Hwpv)
    as (Hq' & Hcr' & Hw' & _ & Hprev & Hnextcr & Hstcr & Hnext & _).
  fold cr h in Hq', Hcr', Hw', Hprev, Hnextcr, Hstcr, Hnext. fold k' in Hcr', Hw', Hprev, Hnextcr, Hstcr, Hnext.
  split.
  { rewrite Hq'. apply wait_queue_frame with (h := h); [|exact Hq].
    intros p Hp. apply Hnext.
    - intros ->. inversion Hnd as [|? ? Hnw _]. apply Hnw. exact Hp.
    - rewrite Hpv. intros ->. apply (Hdisj (List.last ring cr)); [|exact Hlast].
      right. exact Hp. }
  split; [rewrite Hw'; reflexivity|].
  split; [rewrite Hw'; reflexivity|].
  split; [exact Hprev|]. split; [exact Hcr'|].
  split; [apply unblock_ring; assumption|].
  rewrite yield_ready by (rewrite Hcr'; rewrite Hstcr; exact Hst).
  rewrite Hcr', Hnextcr. f_equal.
  destruct ring as [|a r].
  - simpl in Hpv. rewrite Hpv. simpl.
    destruct (decide (cr = cr)); congruence.
  - destruct Hring as (Ha & _). simpl.
    destruct (decide (previous (h cr) = cr)) as [Hd|_]; [|exact Ha].
    exfalso. inversion Hndr as [|? ? Hncr _]. apply Hncr.
    rewrite <- Hd, Hpv. apply last_in. discriminate.
Qed.

(** The amended C3 on [two_ready_one_blocked]: task 3 is linked in behind
    task 2. *)
Lemma unblock_inserts_head_before_current_witness :
  let k' := snd (unblock 3 two_ready_one_blocked) in
  wait_queue (pcbs k') (fst (unblock 3 two_ready_one_blocked)) []
  /\ state (pcbs k' 3) = STATUS_READY
  /\ next (pcbs k' 3) = 1
  /\ previous (pcbs k' 1) = 3
  /\ current_running k' = 1
  /\ ring_path (pcbs k') 1 ([2] ++ [3; 1])
  /\ option_map current_running (yield k') = Some 2.
Proof.
  apply (unblock_inserts_head_before_current two_ready_one_blocked 3 3 [] [2]).
  - simpl. unfold NULL. repeat split; lia.
  - repeat constructor; simpl; tauto.
  - simpl. tauto.
  - reflexivity.
  - repeat constructor; simpl; intuition lia.
  - simpl. intros p [<-|[]]. lia.
  - reflexivity.
Defined.

(** *** [yield], [exit] and [block] *)

Lemma dispatch_ready h p :
  state (h p) = STATUS_READY -> dispatch (mk_kernel h p) = mk_kernel h p.
Proof. intros H. unfold dispatch. cbn [pcbs current_running]. rewrite H. reflexivity. Qed.

Lemma yield_ready_kernel h p :
  state (h p) = STATUS_READY -> state (h (next (h p))) = STATUS_READY ->
  yield (mk_kernel h p) = Some (mk_kernel h (next (h p))).
Proof.
  intros H1 H2. unfold yield, scheduler. cbn [pcbs current_running].
  rewrite H1. cbn. rewrite dispatch_ready by exact H2. reflexivity.
Qed.

Lemma yields_ring h l : forall p i,
  ring_path h p l ->
  (forall x, In x (p :: l) -> state (h x) = STATUS_READY) ->
  i <= length l ->
  yields i (mk_kernel h p) = Some (mk_kernel h (nth i (p :: l) p)).
Proof.
  induction l as [|x l IH]; intros p i Hr Hst Hi.
  - simpl in Hi. replace i with 0 by lia. reflexivity.
  - destruct i as [|i]; [reflexivity|].
    destruct Hr as (Hx & Hr). cbn [yields].
    rewrite yield_ready_kernel.
    + rewrite Hx. rewrite (IH x i Hr).
      * f_equal. f_equal. change (nth i (x :: l) x = nth i (x :: l) p).
        apply nth_indep. simpl. simpl in Hi. lia.
      * intros y Hy. apply Hst. right. exact Hy.
      * simpl in Hi. lia.
    + apply Hst. left. reflexivity.
    + rewrite Hx. apply Hst. right. left. reflexivity.
Qed.

(** X1: In a ready ring whose tasks are all READY, [i] calls of [yield],
    each by the task that runs then, hand the processor to the [i]-th
    task behind the first caller and change no PCB; after as many calls
    as the ring has tasks the kernel is as it was. *)
Theorem yield_round_robin (k : kernel) (ring : list ptr) :
  let cr := current_running k in
  ring_path (pcbs k) cr (ring ++ [cr]) ->
  (forall p, In p (cr :: ring) -> state (pcbs k p) = STATUS_READY) ->
  (forall i, i <= length ring ->
             yields i k = Some (mk_kernel (pcbs k) (nth i (cr :: ring) cr)))
  /\ yields (S (length ring)) k = Some k.
Proof.
  intros cr Hr Hst. destruct k as [h c]. cbn [pcbs current_running] in *.
  subst cr.
  assert (Hst' : forall x, In x (c :: ring ++ [c]) -> state (h x) = STATUS_READY).
  { intros x [<-|Hx]; [apply Hst; left; reflexivity|].
    apply in_app_or in Hx as [Hx|[<-|[]]]; apply Hst; [right; exact Hx|left; reflexivity]. }
  split.
  - intros i Hi.
    rewrite (yields_ring h (ring ++ [c]) c i Hr Hst')
      by (rewrite length_app; simpl; lia).
    f_equal. f_equal.
    change (c :: ring ++ [c]) with ((c :: ring) ++ [c]).
    rewrite app_nth1 by (simpl; lia). reflexivity.
  - rewrite (yields_ring h (ring ++ [c]) c (S (length ring)) Hr Hst')
      by (rewrite length_app; simpl; lia).
    f_equal. f_equal.
    change (c :: ring ++ [c]) with ((c :: ring) ++ [c]).
    rewrite app_nth2 by (simpl; lia).
    replace (S (length ring) - length (c :: ring)) with 0 by (simpl; lia).
    reflexivity.
Qed.

(** X1 on the ring of [three_ready]. *)
Lemma yield_round_robin_witness :
  yields 1 three_ready = Some (mk_kernel (pcbs three_ready) 2)
  /\ yields 3 three_ready = Some three_ready.
Proof.
  pose proof (yield_round_robin three_ready [2; 3]) as H.
  cbv zeta in H.
  destruct H as [H1 H2].
  - simpl. repeat split.
  - intros p Hp. simpl in Hp.
    destruct Hp as [<-|[<-|[<-|[]]]]; reflexivity.
  - split; [apply (H1 1); simpl; lia|exact H2].
Defined.

Lemma previous_dispatch k p : previous (pcbs (dispatch k) p) = previous (pcbs k p).
Proof.
  unfold dispatch. destruct (state _); simpl; try reflexivity;
    rewrite set_state_at; case_decide; subst; reflexivity.
Qed.

Lemma dispatch_other k p :
  p <> current_running k -> pcbs (dispatch k) p = pcbs k p.
Proof.
  intros Hp. unfold dispatch. destruct (state _); simpl; try reflexivity;
    rewrite set_state_at; case_decide; subst; congruence.
Qed.

Lemma last_cons_cons {A} (x : A) (l : list A) (d : A) :
  List.last (x :: l) d = List.last l x.
Proof.
  revert x. induction l as [|y l IH]; intros x; [reflexivity|].
  change (List.last (y :: l) d = List.last (y :: l) x).
  apply last_cons_default.
Qed.

(** The scheduler on a task that is blocked or has exited, in a ring of
    two tasks or more: the task is unlinked and its successor runs. *)
Lemma scheduler_unlinks (h : ptr -> pcb) (cr n : ptr) (rest : list ptr) :
  state (h cr) = STATUS_BLOCKED \/ state (h cr) = STATUS_EXITED ->
  ring_path h cr ((n :: rest) ++ [cr]) ->
  previous (h cr) = List.last (n :: rest) cr ->
  List.NoDup (cr :: n :: rest) ->
  exists k', scheduler (mk_kernel h cr) = Some k'
    /\ current_running k' = n
    /\ ring_path (pcbs k') n (rest ++ [n])
    /\ previous (pcbs k' n) = List.last rest n
    /\ pcbs k' cr = mk_pcb (state (h cr)) NULL NULL
    /\ (forall p, p <> cr -> p <> n -> p <> previous (h cr) ->
                  pcbs k' p = h p)
    /\ (forall p, p <> cr -> p <> previous (h cr) ->
                  next (pcbs k' p) = next (h p))
    /\ (forall p, p <> cr -> p <> n -> state (pcbs k' p) = state (h p)).
Proof.
  intros Hst Hring Hpv Hnd.
  rewrite last_cons_cons in Hpv.
  destruct Hring as (Hn & Hring).
  apply ring_path_app in Hring as (Hrest & Hlast).
  apply List.NoDup_cons_iff in Hnd as [Hcr Hnd'].
  assert (Hncr : n <> cr) by (intros ->; apply Hcr; left; reflexivity).
  assert (Hpvin : In (List.last rest n) (n :: rest)).
  { destruct rest as [|a r]; [left; reflexivity|].
    right. apply last_in. discriminate. }
  assert (Hpvcr : previous (h cr) <> cr).
  { rewrite Hpv. intros Heq. apply Hcr. rewrite <- Heq. exact Hpvin. }
  assert (Hsch : scheduler (mk_kernel h cr)
                 = Some (dispatch
                     (mk_kernel
                        (set_previous
                           (set_next
                              (set_previous
                                 (set_next h (previous (h cr)) n)
                                 n (previous (h cr)))
                              cr 0)
                           cr 0)
                        n))).
  { unfold scheduler. cbn [pcbs current_running].
    assert (Hb : status_eqb (state (h cr)) STATUS_BLOCKED
                 || status_eqb (state (h cr)) STATUS_EXITED = true)
      by (destruct Hst as [-> | ->]; reflexivity).
    rewrite Hb.
    assert (He : status_eqb (state (h cr)) STATUS_EXITED && (next (h cr) =? cr)
                 = false).
    { rewrite Hn. destruct (Nat.eqb_spec n cr); [contradiction|].
      apply andb_false_r. }
    rewrite He. rewrite Hn.
    set (h1 := set_next h (previous (h cr)) n).
    assert (E1 : next (h1 cr) = n) by (unfold h1; heap).
    assert (E2 : previous (h1 cr) = previous (h cr)) by (unfold h1; heap).
    rewrite E1, E2.
    set (h2 := set_previous h1 n (previous (h cr))).
    assert (E3 : next (h2 cr) = n) by (unfold h2; heap).
    rewrite E3. reflexivity. }
  eexists. split; [exact Hsch|].
  set (h4 := set_previous _ cr 0).
  assert (Hh4cr : h4 cr = mk_pcb (state (h cr)) NULL NULL).
  { unfold h4. heap. }
  split; [apply current_running_dispatch|].
  split.
  { apply ring_path_app. split.
    - apply ring_path_frame with (h := h); [|exact Hrest].
      intros x Hx. rewrite next_dispatch. cbn [pcbs]. unfold h4.
      assert (x <> cr).
      { intros ->. apply Hcr. apply in_removelast. exact Hx. }
      assert (x <> previous (h cr)).
      { rewrite Hpv, <- (last_cons_cons n rest n).
        apply removelast_not_last; assumption. }
      heap.
    - cbn [ring_path]. split; [|exact I]. rewrite next_dispatch.
      cbn [pcbs]. unfold h4. rewrite <- Hpv. heap. }
  split.
  { rewrite previous_dispatch. cbn [pcbs]. unfold h4. rewrite <- Hpv. heap. }
  split.
  { rewrite dispatch_other by (cbn [current_running]; congruence).
    cbn [pcbs]. exact Hh4cr. }
  split.
  { intros p H1 H2 H3.
    rewrite dispatch_other by (cbn [current_running]; congruence).
    cbn [pcbs]. unfold h4. heap. }
  split.
  - intros p H1 H2. rewrite next_dispatch. cbn [pcbs]. unfold h4. heap.
  - intros p H1 H2.
    rewrite dispatch_other by (cbn [current_running]; congruence).
    cbn [pcbs]. unfold h4. heap.
Qed.

(** X2: [exit] by the only task of the ring never returns: the scheduler
    loops forever.  In a ring of several tasks [exit] takes the caller
    out of the ring, leaves it EXITED with both links cleared, and runs
    its successor in the ring of the tasks that remain. *)
Theorem exit_unlinks_or_spins (k : kernel) :
  let cr := current_running k in
  let h := pcbs k in
  (next (h cr) = cr -> exit k = None)
  /\ (forall n rest,
        ring_path h cr ((n :: rest) ++ [cr]) ->
        previous (h cr) = List.last (n :: rest) cr ->
        List.NoDup (cr :: n :: rest) ->
        exists k', exit k = Some k'
          /\ current_running k' = n
          /\ ring_path (pcbs k') n (rest ++ [n])
          /\ ~ In cr (rest ++ [n])
          /\ pcbs k' cr = mk_pcb STATUS_EXITED NULL NULL).
Proof.
  intros cr h. split.
  - intros Hn. unfold exit, scheduler. fold cr h. cbn [pcbs current_running].
    assert (E1 : state (set_state h cr STATUS_EXITED cr) = STATUS_EXITED) by heap.
    assert (E2 : next (set_state h cr STATUS_EXITED cr) = cr) by heap.
    rewrite E1, E2, Nat.eqb_refl. reflexivity.
  - intros n rest Hring Hpv Hnd. unfold exit. fold cr h.
    set (h0 := set_state h cr STATUS_EXITED).
    assert (E1 : state (h0 cr) = STATUS_EXITED) by (unfold h0; heap).
    assert (E2 : previous (h0 cr) = previous (h cr)) by (unfold h0; heap).
    destruct (scheduler_unlinks h0 cr n rest) as (k' & Hk & Hc & Hr & _ & Hcr & _).
    + right. exact E1.
    + apply ring_path_frame with (h := h); [|exact Hring].
      intros x _. unfold h0. heap.
    + rewrite E2. exact Hpv.
    + exact Hnd.
    + exists k'. split; [exact Hk|]. split; [exact Hc|]. split; [exact Hr|].
      split.
      * apply List.NoDup_cons_iff in Hnd as [Hcr' _].
        intros Hin. apply Hcr'. apply in_app_or in Hin as [Hin|[<-|[]]].
        -- right. exact Hin.
        -- left. reflexivity.
      * rewrite Hcr, E1. reflexivity.
Qed.

(** X2 on [three_ready]. *)
Lemma exit_unlinks_or_spins_witness :
  exists k', exit three_ready = Some k'
    /\ current_running k' = 2
    /\ ring_path (pcbs k') 2 ([3] ++ [2])
    /\ ~ In 1 ([3] ++ [2])
    /\ pcbs k' 1 = mk_pcb STATUS_EXITED NULL NULL.
Proof.
  apply (proj2 (exit_unlinks_or_spins three_ready) 2 [3]).
  - simpl. repeat split.
  - reflexivity.
  - repeat constructor; simpl; intuition lia.
Defined.

(** [block] on a queue [l], in a ring of two tasks or more: the caller is
    queued behind [l] and unlinked from the ring, and its successor
    runs. *)
Lemma block_ring_spec (fuel : nat) (k : kernel) (q n : ptr)
    (l rest : list ptr) :
  let cr := current_running k in
  let h := pcbs k in
  wait_queue h q l -> List.NoDup l -> length l <= fuel ->
  cr <> NULL ->
  ring_path h cr ((n :: rest) ++ [cr]) ->
  previous (h cr) = List.last (n :: rest) cr ->
  List.NoDup (cr :: n :: rest) ->
  (forall p, In p l -> ~ In p (cr :: n :: rest)) ->
  exists k', block fuel q k = Some (hd cr l, k')
    /\ wait_queue (pcbs k') (hd cr l) (l ++ [cr])
    /\ pcbs k' cr = mk_pcb STATUS_BLOCKED NULL NULL
    /\ current_running k' = n
    /\ ring_path (pcbs k') n (rest ++ [n])
    /\ ~ In cr (rest ++ [n])
    /\ (forall p, p <> cr -> p <> n -> state (pcbs k' p) = state (h p))
    /\ (forall p, p <> cr -> p <> previous (h cr) -> ~ In p l ->
                  next (pcbs k' p) = next (h p)).
Proof.
  intros cr h Hq Hndl Hlen Hcr Hring Hpv Hnd Hdis.
  assert (Hpvin : In (previous (h cr)) (cr :: n :: rest)).
  { rewrite Hpv. right. apply last_in. discriminate. }
  assert (Hcrl : ~ In cr l).
  { intros Hin. apply (Hdis cr Hin). left. reflexivity. }
  assert (Hpvl : ~ In (previous (h cr)) l).
  { intros Hin. apply (Hdis _ Hin). exact Hpvin. }
  destruct (block_enqueues_at_tail fuel k q l Hq Hndl Hlen Hcr Hcrl Hpvl)
    as (k' & Hb & Hwq & _).
  fold cr h in Hb, Hwq.
  exists k'. split; [exact Hb|]. split; [exact Hwq|].
  (* the table the scheduler is entered with *)
  set (h0 := set_state h cr STATUS_BLOCKED).
  assert (Hsch : exists hX, scheduler (mk_kernel hX cr) = Some k'
             /\ state (hX cr) = STATUS_BLOCKED
             /\ previous (hX cr) = previous (h cr)
             /\ (forall x, In x (cr :: n :: rest) -> next (hX x) = next (h x))
             /\ (forall x, x <> cr -> state (hX x) = state (h x))
             /\ (forall x, x <> cr -> ~ In x l -> next (hX x) = next (h x))).
  { unfold block in Hb. fold cr h h0 in Hb.
    destruct (Nat.eqb_spec q 0) as [Hq0|Hq0].
    - exists h0. destruct (scheduler (mk_kernel h0 cr)); [|discriminate].
      split; [congruence|]. unfold h0. split; [heap|]. split; [heap|].
      split; [intros x _; heap|]. split; [intros x ?; heap|].
      intros x ? ?; heap.
    - assert (Hne : l <> []).
      { destruct l; [simpl in Hq; unfold NULL in Hq; congruence|discriminate]. }
      rewrite (last_waiter_spec h0 l q fuel) in Hb; try assumption.
      + exists (set_next h0 (List.last l NULL) cr).
        destruct (scheduler _); [|discriminate].
        split; [congruence|].
        assert (Hlast : In (List.last l NULL) l) by (apply last_in; exact Hne).
        assert (List.last l NULL <> cr) by (intros E; rewrite E in Hlast; contradiction).
        unfold h0. split; [heap|]. split; [heap|].
        split; [|split].
        * intros x Hx. assert (List.last l NULL <> x).
          { intros E. rewrite E in Hlast. apply (Hdis x Hlast Hx). }
          heap.
        * intros x Hx. heap.
        * intros x Hx Hxl. assert (List.last l NULL <> x).
          { intros E. rewrite E in Hlast. contradiction. }
          heap.
      + apply wait_queue_frame with (h := h); [|exact Hq].
        intros p Hp. unfold h0. heap. }
  destruct Hsch as (hX & Hk & HstX & HpvX & HnextX & HstateX & HframeX).
  destruct (scheduler_unlinks hX cr n rest)
    as (k2 & Hk2 & Hc & Hr & _ & Hcr2 & _ & Hnext2 & Hstate2).
  - left. exact HstX.
  - apply ring_path_frame with (h := h); [|exact Hring].
    intros x Hx. apply HnextX.
    change (cr :: (n :: rest) ++ [cr]) with ((cr :: n :: rest) ++ [cr]) in Hx.
    rewrite removelast_last in Hx. exact Hx.
  - rewrite HpvX. exact Hpv.
  - exact Hnd.
  - rewrite Hk in Hk2. injection Hk2 as <-.
    split; [rewrite Hcr2, HstX; reflexivity|].
    split; [exact Hc|]. split; [exact Hr|].
    split; [|split].
    + apply List.NoDup_cons_iff in Hnd as [Hcr' _].
      intros Hin. apply Hcr'. apply in_app_or in Hin as [Hin|[<-|[]]].
      * right. exact Hin.
      * left. reflexivity.
    + intros p H1 H2. rewrite Hstate2 by assumption. apply HstateX. exact H1.
    + intros p H1 H2 H3. rewrite Hnext2; [apply HframeX; assumption|exact H1|].
      rewrite HpvX. exact H2.
Qed.

(** X3: [block (&q)] in a ring of at least two tasks appends the caller
    at the end of the wait queue [q] (the caller becomes [q] when the
    queue was empty), leaves it BLOCKED with both ring links cleared,
    takes it out of the ready ring and runs its successor. *)
Theorem block_queues_and_switches (fuel : nat) (k : kernel) (q n : ptr)
    (l rest : list ptr) :
  let cr := current_running k in
  let h := pcbs k in
  wait_queue h q l -> List.NoDup l -> length l <= fuel ->
  cr <> NULL ->
  ring_path h cr ((n :: rest) ++ [cr]) ->
  previous (h cr) = List.last (n :: rest) cr ->
  List.NoDup (cr :: n :: rest) ->
  (forall p, In p l -> ~ In p (cr :: n :: rest)) ->
  exists k', block fuel q k = Some (hd cr l, k')
    /\ wait_queue (pcbs k') (hd cr l) (l ++ [cr])
    /\ pcbs k' cr = mk_pcb STATUS_BLOCKED NULL NULL
    /\ current_running k' = n
    /\ ring_path (pcbs k') n (rest ++ [n])
    /\ ~ In cr (rest ++ [n]).
Proof.
  intros cr h Hq Hndl Hlen Hcr Hring Hpv Hnd Hdis.
  destruct (block_ring_spec fuel k q n l rest
              Hq Hndl Hlen Hcr Hring Hpv Hnd Hdis)
    as (k' & Hb & Hwq & Hpcb & Hc & Hr & Hnotin & _).
  exists k'. auto 10.
Qed.

(** X3 on [three_ready]. *)
Lemma block_queues_and_switches_witness :
  exists k', block 4 0 three_ready = Some (1, k')
    /\ wait_queue (pcbs k') 1 ([] ++ [1])
    /\ pcbs k' 1 = mk_pcb STATUS_BLOCKED NULL NULL
    /\ current_running k' = 2
    /\ ring_path (pcbs k') 2 ([3] ++ [2])
    /\ ~ In 1 ([3] ++ [2]).
Proof.
  apply (block_queues_and_switches 4 three_ready 0 2 [] [3]).
  - reflexivity.
  - constructor.
  - simpl. lia.
  - discriminate.
  - simpl. repeat split.
  - reflexivity.
  - repeat constructor; simpl; intuition lia.
  - intros p [].
Defined.

Lemma pcb_ext (a b : pcb) :
  state a = state b -> next a = next b -> previous a = previous b -> a = b.
Proof. destruct a, b. simpl. congruence. Qed.

(** [block] on an empty queue followed by [unblock] by the next task. *)
Lemma block_unblock_heap (fuel : nat) (k : kernel) :
  let cr := current_running k in
  let h := pcbs k in
  let n := next (h cr) in
  n <> cr ->
  next (h (previous (h cr))) = cr ->
  previous (h n) = cr ->
  state (h cr) = STATUS_READY ->
  state (h n) = STATUS_READY ->
  exists k1 k2,
    block fuel NULL k = Some (cr, k1)
    /\ current_running k1 = n
    /\ state (pcbs k1 cr) = STATUS_BLOCKED
    /\ unblock cr k1 = (NULL, k2)
    /\ current_running k2 = n
    /\ forall p, pcbs k2 p = h p.
Proof.
  intros cr h n Hn Hpv Hnp Hst Hstn.
  assert (Hpvcr : previous (h cr) <> cr).
  { intros E. rewrite E in Hpv. fold n in Hpv. contradiction. }
  set (pv := previous (h cr)) in *.
  set (h0 := set_state h cr STATUS_BLOCKED).
  set (h4 := set_previous
               (set_next (set_previous (set_next h0 pv n) n pv) cr 0) cr 0).
  assert (Hb : block fuel NULL k = Some (cr, mk_kernel h4 n)).
  { unfold block, scheduler. fold cr h h0. cbn [NULL Nat.eqb pcbs current_running].
    assert (E0 : state (h0 cr) = STATUS_BLOCKED) by (unfold h0; heap).
    assert (E0n : next (h0 cr) = n) by (unfold h0; heap).
    assert (E0p : previous (h0 cr) = pv) by (unfold h0; heap).
    rewrite E0, E0n, E0p. cbn [status_eqb orb andb].
    set (h1 := set_next h0 pv n).
    assert (E1 : next (h1 cr) = n) by (unfold h1; heap).
    assert (E2 : previous (h1 cr) = pv) by (unfold h1, h0; heap).
    rewrite E1, E2.
    set (h2 := set_previous h1 n pv).
    assert (E3 : next (h2 cr) = n) by (unfold h2; heap).
    rewrite E3. fold h4.
    rewrite dispatch_ready; [reflexivity|].
    unfold h4, h2, h1, h0. heap. }
  exists (mk_kernel h4 n). eexists.
  split; [exact Hb|]. split; [reflexivity|].
  split; [cbn [pcbs]; unfold h4, h0; heap|].
  unfold unblock. cbn [pcbs current_running].
  assert (E4 : next (h4 cr) = NULL) by (unfold h4; heap).
  rewrite E4.
  split; [reflexivity|]. split; [reflexivity|].
  intros p. cbn [pcbs].
  assert (E5 : previous (h4 n) = pv) by (unfold h4, h0; heap).
  set (h5 := set_state h4 cr STATUS_READY).
  assert (E6 : previous (h5 n) = pv) by (unfold h5; heap).
  rewrite E6.
  set (h7 := set_next (set_previous h5 cr pv) cr n).
  assert (E7 : previous (h7 n) = pv) by (unfold h7; heap).
  rewrite E7.
  subst pv n.
  destruct (decide (p = cr)) as [Hpc|Hpc];
    destruct (decide (p = next (h cr))) as [Hpn|Hpn];
    destruct (decide (p = previous (h cr))) as [Hpp|Hpp];
    try congruence;
    apply pcb_ext; unfold h7, h5, h4, h0; heap.
Qed.

(** X4: When a READY task blocks on an empty queue and its successor,
    which runs then, unblocks that queue, every PCB is as before the two
    calls: the task is READY again at its old place in the ring, the
    queue is empty and the successor keeps running. *)
Theorem block_then_unblock_restores_ring (fuel : nat) (k : kernel) :
  let cr := current_running k in
  let h := pcbs k in
  let n := next (h cr) in
  n <> cr ->
  next (h (previous (h cr))) = cr ->
  previous (h n) = cr ->
  state (h cr) = STATUS_READY ->
  state (h n) = STATUS_READY ->
  exists k1 k2,
    block fuel NULL k = Some (cr, k1)
    /\ current_running k1 = n
    /\ state (pcbs k1 cr) = STATUS_BLOCKED
    /\ unblock cr k1 = (NULL, k2)
    /\ current_running k2 = n
    /\ forall p, pcbs k2 p = h p.
Proof. apply block_unblock_heap. Qed.

(** X4 on [three_ready]. *)
Lemma block_then_unblock_restores_ring_witness :
  exists k1 k2,
    block 0 NULL three_ready = Some (1, k1)
    /\ current_running k1 = 2
    /\ state (pcbs k1 1) = STATUS_BLOCKED
    /\ unblock 1 k1 = (NULL, k2)
    /\ current_running k2 = 2
    /\ forall p, pcbs k2 p = pcbs three_ready p.
Proof.
  apply (block_then_unblock_restores_ring 0 three_ready);
    solve [discriminate | reflexivity].
Defined.

(** X5: When the only task of the ring blocks on an empty queue, the
    scheduler has no other task to run: [block] returns to the caller,
    which stays [current_running] with state BLOCKED and both ring links
    NULL. *)
Theorem block_sole_task_keeps_running (fuel : nat) (k : kernel) :
  let cr := current_running k in
  let h := pcbs k in
  next (h cr) = cr -> previous (h cr) = cr ->
  exists k', block fuel NULL k = Some (cr, k')
    /\ current_running k' = cr
    /\ pcbs k' cr = mk_pcb STATUS_BLOCKED NULL NULL.
Proof.
  intros cr h Hn Hp. unfold block, scheduler. fold cr h.
  cbn [NULL Nat.eqb pcbs current_running].
  set (h0 := set_state h cr STATUS_BLOCKED).
  assert (E0 : state (h0 cr) = STATUS_BLOCKED) by (unfold h0; heap).
  assert (E0n : next (h0 cr) = cr) by (unfold h0; heap).
  assert (E0p : previous (h0 cr) = cr) by (unfold h0; heap).
  rewrite E0, E0n, E0p. cbn [status_eqb orb andb].
  set (h1 := set_next h0 cr cr).
  assert (E1 : next (h1 cr) = cr) by (unfold h1; heap).
  assert (E2 : previous (h1 cr) = cr) by (unfold h1; heap).
  rewrite E1, E2.
  set (h2 := set_previous h1 cr cr).
  assert (E3 : next (h2 cr) = cr) by (unfold h2; heap).
  rewrite E3.
  eexists. split; [reflexivity|].
  split; [apply current_running_dispatch|].
  set (h4 := set_previous _ cr 0).
  assert (E4 : h4 cr = mk_pcb STATUS_BLOCKED NULL NULL)
    by (unfold h4, h2, h1, h0; heap).
  unfold dispatch. cbn [pcbs current_running]. rewrite E4.
  cbn [state pcbs]. exact E4.
Qed.

(** X5 on [lone_task]. *)
Lemma block_sole_task_keeps_running_witness :
  exists k', block 0 NULL lone_task = Some (1, k')
    /\ current_running k' = 1
    /\ pcbs k' 1 = mk_pcb STATUS_BLOCKED NULL NULL.
Proof.
  apply (block_sole_task_keeps_running 0 lone_task); reflexivity.
Defined.

End SchedFacts.

Module SyncFacts.
Import Sched Sync SchedFacts.
Local Open Scope nat_scope.

(** C7: [lock_release] sets the status to UNLOCKED when the wait queue is
    empty; on a queue [w :: rest] of a locked lock it unblocks [w] and no
    other waiter, and the status stays LOCKED.  Unblocked means: [w] is
    READY and linked into the ready ring between the last task of the
    ring and the current task, so that the scheduler reaches it; the
    current task keeps running, no other task changes its state, and no
    other forward link of the ring changes. *)
Theorem lock_release_unlocks_or_hands_off (lk : lock_t) (k : kernel) :
  let cr := current_running k in
  let h := pcbs k in
  (waiting lk = NULL -> lock_release lk k = (mk_lock UNLOCKED NULL, k))
  /\ (forall w rest,
        status lk = LOCKED ->
        wait_queue h (waiting lk) (w :: rest) ->
        List.NoDup (w :: rest) ->
        ~ In cr (w :: rest) ->
        ~ In (previous (h cr)) (w :: rest) ->
        let l' := fst (lock_release lk k) in
        let k' := snd (lock_release lk k) in
        status l' = LOCKED
        /\ wait_queue (pcbs k') (waiting l') rest
        /\ state (pcbs k' w) = STATUS_READY
        /\ previous (pcbs k' cr) = w
        /\ (forall p, In p rest -> pcbs k' p = h p)
        /\ current_running k' = cr
        /\ next (pcbs k' w) = cr
        /\ previous (pcbs k' w) = previous (h cr)
        /\ next (pcbs k' (previous (h cr))) = w
        /\ (forall p, p <> w -> state (pcbs k' p) = state (h p))
        /\ (forall p, p <> w -> p <> previous (h cr) ->
              next (pcbs k' p) = next (h p))
        /\ forall ring,
             ring_path h cr (ring ++ [cr]) ->
             previous (h cr) = List.last ring cr ->
             List.NoDup (cr :: ring) ->
             ~ In w (cr :: ring) ->
             ring_path (pcbs k') cr ((ring ++ [w]) ++ [cr])).
Proof.
  intros cr h. split.
  - intros H. unfold lock_release. rewrite H. reflexivity.
  - intros w rest Hst Hq Hnd Hcr Hpv l' k'.
    destruct Hq as (Hw & Hw0 & Hq).
    assert (Hwcr : w <> cr) by (intros ->; apply Hcr; left; reflexivity).
    assert (Hwpv : w <> previous (h cr))
      by (intros ->; apply Hpv; left; reflexivity).
    destruct (unblock_heap k w Hwcr Hwpv)
      as (Hq' & Hcur & Hw' & Hnpv & Hprev & _ & _ & Hnext & Hsame).
    fold cr h in Hq', Hcur, Hw', Hnpv, Hprev, Hnext, Hsame.
    assert (Hstate : forall p, p <> w ->
              state (pcbs (snd (unblock w k)) p) = state (h p)).
    { intros p Hp. unfold unblock. cbn [snd pcbs]. fold cr h. heap. }
    assert (Hrings : forall ring,
              ring_path h cr (ring ++ [cr]) ->
              previous (h cr) = List.last ring cr ->
              List.NoDup (cr :: ring) ->
              ~ In w (cr :: ring) ->
              ring_path (pcbs (snd (unblock w k))) cr ((ring ++ [w]) ++ [cr])).
    { intros ring Hr Hl Hn Hi. rewrite <- app_assoc.
      apply unblock_ring; assumption. }
    assert (Hrel : lock_release lk k
                   = (mk_lock (status lk) (fst (unblock w k)),
                      snd (unblock w k))).
    { unfold lock_release. rewrite Hw.
      destruct (Nat.eqb_spec w NULL) as [->|_]; [contradiction|].
      destruct (unblock w k). reflexivity. }
    unfold l', k'. rewrite Hrel. cbn [fst snd status waiting].
    inversion Hnd as [|? ? Hnw _]; subst.
    split; [exact Hst|]. split.
    { rewrite Hq'. apply wait_queue_frame with (h := h); [|exact Hq].
      intros p Hp. apply Hnext.
      - intros ->. contradiction.
      - intros ->. apply Hpv. right. exact Hp. }
    split; [rewrite Hw'; reflexivity|]. split; [exact Hprev|].
    split.
    { intros p Hp. apply Hsame.
      + intros ->. contradiction.
      + intros ->. apply Hcr. right. exact Hp.
      + intros ->. apply Hpv. right. exact Hp. }
    split; [exact Hcur|].
    split; [rewrite Hw'; reflexivity|].
    split; [rewrite Hw'; reflexivity|].
    split; [exact Hnpv|].
    split; [exact Hstate|].
    split; [exact Hnext|exact Hrings].
Qed.

(** C7 on [two_ready_one_blocked]: a lock nobody waits for, and a lock
    task 3 waits for, which joins the ring of the tasks 1 and 2. *)
Lemma lock_release_unlocks_or_hands_off_witness :
  lock_release (mk_lock LOCKED NULL) two_ready_one_blocked
  = (mk_lock UNLOCKED NULL, two_ready_one_blocked)
  /\ let r := lock_release (mk_lock LOCKED 3) two_ready_one_blocked in
     status (fst r) = LOCKED
     /\ wait_queue (pcbs (snd r)) (waiting (fst r)) []
     /\ state (pcbs (snd r) 3) = STATUS_READY
     /\ previous (pcbs (snd r) 1) = 3
     /\ current_running (snd r) = 1
     /\ next (pcbs (snd r) 3) = 1
     /\ next (pcbs (snd r) 2) = 3
     /\ ring_path (pcbs (snd r)) 1 [2; 3; 1].
Proof.
  split.
  - apply (proj1 (lock_release_unlocks_or_hands_off (mk_lock LOCKED NULL)
                    two_ready_one_blocked)).
    reflexivity.
  - intros r.
    destruct (proj2 (lock_release_unlocks_or_hands_off (mk_lock LOCKED 3)
                       two_ready_one_blocked) 3 [])
      as (H1 & H2 & H3 & H4 & _ & H6 & H7 & _ & H9 & _ & _ & H12).
    + reflexivity.
    + simpl. unfold NULL. repeat split; lia.
    + repeat constructor; simpl; tauto.
    + simpl. lia.
    + simpl. lia.
    + repeat (split; [assumption|]).
      apply (H12 [2]).
      * simpl. repeat split.
      * reflexivity.
      * repeat constructor; simpl; intuition lia.
      * simpl. intuition lia.
Defined.

(** *** Semaphores *)

Lemma semaphore_up_counter (s : semaphore_t) (k : kernel) :
  counter (fst (semaphore_up s k)) = (counter s + 1)%Z.
Proof.
  unfold semaphore_up. cbn [counter sem_waiting].
  destruct (counter s + 1 >=? 0)%Z; [|reflexivity].
  destruct (negb _); [|reflexivity].
  destruct (unblock _ _). reflexivity.
Qed.

Lemma semaphore_down_counter (fuel : nat) (s s' : semaphore_t)
    (k k' : kernel) :
  semaphore_down fuel s k = Some (s', k') ->
  counter s' = (counter s - 1)%Z.
Proof.
  unfold semaphore_down. cbn [counter sem_waiting].
  destruct (counter s - 1 <? 0)%Z.
  - destruct (block _ _ _) as [[q k1]|]; [|discriminate].
    intros [= <- <-]. reflexivity.
  - intros [= <- <-]. reflexivity.
Qed.

(** C2 on the code: on a semaphore initialised to 0, task 1 and task 2
    call [semaphore_down] and block, then task 3 calls [semaphore_up]
    twice.  After the first [up] the counter is -1 and two tasks are
    still queued; after the second the counter is 0 and task 2 is still
    queued. *)
Theorem semaphore_up_keeps_waiters_blocked :
  match semaphore_down 8 (semaphore_init 0) three_ready with
  | Some (s1, k1) =>
      match semaphore_down 8 s1 k1 with
      | Some (s2, k2) =>
          let '(s3, k3) := semaphore_up s2 k2 in
          let '(s4, k4) := semaphore_up s3 k3 in
          current_running k2 = 3
          /\ counter s2 = (-2)%Z
          /\ waiters 8 (pcbs k2) (sem_waiting s2) = [1; 2]
          /\ counter s3 = (-1)%Z
          /\ waiters 8 (pcbs k3) (sem_waiting s3) = [1; 2]
          /\ counter s4 = 0%Z
          /\ waiters 8 (pcbs k4) (sem_waiting s4) = [2]
          /\ state (pcbs k4 2) = STATUS_BLOCKED
      | None => False
      end
  | None => False
  end.
Proof. vm_compute. repeat split. Qed.

(** *** Conditions, and the calls that block *)

Lemma unblock_state_other (k : kernel) (q p : ptr) :
  p <> q -> state (pcbs (snd (unblock q k)) p) = state (pcbs k p).
Proof. intros Hp. unfold unblock. cbn [snd pcbs]. heap. Qed.

(** One [unblock] on a queue [w :: rest], with the ring [cr, ring]. *)
Lemma unblock_step (k : kernel) (q w : ptr) (rest ring : list ptr) :
  let cr := current_running k in
  let h := pcbs k in
  wait_queue h q (w :: rest) ->
  List.NoDup (w :: rest) ->
  ring_path h cr (ring ++ [cr]) ->
  previous (h cr) = List.last ring cr ->
  List.NoDup (cr :: ring) ->
  (forall p, In p (w :: rest) -> ~ In p (cr :: ring)) ->
  let q' := fst (unblock q k) in
  let k' := snd (unblock q k) in
  current_running k' = cr
  /\ wait_queue (pcbs k') q' rest
  /\ ring_path (pcbs k') cr ((ring ++ [w]) ++ [cr])
  /\ previous (pcbs k' cr) = List.last (ring ++ [w]) cr
  /\ List.NoDup (cr :: ring ++ [w])
  /\ (forall p, In p rest -> ~ In p (cr :: ring ++ [w]))
  /\ state (pcbs k' w) = STATUS_READY
  /\ (forall p, p <> w -> state (pcbs k' p) = state (h p))
  /\ (forall p, In p rest -> pcbs k' p = h p)
  /\ (forall p, p <> w -> ~ In p (cr :: ring) -> pcbs k' p = h p).
Proof.
  intros cr h Hq Hndl Hring Hpv Hnd Hdis q' k'.
  destruct Hq as (-> & Hw0 & Hq).
  assert (Hwring : ~ In w (cr :: ring)) by (apply Hdis; left; reflexivity).
  assert (Hwcr : w <> cr) by (intros ->; apply Hwring; left; reflexivity).
  assert (Hlast : In (List.last ring cr) (cr :: ring)).
  { destruct ring as [|a r]; [left; reflexivity|].
    right. apply last_in. discriminate. }
  assert (Hwpv : w <> previous (h cr)).
  { rewrite Hpv. intros ->. contradiction. }
  destruct (unblock_heap k w Hwcr Hwpv)
    as (Hq' & Hcr' & Hw' & _ & Hprev & _ & _ & Hnext & Hsame).
  fold cr h in Hq', Hcr', Hw', Hprev, Hnext, Hsame.
  apply List.NoDup_cons_iff in Hndl as [Hwrest Hndrest].
  split; [exact Hcr'|]. split.
  { unfold q', k'. rewrite Hq'.
    apply wait_queue_frame with (h := h); [|exact Hq].
    intros p Hp. apply Hnext.
    - intros ->. contradiction.
    - intros ->. apply (Hdis (previous (h cr))); [right; exact Hp|].
      rewrite Hpv. exact Hlast. }
  split.
  { rewrite <- app_assoc. apply (unblock_ring k w ring); assumption. }
  split.
  { rewrite last_last. exact Hprev. }
  split.
  { change (cr :: ring ++ [w]) with ((cr :: ring) ++ [w]).
    apply List.NoDup_app; [exact Hnd|repeat constructor; simpl; tauto|].
    intros x Hx [<-|[]]. contradiction. }
  split.
  { intros p Hp Hin.
    change (cr :: ring ++ [w]) with ((cr :: ring) ++ [w]) in Hin.
    apply in_app_or in Hin as [Hin|[<-|[]]].
    - apply (Hdis p); [right; exact Hp|exact Hin].
    - contradiction. }
  split; [unfold k'; rewrite Hw'; reflexivity|].
  split; [intros p Hp; apply unblock_state_other; exact Hp|].
  split.
  - intros p Hp. apply Hsame.
    + intros ->. contradiction.
    + intros ->. apply (Hdis cr); [right; exact Hp|left; reflexivity].
    + intros ->. apply (Hdis (previous (h cr))); [right; exact Hp|].
      rewrite Hpv. exact Hlast.
  - intros p Hpw Hp. apply Hsame; [exact Hpw| |].
    + intros ->. apply Hp. left. reflexivity.
    + intros ->. apply Hp. rewrite Hpv. exact Hlast.
Qed.

Lemma barrier_release_spec (l : list ptr) :
  forall (fuel : nat) (q : ptr) (k : kernel) (ring : list ptr),
  wait_queue (pcbs k) q l ->
  List.NoDup l ->
  ring_path (pcbs k) (current_running k) (ring ++ [current_running k]) ->
  previous (pcbs k (current_running k)) = List.last ring (current_running k) ->
  List.NoDup (current_running k :: ring) ->
  (forall p, In p l -> ~ In p (current_running k :: ring)) ->
  length l <= fuel ->
  exists k',
    barrier_release fuel q k = Some (NULL, k')
    /\ current_running k' = current_running k
    /\ ring_path (pcbs k') (current_running k)
                 ((ring ++ l) ++ [current_running k])
    /\ previous (pcbs k' (current_running k))
       = List.last (ring ++ l) (current_running k)
    /\ (forall p, In p l -> state (pcbs k' p) = STATUS_READY)
    /\ (forall p, ~ In p l -> state (pcbs k' p) = state (pcbs k p))
    /\ (forall p, ~ In p l -> ~ In p (current_running k :: ring) ->
                  pcbs k' p = pcbs k p).
Proof.
  induction l as [|w rest IH]; intros fuel q k ring Hq Hndl Hring Hpv Hnd Hdis Hlen.
  - simpl in Hq. subst q. exists k. rewrite app_nil_r.
    split; [destruct fuel; reflexivity|]. repeat split; auto.
    intros p [].
  - pose proof (unblock_step k q w rest ring Hq Hndl Hring Hpv Hnd Hdis)
      as (Hcr & Hq' & Hring' & Hpv' & Hnd' & Hdis' & Hw & Hst & _ & Hfr).
    pose proof Hq as (-> & Hw0 & _).
    destruct fuel as [|fuel]; [simpl in Hlen; lia|].
    cbn [barrier_release].
    destruct (Nat.eqb_spec w NULL) as [->|_]; [contradiction|].
    destruct (unblock w k) as [q' k1] eqn:Hu. cbn [fst snd] in *.
    apply List.NoDup_cons_iff in Hndl as [Hwrest Hndrest].
    rewrite <- Hcr in Hring', Hpv', Hnd', Hdis'.
    destruct (IH fuel q' k1 (ring ++ [w]) Hq' Hndrest Hring' Hpv' Hnd' Hdis')
      as (k' & Hrel & Hcr2 & Hring2 & Hpv2 & Hready & Hother & Hframe).
    { simpl in Hlen. lia. }
    rewrite Hcr in *.
    exists k'. split; [exact Hrel|]. split; [exact Hcr2|].
    rewrite <- !app_assoc in Hring2. rewrite <- app_assoc in Hpv2.
    split; [rewrite <- app_assoc; exact Hring2|]. split; [exact Hpv2|].
    split; [|split].
    + intros p [<-|Hp]; [|apply Hready; exact Hp].
      rewrite Hother by exact Hwrest. exact Hw.
    + intros p Hp. rewrite Hother by (intros Hin; apply Hp; right; exact Hin).
      apply Hst. intros ->. apply Hp. left. reflexivity.
    + intros p Hp Hpr.
      assert (Hpw : p <> w) by (intros ->; apply Hp; left; reflexivity).
      rewrite Hframe.
      * apply Hfr; assumption.
      * intros Hin. apply Hp. right. exact Hin.
      * change (~ In p ((current_running k :: ring) ++ [w])).
        intros Hin. apply in_app_or in Hin as [Hin|[E|[]]]; [|congruence].
        contradiction.
Qed.

Lemma condition_broadcast_release (fuel : nat) :
  forall (c : condition_t) (k : kernel),
  condition_broadcast fuel c k
  = match barrier_release fuel (cond_waiting c) k with
    | Some (q, k') => Some (mk_condition q, k')
    | None => None
    end.
Proof.
  induction fuel as [|fuel IH]; intros [q] k; cbn [cond_waiting].
  - simpl. destruct (q =? NULL); reflexivity.
  - cbn [condition_broadcast barrier_release cond_waiting].
    destruct (q =? NULL); [reflexivity|].
    destruct (unblock q k) as [q' k']. apply IH.
Qed.

(** X9: [condition_signal] on a condition without waiters changes
    nothing.  Otherwise it takes the first waiter off the queue, makes
    it READY and links it into the ring just before the caller; the
    other waiters stay queued, their PCBs untouched, and the caller
    keeps running. *)
Theorem condition_signal_wakes_head (c : condition_t) (k : kernel) :
  let cr := current_running k in
  let h := pcbs k in
  (cond_waiting c = NULL -> condition_signal c k = (c, k))
  /\ (forall w rest ring,
        wait_queue h (cond_waiting c) (w :: rest) ->
        List.NoDup (w :: rest) ->
        ring_path h cr (ring ++ [cr]) ->
        previous (h cr) = List.last ring cr ->
        List.NoDup (cr :: ring) ->
        (forall p, In p (w :: rest) -> ~ In p (cr :: ring)) ->
        let c' := fst (condition_signal c k) in
        let k' := snd (condition_signal c k) in
        wait_queue (pcbs k') (cond_waiting c') rest
        /\ state (pcbs k' w) = STATUS_READY
        /\ current_running k' = cr
        /\ ring_path (pcbs k') cr ((ring ++ [w]) ++ [cr])
        /\ forall p, In p rest -> pcbs k' p = h p).
Proof.
  intros cr h. split.
  - intros H. unfold condition_signal. rewrite H. reflexivity.
  - intros w rest ring Hq Hndl Hring Hpv Hnd Hdis c' k'.
    pose proof (unblock_step k _ w rest ring Hq Hndl Hring Hpv Hnd Hdis)
      as (Hcr & Hq' & Hring' & _ & _ & _ & Hw & _ & Hsame & _).
    pose proof Hq as (Hc & Hw0 & _).
    assert (E : condition_signal c k
                = (mk_condition (fst (unblock (cond_waiting c) k)),
                   snd (unblock (cond_waiting c) k))).
    { unfold condition_signal. rewrite Hc.
      destruct (Nat.eqb_spec w NULL) as [->|_]; [contradiction|].
      cbn [negb]. destruct (unblock w k). reflexivity. }
    unfold c', k'. rewrite E. cbn [fst snd cond_waiting].
    auto.
Qed.

(** X9 on [two_ready_one_blocked]. *)
Lemma condition_signal_wakes_head_witness :
  let r := condition_signal (mk_condition 3) two_ready_one_blocked in
  wait_queue (pcbs (snd r)) (cond_waiting (fst r)) []
  /\ state (pcbs (snd r) 3) = STATUS_READY
  /\ current_running (snd r) = 1
  /\ ring_path (pcbs (snd r)) 1 (([2] ++ [3]) ++ [1])
  /\ forall p, In p [] -> pcbs (snd r) p = pcbs two_ready_one_blocked p.
Proof.
  apply (proj2 (condition_signal_wakes_head (mk_condition 3)
                  two_ready_one_blocked) 3 [] [2]).
  - simpl. unfold NULL. repeat split; lia.
  - repeat constructor; simpl; tauto.
  - simpl. repeat split.
  - reflexivity.
  - repeat constructor; simpl; intuition lia.
  - simpl. intros p [<-|[]]. lia.
Defined.

(** X10: [condition_broadcast] empties the queue of the condition: all
    waiters become READY and are linked into the ring before the caller,
    in the order in which they waited; the caller keeps running and no
    other task changes its state. *)
Theorem condition_broadcast_wakes_all_in_order (fuel : nat) (c : condition_t)
    (k : kernel) (l ring : list ptr) :
  let cr := current_running k in
  let h := pcbs k in
  wait_queue h (cond_waiting c) l ->
  List.NoDup l ->
  ring_path h cr (ring ++ [cr]) ->
  previous (h cr) = List.last ring cr ->
  List.NoDup (cr :: ring) ->
  (forall p, In p l -> ~ In p (cr :: ring)) ->
  length l <= fuel ->
  exists k',
    condition_broadcast fuel c k = Some (mk_condition NULL, k')
    /\ current_running k' = cr
    /\ ring_path (pcbs k') cr ((ring ++ l) ++ [cr])
    /\ (forall p, In p l -> state (pcbs k' p) = STATUS_READY)
    /\ (forall p, ~ In p l -> state (pcbs k' p) = state (h p)).
Proof.
  intros cr h Hq Hndl Hring Hpv Hnd Hdis Hlen.
  destruct (barrier_release_spec l fuel _ k ring Hq Hndl Hring Hpv Hnd Hdis Hlen)
    as (k' & Hrel & Hcr & Hring' & _ & Hready & Hother & _).
  exists k'. rewrite condition_broadcast_release, Hrel. auto.
Qed.

(** X10 on [two_ready_two_blocked]. *)
Lemma condition_broadcast_wakes_all_in_order_witness :
  exists k',
    condition_broadcast 2 (mk_condition 3) two_ready_two_blocked
    = Some (mk_condition NULL, k')
    /\ current_running k' = 1
    /\ ring_path (pcbs k') 1 (([2] ++ [3; 4]) ++ [1])
    /\ (forall p, In p [3; 4] -> state (pcbs k' p) = STATUS_READY)
    /\ (forall p, ~ In p [3; 4] ->
                  state (pcbs k' p) = state (pcbs two_ready_two_blocked p)).
Proof.
  apply (condition_broadcast_wakes_all_in_order 2 (mk_condition 3)
           two_ready_two_blocked [3; 4] [2]).
  - simpl. unfold NULL. repeat split; lia.
  - repeat constructor; simpl; intuition lia.
  - simpl. repeat split.
  - reflexivity.
  - repeat constructor; simpl; intuition lia.
  - simpl. intros p [<-|[<-|[]]]; lia.
  - simpl. lia.
Defined.

(** X6: [lock_acquire] on an UNLOCKED lock sets it LOCKED and returns
    without a switch.  On a LOCKED lock it leaves the status, appends
    the caller at the end of the wait queue of the lock, BLOCKED, and
    runs the successor of the caller in the ring. *)
Theorem lock_acquire_takes_or_queues (fuel : nat) (lk : lock_t) (k : kernel) :
  let cr := current_running k in
  let h := pcbs k in
  (status lk = UNLOCKED ->
   lock_acquire fuel lk k = Some (mk_lock LOCKED (waiting lk), k))
  /\ (forall l n rest,
        status lk = LOCKED ->
        wait_queue h (waiting lk) l -> List.NoDup l -> length l <= fuel ->
        cr <> NULL ->
        ring_path h cr ((n :: rest) ++ [cr]) ->
        previous (h cr) = List.last (n :: rest) cr ->
        List.NoDup (cr :: n :: rest) ->
        (forall p, In p l -> ~ In p (cr :: n :: rest)) ->
        exists lk' k',
          lock_acquire fuel lk k = Some (lk', k')
          /\ status lk' = LOCKED
          /\ wait_queue (pcbs k') (waiting lk') (l ++ [cr])
          /\ pcbs k' cr = mk_pcb STATUS_BLOCKED NULL NULL
          /\ current_running k' = n
          /\ ring_path (pcbs k') n (rest ++ [n])).
Proof.
  intros cr h. split.
  - intros H. unfold lock_acquire, lock_acquire_helper. rewrite H. reflexivity.
  - intros l n rest Hst Hq Hndl Hlen Hcr Hring Hpv Hnd Hdis.
    destruct (block_ring_spec fuel k (waiting lk) n l rest
                Hq Hndl Hlen Hcr Hring Hpv Hnd Hdis)
      as (k' & Hb & Hwq & Hpcb & Hc & Hr & _).
    fold cr in Hb, Hwq, Hpcb.
    exists (mk_lock LOCKED (hd cr l)), k'.
    unfold lock_acquire, lock_acquire_helper. rewrite Hst, Hb.
    split; [reflexivity|]. split; [reflexivity|]. auto.
Qed.

(** X6 on [three_ready]. *)
Lemma lock_acquire_takes_or_queues_witness :
  lock_acquire 0 (mk_lock UNLOCKED NULL) three_ready
  = Some (mk_lock LOCKED NULL, three_ready)
  /\ exists lk' k',
       lock_acquire 0 (mk_lock LOCKED NULL) three_ready = Some (lk', k')
       /\ status lk' = LOCKED
       /\ wait_queue (pcbs k') (waiting lk') ([] ++ [1])
       /\ pcbs k' 1 = mk_pcb STATUS_BLOCKED NULL NULL
       /\ current_running k' = 2
       /\ ring_path (pcbs k') 2 ([3] ++ [2]).
Proof.
  split.
  - apply (proj1 (lock_acquire_takes_or_queues 0 (mk_lock UNLOCKED NULL)
                    three_ready)).
    reflexivity.
  - apply (proj2 (lock_acquire_takes_or_queues 0 (mk_lock LOCKED NULL)
                    three_ready) [] 2 [3]).
    + reflexivity.
    + reflexivity.
    + constructor.
    + simpl. lia.
    + discriminate.
    + simpl. repeat split.
    + reflexivity.
    + repeat constructor; simpl; intuition lia.
    + intros p [].
Defined.

(** X7: [lock_acquire] then [lock_release] on a free lock give back the
    free lock and leave the kernel unchanged.  On a lock that is held
    and has no waiter the caller blocks, and the [lock_release] by the
    task that runs next puts it back READY at its place in the ring:
    every PCB is as before, the lock is LOCKED (handed over) and its
    queue is empty. *)
Theorem lock_acquire_release_roundtrip (fuel : nat) (k : kernel) :
  let cr := current_running k in
  let h := pcbs k in
  let n := next (h cr) in
  (exists l1,
      lock_acquire fuel (mk_lock UNLOCKED NULL) k = Some (l1, k)
      /\ status l1 = LOCKED
      /\ lock_release l1 k = (mk_lock UNLOCKED NULL, k))
  /\ (cr <> NULL -> n <> cr ->
      next (h (previous (h cr))) = cr -> previous (h n) = cr ->
      state (h cr) = STATUS_READY -> state (h n) = STATUS_READY ->
      exists l1 k1 k2,
        lock_acquire fuel (mk_lock LOCKED NULL) k = Some (l1, k1)
        /\ current_running k1 = n
        /\ state (pcbs k1 cr) = STATUS_BLOCKED
        /\ lock_release l1 k1 = (mk_lock LOCKED NULL, k2)
        /\ current_running k2 = n
        /\ forall p, pcbs k2 p = h p).
Proof.
  intros cr h n. split.
  - exists (mk_lock LOCKED NULL). repeat split.
  - intros Hcr Hn Hpv Hnp Hst Hstn.
    destruct (block_unblock_heap fuel k Hn Hpv Hnp Hst Hstn)
      as (k1 & k2 & Hb & Hc1 & Hs1 & Hu & Hc2 & Hsame).
    fold cr h n in Hb, Hc1, Hs1, Hu, Hc2, Hsame.
    exists (mk_lock LOCKED cr), k1, k2.
    unfold lock_acquire, lock_acquire_helper, lock_release.
    cbn [status waiting]. rewrite Hb.
    destruct (Nat.eqb_spec cr NULL) as [E|_]; [contradiction|].
    rewrite Hu. split; [reflexivity|]. auto 10.
Qed.

(** X7 on [three_ready]. *)
Lemma lock_acquire_release_roundtrip_witness :
  exists l1 k1 k2,
    lock_acquire 0 (mk_lock LOCKED NULL) three_ready = Some (l1, k1)
    /\ current_running k1 = 2
    /\ state (pcbs k1 1) = STATUS_BLOCKED
    /\ lock_release l1 k1 = (mk_lock LOCKED NULL, k2)
    /\ current_running k2 = 2
    /\ forall p, pcbs k2 p = pcbs three_ready p.
Proof.
  apply (proj2 (lock_acquire_release_roundtrip 0 three_ready));
    solve [discriminate | reflexivity].
Defined.

(** [semaphore_down] takes 1 from the counter; it returns without a
    switch when the counter was positive, and otherwise appends the
    caller to the queue of the semaphore and runs its ring successor. *)
Lemma semaphore_down_passes_or_queues (fuel : nat) (s : semaphore_t)
    (k : kernel) :
  let cr := current_running k in
  let h := pcbs k in
  ((1 <= counter s)%Z ->
   semaphore_down fuel s k
   = Some (mk_semaphore (counter s - 1) (sem_waiting s), k))
  /\ (forall l n rest,
        (counter s <= 0)%Z ->
        wait_queue h (sem_waiting s) l -> List.NoDup l -> length l <= fuel ->
        cr <> NULL ->
        ring_path h cr ((n :: rest) ++ [cr]) ->
        previous (h cr) = List.last (n :: rest) cr ->
        List.NoDup (cr :: n :: rest) ->
        (forall p, In p l -> ~ In p (cr :: n :: rest)) ->
        exists s' k',
          semaphore_down fuel s k = Some (s', k')
          /\ counter s' = (counter s - 1)%Z
          /\ wait_queue (pcbs k') (sem_waiting s') (l ++ [cr])
          /\ pcbs k' cr = mk_pcb STATUS_BLOCKED NULL NULL
          /\ current_running k' = n
          /\ ring_path (pcbs k') n (rest ++ [n])).
Proof.
  intros cr h. split.
  - intros H. unfold semaphore_down. cbn [counter sem_waiting].
    destruct (Z.ltb_spec (counter s - 1) 0); [lia|]. reflexivity.
  - intros l n rest Hc Hq Hndl Hlen Hcr Hring Hpv Hnd Hdis.
    destruct (block_ring_spec fuel k (sem_waiting s) n l rest
                Hq Hndl Hlen Hcr Hring Hpv Hnd Hdis)
      as (k' & Hb & Hwq & Hpcb & Hc' & Hr & _).
    fold cr in Hb, Hwq, Hpcb.
    exists (mk_semaphore (counter s - 1) (hd cr l)), k'.
    unfold semaphore_down. cbn [counter sem_waiting].
    destruct (Z.ltb_spec (counter s - 1) 0); [|lia].
    rewrite Hb. split; [reflexivity|]. split; [reflexivity|]. auto.
Qed.

(** [semaphore_down] on [three_ready]. *)
Lemma semaphore_down_passes_or_queues_witness :
  semaphore_down 0 (semaphore_init 1) three_ready
  = Some (mk_semaphore 0 NULL, three_ready)
  /\ exists s' k',
       semaphore_down 0 (semaphore_init 0) three_ready = Some (s', k')
       /\ counter s' = (-1)%Z
       /\ wait_queue (pcbs k') (sem_waiting s') ([] ++ [1])
       /\ pcbs k' 1 = mk_pcb STATUS_BLOCKED NULL NULL
       /\ current_running k' = 2
       /\ ring_path (pcbs k') 2 ([3] ++ [2]).
Proof.
  split.
  - apply (proj1 (semaphore_down_passes_or_queues 0 (semaphore_init 1)
                    three_ready)).
    simpl. lia.
  - apply (proj2 (semaphore_down_passes_or_queues 0 (semaphore_init 0)
                    three_ready) [] 2 [3]).
    + simpl. lia.
    + reflexivity.
    + constructor.
    + simpl. lia.
    + discriminate.
    + simpl. repeat split.
    + reflexivity.
    + repeat constructor; simpl; intuition lia.
    + intros p [].
Defined.

(** X11: [semaphore_up] adds 1 to the counter.  It releases no task when
    the counter was below -1 or no task waits; when the counter was at
    least -1 and tasks wait, it makes the first waiter READY at the end
    of the ring and leaves the others queued, their PCBs untouched. *)
Theorem semaphore_up_releases_head (s : semaphore_t) (k : kernel) :
  let cr := current_running k in
  let h := pcbs k in
  ((counter s < -1)%Z \/ sem_waiting s = NULL ->
   semaphore_up s k = (mk_semaphore (counter s + 1) (sem_waiting s), k))
  /\ (forall w rest ring,
        (-1 <= counter s)%Z ->
        wait_queue h (sem_waiting s) (w :: rest) ->
        List.NoDup (w :: rest) ->
        ring_path h cr (ring ++ [cr]) ->
        previous (h cr) = List.last ring cr ->
        List.NoDup (cr :: ring) ->
        (forall p, In p (w :: rest) -> ~ In p (cr :: ring)) ->
        let s' := fst (semaphore_up s k) in
        let k' := snd (semaphore_up s k) in
        counter s' = (counter s + 1)%Z
        /\ wait_queue (pcbs k') (sem_waiting s') rest
        /\ state (pcbs k' w) = STATUS_READY
        /\ current_running k' = cr
        /\ ring_path (pcbs k') cr ((ring ++ [w]) ++ [cr])
        /\ forall p, In p rest -> pcbs k' p = h p).
Proof.
  intros cr h. split.
  - intros H. unfold semaphore_up. cbn [counter sem_waiting].
    destruct (Z.geb_spec (counter s + 1) 0) as [Hge|Hlt]; [|reflexivity].
    destruct H as [H|H]; [lia|]. rewrite H. reflexivity.
  - intros w rest ring Hc Hq Hndl Hring Hpv Hnd Hdis s' k'.
    pose proof (unblock_step k _ w rest ring Hq Hndl Hring Hpv Hnd Hdis)
      as (Hcr & Hq' & Hring' & _ & _ & _ & Hw & _ & Hsame & _).
    pose proof Hq as (Hs & Hw0 & _).
    assert (E : semaphore_up s k
                = (mk_semaphore (counter s + 1)
                                (fst (unblock (sem_waiting s) k)),
                   snd (unblock (sem_waiting s) k))).
    { unfold semaphore_up. cbn [counter sem_waiting].
      destruct (Z.geb_spec (counter s + 1) 0) as [Hge|Hlt]; [|lia].
      rewrite Hs.
      destruct (Nat.eqb_spec w NULL) as [->|_]; [contradiction|].
      cbn [negb]. destruct (unblock w k). reflexivity. }
    unfold s', k'. rewrite E. cbn [fst snd counter sem_waiting].
    split; [reflexivity|]. auto 10.
Qed.

(** X11 on [two_ready_one_blocked]. *)
Lemma semaphore_up_releases_head_witness :
  let r := semaphore_up (mk_semaphore (-1) 3) two_ready_one_blocked in
  counter (fst r) = 0%Z
  /\ wait_queue (pcbs (snd r)) (sem_waiting (fst r)) []
  /\ state (pcbs (snd r) 3) = STATUS_READY
  /\ current_running (snd r) = 1
  /\ ring_path (pcbs (snd r)) 1 (([2] ++ [3]) ++ [1])
  /\ forall p, In p [] -> pcbs (snd r) p = pcbs two_ready_one_blocked p.
Proof.
  apply (proj2 (semaphore_up_releases_head (mk_semaphore (-1) 3)
                  two_ready_one_blocked) 3 [] [2]).
  - simpl. lia.
  - simpl. unfold NULL. repeat split; lia.
  - repeat constructor; simpl; tauto.
  - simpl. repeat split.
  - reflexivity.
  - repeat constructor; simpl; intuition lia.
  - simpl. intros p [<-|[]]. lia.
Defined.

(** X12: [semaphore_down] then [semaphore_up] on a semaphore initialised
    to [v >= 1] give back the semaphore and leave the kernel unchanged.
    With [v = 0] the caller blocks, and the [semaphore_up] by the task
    that runs next restores the semaphore and every PCB. *)
Theorem semaphore_down_up_roundtrip (fuel : nat) (v : Z) (k : kernel) :
  let cr := current_running k in
  let h := pcbs k in
  let n := next (h cr) in
  ((1 <= v)%Z ->
   exists s1,
     semaphore_down fuel (semaphore_init v) k = Some (s1, k)
     /\ semaphore_up s1 k = (semaphore_init v, k))
  /\ (v = 0%Z -> cr <> NULL -> n <> cr ->
      next (h (previous (h cr))) = cr -> previous (h n) = cr ->
      state (h cr) = STATUS_READY -> state (h n) = STATUS_READY ->
      exists s1 k1 k2,
        semaphore_down fuel (semaphore_init v) k = Some (s1, k1)
        /\ current_running k1 = n
        /\ state (pcbs k1 cr) = STATUS_BLOCKED
        /\ semaphore_up s1 k1 = (semaphore_init v, k2)
        /\ current_running k2 = n
        /\ forall p, pcbs k2 p = h p).
Proof.
  intros cr h n. split.
  - intros Hv. exists (mk_semaphore (v - 1) NULL).
    unfold semaphore_down, semaphore_up, semaphore_init.
    cbn [counter sem_waiting].
    destruct (Z.ltb_spec (v - 1) 0); [lia|].
    destruct (Z.geb_spec (v - 1 + 1) 0); [|lia].
    cbn. split; [reflexivity|]. do 2 f_equal. lia.
  - intros -> Hcr Hn Hpv Hnp Hst Hstn.
    destruct (block_unblock_heap fuel k Hn Hpv Hnp Hst Hstn)
      as (k1 & k2 & Hb & Hc1 & Hs1 & Hu & Hc2 & Hsame).
    fold cr h n in Hb, Hc1, Hs1, Hu, Hc2, Hsame.
    exists (mk_semaphore (-1) cr), k1, k2.
    assert (Edown : semaphore_down fuel (semaphore_init 0) k
                    = Some (mk_semaphore (-1) cr, k1)).
    { unfold semaphore_down, semaphore_init. cbn [counter sem_waiting].
      change (0 - 1 <? 0)%Z with true. cbv iota. rewrite Hb. reflexivity. }
    assert (Eup : semaphore_up (mk_semaphore (-1) cr) k1
                  = (semaphore_init 0, k2)).
    { unfold semaphore_up, semaphore_init. cbn [counter sem_waiting].
      change (-1 + 1 >=? 0)%Z with true. cbv iota.
      destruct (Nat.eqb_spec cr NULL) as [E|_]; [contradiction|].
      cbn [negb]. rewrite Hu. reflexivity. }
    auto 10.
Qed.

(** X12 on [three_ready]. *)
Lemma semaphore_down_up_roundtrip_witness :
  exists s1 k1 k2,
    semaphore_down 0 (semaphore_init 0) three_ready = Some (s1, k1)
    /\ current_running k1 = 2
    /\ state (pcbs k1 1) = STATUS_BLOCKED
    /\ semaphore_up s1 k1 = (semaphore_init 0, k2)
    /\ current_running k2 = 2
    /\ forall p, pcbs k2 p = pcbs three_ready p.
Proof.
  apply (proj2 (semaphore_down_up_roundtrip 0 0 three_ready));
    solve [discriminate | reflexivity].
Defined.

(** X13: [barrier_wait] by the task that completes the barrier (the
    counter reaches [reach]) resets the counter to 0, releases all
    waiting tasks into the ring in the order in which they arrived, and
    goes on running.  Any other call counts the caller and blocks it at
    the end of the queue of the barrier. *)
Theorem barrier_wait_releases_or_queues (fuel : nat) (b : barrier_t)
    (k : kernel) (l : list ptr) :
  let cr := current_running k in
  let h := pcbs k in
  wait_queue h (bar_waiting b) l -> List.NoDup l -> length l <= fuel ->
  (forall ring,
     (bar_counter b + 1 = reach b)%Z ->
     ring_path h cr (ring ++ [cr]) ->
     previous (h cr) = List.last ring cr ->
     List.NoDup (cr :: ring) ->
     (forall p, In p l -> ~ In p (cr :: ring)) ->
     exists k',
       barrier_wait fuel b k = Some (mk_barrier 0 (reach b) NULL, k')
       /\ current_running k' = cr
       /\ state (pcbs k' cr) = state (h cr)
       /\ ring_path (pcbs k') cr ((ring ++ l) ++ [cr])
       /\ forall p, In p l -> state (pcbs k' p) = STATUS_READY)
  /\ (forall n rest,
        (bar_counter b + 1 <> reach b)%Z ->
        cr <> NULL ->
        ring_path h cr ((n :: rest) ++ [cr]) ->
        previous (h cr) = List.last (n :: rest) cr ->
        List.NoDup (cr :: n :: rest) ->
        (forall p, In p l -> ~ In p (cr :: n :: rest)) ->
        exists q' k',
          barrier_wait fuel b k
          = Some (mk_barrier (bar_counter b + 1) (reach b) q', k')
          /\ wait_queue (pcbs k') q' (l ++ [cr])
          /\ pcbs k' cr = mk_pcb STATUS_BLOCKED NULL NULL
          /\ current_running k' = n
          /\ ring_path (pcbs k') n (rest ++ [n])).
Proof.
  intros cr h Hq Hndl Hlen. split.
  - intros ring Hc Hring Hpv Hnd Hdis.
    destruct (barrier_release_spec l fuel _ k ring Hq Hndl Hring Hpv Hnd Hdis Hlen)
      as (k' & Hrel & Hcr & Hring' & _ & Hready & Hother & _).
    exists k'. unfold barrier_wait. cbn [bar_counter reach bar_waiting].
    destruct (Z.eqb_spec (bar_counter b + 1) (reach b)); [|contradiction].
    rewrite Hrel. split; [reflexivity|]. split; [exact Hcr|].
    split; [|auto].
    apply Hother. intros Hin. apply (Hdis _ Hin). left. reflexivity.
  - intros n rest Hc Hcr Hring Hpv Hnd Hdis.
    destruct (block_ring_spec fuel k (bar_waiting b) n l rest
                Hq Hndl Hlen Hcr Hring Hpv Hnd Hdis)
      as (k' & Hb & Hwq & Hpcb & Hc' & Hr & _).
    fold cr in Hb, Hwq, Hpcb.
    exists (hd cr l), k'. unfold barrier_wait.
    cbn [bar_counter reach bar_waiting].
    destruct (Z.eqb_spec (bar_counter b + 1) (reach b)); [contradiction|].
    rewrite Hb. split; [reflexivity|]. auto.
Qed.

(** X13 on [two_ready_two_blocked] and [three_ready]. *)
Lemma barrier_wait_releases_or_queues_witness :
  (exists k',
     barrier_wait 2 (mk_barrier 2 3 3) two_ready_two_blocked
     = Some (mk_barrier 0 3 NULL, k')
     /\ current_running k' = 1
     /\ state (pcbs k' 1) = state (pcbs two_ready_two_blocked 1)
     /\ ring_path (pcbs k') 1 (([2] ++ [3; 4]) ++ [1])
     /\ forall p, In p [3; 4] -> state (pcbs k' p) = STATUS_READY)
  /\ (exists q' k',
        barrier_wait 0 (barrier_init 3) three_ready
        = Some (mk_barrier (0 + 1) 3 q', k')
        /\ wait_queue (pcbs k') q' ([] ++ [1])
        /\ pcbs k' 1 = mk_pcb STATUS_BLOCKED NULL NULL
        /\ current_running k' = 2
        /\ ring_path (pcbs k') 2 ([3] ++ [2])).
Proof.
  split.
  - apply (proj1 (barrier_wait_releases_or_queues 2 (mk_barrier 2 3 3)
                    two_ready_two_blocked [3; 4]
                    ltac:(simpl; unfold NULL; repeat split; lia)
                    ltac:(repeat constructor; simpl; intuition lia)
                    ltac:(simpl; lia)) [2]).
    + reflexivity.
    + simpl. repeat split.
    + reflexivity.
    + repeat constructor; simpl; intuition lia.
    + simpl. intros p [<-|[<-|[]]]; lia.
  - apply (proj2 (barrier_wait_releases_or_queues 0 (barrier_init 3)
                    three_ready []
                    ltac:(reflexivity) ltac:(constructor)
                    ltac:(simpl; lia)) 2 [3]).
    + simpl. lia.
    + discriminate.
    + simpl. repeat split.
    + reflexivity.
    + repeat constructor; simpl; intuition lia.
    + intros p [].
Defined.

End SyncFacts.

(** ** Mailboxes *)

Module MboxFacts.
Import Sched Sync Mbox SchedFacts.

Lemma condition_broadcast_returns (l : list ptr) :
  forall (fuel : nat) (c : condition_t) (k : kernel),
  releasable k (cond_waiting c) l -> (length l <= fuel)%nat ->
  exists k', condition_broadcast fuel c k = Some (mk_condition NULL, k').
Proof.
  induction l as [|w rest IH]; intros fuel c k (Hq & Hnd & Hcr & Hpv) Hlen.
  - simpl in Hq. destruct c as [q]. simpl in Hq. subst q.
    exists k. destruct fuel; reflexivity.
  - destruct Hq as (Hw & Hw0 & Hq).
    destruct fuel as [|fuel]; [simpl in Hlen; lia|].
    cbn [condition_broadcast]. rewrite Hw.
    destruct (Nat.eqb_spec w NULL) as [->|_]; [contradiction|].
    assert (Hwcr : w <> current_running k)
      by (intros ->; apply Hcr; left; reflexivity).
    assert (Hwpv : w <> previous (pcbs k (current_running k)))
      by (intros ->; apply Hpv; left; reflexivity).
    destruct (unblock_heap k w Hwcr Hwpv)
      as (Hq' & Hcr' & _ & _ & Hprev & _ & _ & Hnext & _).
    destruct (unblock w k) as [q' k'] eqn:Hu. cbn [fst snd] in *.
    inversion Hnd as [|? ? Hnw Hnd']; subst.
    apply IH; [|simpl in Hlen; lia].
    cbn [cond_waiting]. split; [|split; [exact Hnd'|split]].
    + apply wait_queue_frame with (h := pcbs k); [|exact Hq].
      intros p Hp. apply Hnext.
      * intros ->. contradiction.
      * intros ->. apply Hpv. right. exact Hp.
    + rewrite Hcr'. intros Hin. apply Hcr. right. exact Hin.
    + rewrite Hcr', Hprev. exact Hnw.
Qed.

Section WithParams.
Context {P : mbox_params}.

Lemma ring_index_inj (start i j : Z) :
  0 <= start -> 0 <= i -> 0 <= j -> i <> j -> Z.abs (i - j) < BUFFER_SIZE ->
  Z.rem (start + i) BUFFER_SIZE <> Z.rem (start + j) BUFFER_SIZE.
Proof.
  intros Hs Hi Hj Hne Hd. pose proof BUFFER_SIZE_pos as HB.
  rewrite !Z.rem_mod_nonneg by lia. intros Heq.
  assert (HB0 : BUFFER_SIZE <> 0) by lia.
  pose proof (Z.div_mod (start + i) BUFFER_SIZE HB0) as H1.
  pose proof (Z.div_mod (start + j) BUFFER_SIZE HB0) as H2.
  set (d := (start + i) / BUFFER_SIZE - (start + j) / BUFFER_SIZE).
  assert (Hd' : i - j = BUFFER_SIZE * d) by (unfold d; lia).
  assert (Hc : d = 0 \/ 1 <= d \/ d <= -1) by lia.
  destruct Hc as [Hc|[Hc|Hc]]; [rewrite Hc in Hd'; lia|nia|nia].
Qed.

Lemma ring_index_range (start i : Z) :
  0 <= start -> 0 <= i ->
  0 <= Z.rem (start + i) BUFFER_SIZE < BUFFER_SIZE.
Proof.
  intros Hs Hi. pose proof BUFFER_SIZE_pos as HB.
  rewrite Z.rem_mod_nonneg by lia. apply Z.mod_pos_bound. lia.
Qed.

Lemma send_copy_spec (start : Z) (m : list Z) (n : nat) :
  forall (i0 : Z) (buf : list Z),
  0 <= start -> 0 <= i0 -> i0 + Z.of_nat n <= BUFFER_SIZE ->
  Z.of_nat (length buf) = BUFFER_SIZE ->
  length (send_copy n i0 start m buf) = length buf
  /\ forall j, 0 <= j < i0 + Z.of_nat n ->
       load (send_copy n i0 start m buf) (Z.rem (start + j) BUFFER_SIZE)
       = if j <? i0 then load buf (Z.rem (start + j) BUFFER_SIZE)
         else load m j.
Proof.
  induction n as [|n IH]; intros i0 buf Hs Hi Hn Hlen.
  - simpl. split; [reflexivity|]. intros j Hj.
    destruct (Z.ltb_spec j i0); [reflexivity|lia].
  - cbn [send_copy].
    destruct (IH (i0 + 1) (store buf (Z.rem (start + i0) BUFFER_SIZE) (load m i0)))
      as (Hl & Hj); try lia.
    { rewrite length_store. exact Hlen. }
    rewrite length_store in Hl. split; [exact Hl|].
    intros j Hjr. rewrite Hj by lia.
    destruct (Z.ltb_spec j (i0 + 1)); destruct (Z.ltb_spec j i0); try lia.
    + apply load_store_ne. apply ring_index_inj; lia.
    + replace j with i0 by lia. apply load_store_eq.
      rewrite Hlen. apply ring_index_range; lia.
Qed.

Lemma recv_copy_spec (start : Z) (buf : list Z) (n : nat) :
  forall (i0 : Z) (m : list Z),
  0 <= i0 -> i0 + Z.of_nat n <= Z.of_nat (length m) ->
  length (recv_copy n i0 start buf m) = length m
  /\ forall j,
       load (recv_copy n i0 start buf m) j
       = if (i0 <=? j) && (j <? i0 + Z.of_nat n)
         then load buf (Z.rem (start + j) BUFFER_SIZE)
         else load m j.
Proof.
  induction n as [|n IH]; intros i0 m Hi Hn.
  - split; [reflexivity|]. intros j. cbn [recv_copy].
    destruct ((i0 <=? j) && (j <? i0 + Z.of_nat 0)) eqn:E; [|reflexivity].
    rewrite andb_true_iff, Z.leb_le, Z.ltb_lt in E. lia.
  - cbn [recv_copy].
    destruct (IH (i0 + 1)
                 (store m i0 (load buf (Z.rem (start + i0) BUFFER_SIZE))))
      as (Hl & Hj); try lia.
    { rewrite length_store. lia. }
    rewrite length_store in Hl. split; [exact Hl|].
    intros j. rewrite Hj.
    destruct ((i0 + 1 <=? j) && (j <? i0 + 1 + Z.of_nat n)) eqn:E1;
      destruct ((i0 <=? j) && (j <? i0 + Z.of_nat (S n))) eqn:E2;
      bools.
    all: try reflexivity; try lia.
    all: try (apply load_store_ne; lia).
    all: replace j with i0 by lia; apply load_store_eq; lia.
Qed.

Lemma mbox_acquire_free (fuel : nat) (q : Z) (k : kernel) (Q : list mbox_t) :
  0 <= q < MAX_MBOX ->
  l (aget no_mbox Q q) = mk_lock UNLOCKED NULL ->
  mbox_acquire fuel q k Q
  = Returns tt k
      (aset Q q (with_l (aget no_mbox Q q) (mk_lock LOCKED NULL))).
Proof.
  intros Hq Hl. unfold mbox_acquire.
  destruct (Z.ltb_spec q 0); [lia|].
  destruct (Z.geb_spec q MAX_MBOX); [lia|]. cbn [orb].
  rewrite Hl. reflexivity.
Qed.

Lemma mbox_release_held (q : Z) (k : kernel) (Q : list mbox_t) :
  l (aget no_mbox Q q) = mk_lock LOCKED NULL ->
  mbox_release q k Q
  = (k, aset Q q (with_l (aget no_mbox Q q) (mk_lock UNLOCKED NULL))).
Proof. intros Hl. unfold mbox_release. rewrite Hl. reflexivity. Qed.

Lemma space_available_empty (mb : mbox_t) :
  count mb = 0 -> head mb = tail mb -> space_available mb = BUFFER_SIZE.
Proof.
  intros Hc Hh. unfold space_available. rewrite Hc, Hh, Z.eqb_refl.
  cbn [Z.eqb negb andb]. rewrite Z.gtb_ltb, Z.ltb_irrefl. lia.
Qed.

Lemma msg_size_ext (m m' : list Z) :
  (forall j, 0 <= j < 4 -> load m' j = load m j) -> msg_size m' = msg_size m.
Proof.
  intros H. unfold msg_size. rewrite !H by lia. reflexivity.
Qed.

(** C5: on a mailbox with no message, a free lock and well-formed
    condition queues, [mbox_send (q, m)] returns, and the [mbox_recv
    (q, m2)] that follows it (whatever has run in between, as long as the
    mailbox is not touched) returns with the header and the payload of
    [m] in [m2]. *)
Theorem send_then_recv_returns_message (fuel : nat) (q : Z) (m m2 : list Z)
    (k k' : kernel) (Q : list mbox_t) (datawait spacewait : list ptr) :
  let mb := aget no_mbox Q q in
  let sz := msg_size m in
  0 <= q < MAX_MBOX -> q < Z.of_nat (length Q) ->
  l mb = mk_lock UNLOCKED NULL ->
  count mb = 0 -> head mb = tail mb -> 0 <= tail mb < BUFFER_SIZE ->
  Z.of_nat (length (buffer mb)) = BUFFER_SIZE ->
  0 <= sz -> SIZEOF_PTR + sz <= BUFFER_SIZE ->
  SIZEOF_PTR + sz <= Z.of_nat (length m) ->
  SIZEOF_PTR + sz <= Z.of_nat (length m2) ->
  releasable k (cond_waiting (moreData mb)) datawait ->
  (length datawait <= fuel)%nat ->
  releasable k' (cond_waiting (moreSpace mb)) spacewait ->
  (length spacewait <= fuel)%nat ->
  exists k1 Q1 k3 Q3 m2',
    mbox_send fuel q m k Q = Returns 1 k1 Q1
    /\ mbox_recv fuel q m2 k' Q1 = Returns (1, m2') k3 Q3
    /\ msg_size m2' = sz
    /\ firstn (Z.to_nat (SIZEOF_PTR + sz)) m2'
       = firstn (Z.to_nat (SIZEOF_PTR + sz)) m.
Proof.
  intros mb sz Hq HqQ Hl Hcount Hhead Htail Hbuf Hsz Hfit Hm Hm2
         Hdata Hdlen Hspace Hslen.
  pose proof BUFFER_SIZE_pos as HB. unfold SIZEOF_PTR in *.
  (* the send *)
  set (mbL := with_l mb (mk_lock LOCKED NULL)).
  set (buf' := send_copy (Z.to_nat (4 + sz)) 0 (head mb) m (buffer mb)).
  set (mb1 := with_ring mbL (count mbL + 1)
                        (Z.rem (head mbL + (4 + sz)) BUFFER_SIZE)
                        (tail mbL) buf').
  destruct (condition_broadcast_returns datawait fuel (moreData mb1) k Hdata Hdlen)
    as (k1 & Hbd).
  set (mbD := with_moreData mb1 (mk_condition NULL)).
  set (mbF := with_l mbD (mk_lock UNLOCKED NULL)).
  set (Q1 := aset (aset (aset Q q mbL) q mbD) q mbF).
  assert (Hsend : mbox_send fuel q m k Q = Returns 1 k1 Q1).
  { unfold mbox_send. rewrite mbox_acquire_free by assumption.
    fold mb. fold mbL. rewrite aget_aset_eq by lia.
    rewrite (space_available_empty mbL) by assumption.
    unfold SIZEOF_PTR. fold sz.
    destruct (Z.gtb_spec (4 + sz) BUFFER_SIZE); [lia|].
    change (send_copy (Z.to_nat (4 + sz)) 0 (head mbL) m (buffer mbL))
      with buf'.
    fold mb1. rewrite Hbd.
    rewrite mbox_release_held
      by (rewrite aget_aset_eq by (rewrite length_aset; lia); reflexivity).
    rewrite aget_aset_eq by (rewrite length_aset; lia). reflexivity. }
  (* the buffer after the send *)
  destruct (send_copy_spec (head mb) m (Z.to_nat (4 + sz)) 0 (buffer mb))
    as (Hblen & Hbytes); try lia.
  fold buf' in Hblen, Hbytes.
  assert (Hring : forall j, 0 <= j < 4 + sz ->
            load buf' (Z.rem (tail mb + j) BUFFER_SIZE) = load m j).
  { intros j Hj. rewrite <- Hhead. rewrite Hbytes by lia.
    destruct (Z.ltb_spec j 0); [lia|reflexivity]. }
  (* the receive *)
  assert (HF : aget no_mbox Q1 q = mbF).
  { unfold Q1. apply aget_aset_eq. rewrite !length_aset. lia. }
  set (mbL' := with_l mbF (mk_lock LOCKED NULL)).
  set (m1 := recv_copy (Z.to_nat 4) 0 (tail mb) buf' m2).
  destruct (recv_copy_spec (tail mb) buf' (Z.to_nat 4) 0 m2)
    as (Hm1len & Hm1); try lia.
  fold m1 in Hm1len, Hm1.
  assert (Hsz1 : msg_size m1 = sz).
  { apply msg_size_ext. intros j Hj. rewrite Hm1.
    destruct (Z.leb_spec 0 j); [|lia].
    destruct (Z.ltb_spec j (0 + Z.of_nat (Z.to_nat 4))); [|lia].
    apply Hring. lia. }
  set (m2' := recv_copy (Z.to_nat (4 + sz)) 0 (tail mb) buf' m1).
  destruct (recv_copy_spec (tail mb) buf' (Z.to_nat (4 + sz)) 0 m1)
    as (Hm2len & Hm2'); try lia.
  fold m2' in Hm2len, Hm2'.
  assert (Hload : forall j, 0 <= j < 4 + sz -> load m2' j = load m j).
  { intros j Hj. rewrite Hm2'.
    destruct (Z.leb_spec 0 j); [|lia].
    destruct (Z.ltb_spec j (0 + Z.of_nat (Z.to_nat (4 + sz)))); [|lia].
    apply Hring. lia. }
  set (mb2 := with_ring mbL' (count mbL' - 1) (head mbL')
                        (Z.rem (tail mbL' + (4 + sz)) BUFFER_SIZE)
                        (buffer mbL')).
  destruct (condition_broadcast_returns spacewait fuel (moreSpace mb2) k' Hspace Hslen)
    as (k3 & Hbs).
  set (mbS := with_moreSpace mb2 (mk_condition NULL)).
  set (Q3 := aset (aset (aset Q1 q mbL') q mbS) q
                  (with_l mbS (mk_lock UNLOCKED NULL))).
  exists k1, Q1, k3, Q3, m2'. split; [exact Hsend|]. split.
  { unfold mbox_recv. rewrite mbox_acquire_free; [|assumption|rewrite HF; reflexivity].
    rewrite HF. fold mbL'.
    rewrite aget_aset_eq by (unfold Q1; rewrite !length_aset; lia).
    replace (count mbL' <=? 0) with false
      by (cbn; rewrite Hcount; reflexivity).
    change (tail mbL') with (tail mb). change (buffer mbL') with buf'.
    unfold SIZEOF_PTR. fold m1. rewrite Hsz1. fold m2'.
    change (with_ring mbL' (count mbL' - 1) (head mbL')
              (Z.rem (tail mb + (4 + sz)) BUFFER_SIZE) buf') with mb2.
    rewrite Hbs.
    rewrite mbox_release_held
      by (rewrite aget_aset_eq
            by (unfold Q1; rewrite !length_aset; lia); reflexivity).
    rewrite aget_aset_eq by (unfold Q1; rewrite !length_aset; lia).
    reflexivity. }
  split.
  { rewrite <- Hsz1. apply msg_size_ext. intros j Hj.
    rewrite Hload by lia. rewrite Hm1.
    destruct (Z.leb_spec 0 j); [|lia].
    destruct (Z.ltb_spec j (0 + Z.of_nat (Z.to_nat 4))); [|lia].
    symmetry. apply Hring. lia. }
  apply list_eq_load.
  - rewrite !length_take. lia.
  - intros i Hi. rewrite length_take in Hi.
    rewrite !load_firstn by lia. apply Hload. lia.
Qed.

End WithParams.

(** C5 on a fresh mailbox: the message "hi" (header 2 0 0 0) sent to
    mailbox 0 and received from it. *)
Lemma send_then_recv_returns_message_witness :
  let m := [2; 0; 0; 0; 104; 105] in
  let m2 := [0; 0; 0; 0; 0; 0] in
  let k := two_ready_one_blocked in
  exists k1 Q1 k3 Q3 m2',
    mbox_send (P := small_ring) 0 0 m k fresh_boxes = Returns 1 k1 Q1
    /\ mbox_recv (P := small_ring) 0 0 m2 k Q1 = Returns (1, m2') k3 Q3
    /\ msg_size m2' = msg_size m
    /\ firstn (Z.to_nat (SIZEOF_PTR + msg_size m)) m2'
       = firstn (Z.to_nat (SIZEOF_PTR + msg_size m)) m.
Proof.
  intros m m2 k.
  apply (send_then_recv_returns_message (P := small_ring) 0 0 m m2 k k
           fresh_boxes [] []).
  - simpl. lia.
  - simpl. lia.
  - reflexivity.
  - reflexivity.
  - reflexivity.
  - simpl. lia.
  - reflexivity.
  - vm_compute. discriminate.
  - vm_compute. discriminate.
  - vm_compute. discriminate.
  - vm_compute. discriminate.
  - repeat split; simpl; try tauto. constructor.
  - simpl. lia.
  - repeat split; simpl; try tauto. constructor.
  - simpl. lia.
Defined.

(** *** [condition_wait] *)

Import SyncFacts.

Section ConditionWait.
Local Open Scope nat_scope.

(** X8: [condition_wait (m, c)], up to the switch, releases [m] and
    queues the caller on [c]: a lock without waiters becomes UNLOCKED;
    of a lock with waiters the first one becomes READY at the end of the
    ring and the lock keeps its status.  In both cases the caller is
    appended to the queue of [c], BLOCKED, and its ring successor runs. *)
Theorem condition_wait_releases_and_queues (fuel : nat) (m : lock_t)
    (c : condition_t) (k : kernel) (lc : list ptr) (n : ptr)
    (rest : list ptr) :
  let cr := current_running k in
  let h := pcbs k in
  wait_queue h (cond_waiting c) lc -> List.NoDup lc -> length lc <= fuel ->
  cr <> NULL ->
  ring_path h cr ((n :: rest) ++ [cr]) ->
  previous (h cr) = List.last (n :: rest) cr ->
  List.NoDup (cr :: n :: rest) ->
  (forall p, In p lc -> ~ In p (cr :: n :: rest)) ->
  (waiting m = NULL ->
   exists c' k',
     condition_wait fuel m c k = Some (mk_lock UNLOCKED NULL, c', k')
     /\ wait_queue (pcbs k') (cond_waiting c') (lc ++ [cr])
     /\ pcbs k' cr = mk_pcb STATUS_BLOCKED NULL NULL
     /\ current_running k' = n
     /\ ring_path (pcbs k') n (rest ++ [n]))
  /\ (forall w lw,
        wait_queue h (waiting m) (w :: lw) -> List.NoDup (w :: lw) ->
        (forall p, In p (w :: lw) -> ~ In p (cr :: n :: rest)) ->
        (forall p, In p (w :: lw) -> ~ In p lc) ->
        exists m' c' k',
          condition_wait fuel m c k = Some (m', c', k')
          /\ status m' = status m
          /\ wait_queue (pcbs k') (waiting m') lw
          /\ state (pcbs k' w) = STATUS_READY
          /\ wait_queue (pcbs k') (cond_waiting c') (lc ++ [cr])
          /\ pcbs k' cr = mk_pcb STATUS_BLOCKED NULL NULL
          /\ current_running k' = n
          /\ ring_path (pcbs k') n ((rest ++ [w]) ++ [n])).
Proof.
  intros cr h Hq Hndl Hlen Hcr Hring Hpv Hnd Hdis. split.
  - intros Hm.
    destruct (block_ring_spec fuel k (cond_waiting c) n lc rest
                Hq Hndl Hlen Hcr Hring Hpv Hnd Hdis)
      as (k' & Hb & Hwq & Hpcb & Hc' & Hr & _).
    fold cr in Hb, Hwq, Hpcb.
    exists (mk_condition (hd cr lc)), k'.
    unfold condition_wait, lock_release. rewrite Hm. cbn [Nat.eqb NULL].
    change 0 with NULL. rewrite Hb. auto 10.
  - intros w lw Hqm Hndm Hdism Hdismc. subst cr h.
    set (cr := current_running k) in *.
    set (h := pcbs k) in *.
    pose proof (unblock_step k _ w lw (n :: rest) Hqm Hndm Hring Hpv Hnd Hdism)
      as (Hcr1 & Hq1 & Hring1 & Hpv1 & Hnd1 & Hdis1 & Hw1 & Hst1 & Hsame1 & _).
    pose proof Hqm as (Hm & Hw0 & _).
    assert (Hwring : ~ In w (cr :: n :: rest)) by (apply Hdism; left; reflexivity).
    assert (Hwcr : w <> cr) by (intros ->; apply Hwring; left; reflexivity).
    assert (Hpvin : In (previous (h cr)) (cr :: n :: rest)).
    { rewrite Hpv. right. apply last_in. discriminate. }
    assert (Hwpv : w <> previous (h cr)).
    { intros E. apply Hwring. rewrite E. exact Hpvin. }
    destruct (unblock_heap k w Hwcr Hwpv)
      as (_ & _ & _ & _ & _ & _ & _ & Hnext & Hsame).
    fold cr h in Hnext, Hsame.
    assert (Hrel : lock_release m k
                   = (mk_lock (status m) (fst (unblock w k)),
                      snd (unblock w k))).
    { unfold lock_release. rewrite Hm.
      destruct (Nat.eqb_spec w NULL) as [->|_]; [contradiction|].
      destruct (unblock w k). reflexivity. }
    rewrite Hm in *.
    set (k1 := snd (unblock w k)) in *.
    assert (Hq1c : wait_queue (pcbs k1) (cond_waiting c) lc).
    { apply wait_queue_frame with (h := h); [|exact Hq].
      intros p Hp. apply Hnext.
      - intros ->. apply (Hdismc w); [left; reflexivity|exact Hp].
      - intros ->. apply (Hdis _ Hp). exact Hpvin. }
    assert (Hdis1c : forall p, In p lc ->
                       ~ In p (current_running k1 :: n :: rest ++ [w])).
    { intros p Hp Hin. rewrite Hcr1 in Hin.
      change (In p ((cr :: n :: rest) ++ [w])) in Hin.
      apply in_app_or in Hin as [Hin|[<-|[]]].
      - apply (Hdis p Hp Hin).
      - apply (Hdismc w); [left; reflexivity|exact Hp]. }
    assert (Hcr1n : current_running k1 <> NULL) by (rewrite Hcr1; exact Hcr).
    rewrite <- Hcr1 in Hring1, Hpv1, Hnd1.
    destruct (block_ring_spec fuel k1 (cond_waiting c) n lc (rest ++ [w])
                Hq1c Hndl Hlen Hcr1n Hring1 Hpv1 Hnd1 Hdis1c)
      as (k' & Hb & Hwq & Hpcb & Hc' & Hr & Hnotin & Hstate & Hframe).
    rewrite Hcr1 in Hb, Hwq, Hpcb, Hnotin, Hstate, Hframe, Hpv1.
    apply List.NoDup_cons_iff in Hndm as [Hwlw Hndlw].
    assert (Hwn : w <> n).
    { intros ->. apply Hwring. right. left. reflexivity. }
    exists (mk_lock (status m) (fst (unblock w k))),
           (mk_condition (hd cr lc)), k'.
    unfold condition_wait. rewrite Hrel. fold k1. rewrite Hb.
    split; [reflexivity|]. split; [reflexivity|].
    cbn [waiting cond_waiting].
    split; [|split; [|auto]].
    + apply wait_queue_frame with (h := pcbs k1); [|exact Hq1].
      intros p Hp. apply Hframe.
      * intros ->. apply (Hdism cr); [right; exact Hp|left; reflexivity].
      * rewrite Hpv1, last_last. intros ->. contradiction.
      * apply Hdismc. right. exact Hp.
    + rewrite Hstate by assumption. exact Hw1.
Qed.

(** X8 on [three_ready]. *)
Lemma condition_wait_releases_and_queues_witness :
  (exists c' k',
     condition_wait 0 (mk_lock LOCKED NULL) (mk_condition NULL) three_ready
     = Some (mk_lock UNLOCKED NULL, c', k')
     /\ wait_queue (pcbs k') (cond_waiting c') ([] ++ [1])
     /\ pcbs k' 1 = mk_pcb STATUS_BLOCKED NULL NULL
     /\ current_running k' = 2
     /\ ring_path (pcbs k') 2 ([3] ++ [2])).
Proof.
  apply (proj1 (condition_wait_releases_and_queues 0 (mk_lock LOCKED NULL)
                  (mk_condition NULL) three_ready [] 2 [3]
                  ltac:(reflexivity) ltac:(constructor) ltac:(simpl; lia)
                  ltac:(discriminate) ltac:(simpl; repeat split)
                  ltac:(reflexivity)
                  ltac:(repeat constructor; simpl; intuition lia)
                  ltac:(intros p []))).
  reflexivity.
Defined.

End ConditionWait.

(** *** The other calls, and the calls that wait *)

Section MoreCalls.
Context {P : mbox_params}.

Lemma mbox_init_loop_spec (n : nat) : forall (i : Z) (Q : list mbox_t),
  0 <= i ->
  length (mbox_init_loop n i Q) = length Q
  /\ forall j,
       aget no_mbox (mbox_init_loop n i Q) j
       = if (i <=? j) && (j <? i + Z.of_nat n)
            && (j <? Z.of_nat (length Q))
         then mbox_reset (aget no_mbox Q j)
         else aget no_mbox Q j.
Proof.
  induction n as [|n IH]; intros i Q Hi.
  - split; [reflexivity|]. intros j. cbn [mbox_init_loop].
    destruct ((i <=? j) && (j <? i + Z.of_nat 0)) eqn:E; [|reflexivity].
    bools. lia.
  - cbn [mbox_init_loop].
    destruct (IH (i + 1) (aset Q i (mbox_reset (aget no_mbox Q i))))
      as (Hl & Hj); [lia|].
    rewrite length_aset in Hl, Hj. split; [exact Hl|].
    intros j. rewrite Hj.
    destruct (Z.eq_dec j i) as [->|Hne].
    + destruct (Z.leb_spec (i + 1) i); [lia|]. cbn [andb].
      destruct (Z.leb_spec i i); [|lia].
      destruct (Z.ltb_spec i (i + Z.of_nat (S n))); [|lia]. cbn [andb].
      destruct (Z.ltb_spec i (Z.of_nat (length Q))).
      * apply aget_aset_eq. lia.
      * rewrite !aget_out_of_range by (rewrite ?length_aset; lia).
        reflexivity.
    + rewrite aget_aset_ne by lia.
      destruct (Z.leb_spec (i + 1) j); destruct (Z.leb_spec i j); try lia;
        destruct (Z.ltb_spec j (i + 1 + Z.of_nat n));
        destruct (Z.ltb_spec j (i + Z.of_nat (S n))); try lia; reflexivity.
Qed.

(** X14: [mbox_init] leaves every mailbox unused, its lock UNLOCKED, its
    two conditions without waiters, with no message and [head = tail =
    0], so that the whole buffer is available; the bytes of the buffers
    and the number of mailboxes are not changed. *)
Theorem mbox_init_resets_all (Q : list mbox_t) (q : Z) :
  Z.of_nat (length Q) = MAX_MBOX -> 0 <= q < MAX_MBOX ->
  let mb := aget no_mbox (mbox_init Q) q in
  length (mbox_init Q) = length Q
  /\ used mb = 0 /\ l mb = mk_lock UNLOCKED NULL
  /\ moreSpace mb = mk_condition NULL /\ moreData mb = mk_condition NULL
  /\ count mb = 0 /\ head mb = 0 /\ tail mb = 0
  /\ buffer mb = buffer (aget no_mbox Q q)
  /\ space_available mb = BUFFER_SIZE.
Proof.
  intros Hlen Hq mb.
  destruct (mbox_init_loop_spec (Z.to_nat MAX_MBOX) 0 Q) as (Hl & Hj); [lia|].
  assert (E : mb = mbox_reset (aget no_mbox Q q)).
  { unfold mb, mbox_init. rewrite Hj.
    destruct (Z.leb_spec 0 q); [|lia].
    destruct (Z.ltb_spec q (0 + Z.of_nat (Z.to_nat MAX_MBOX))); [|lia].
    destruct (Z.ltb_spec q (Z.of_nat (length Q))); [|lia]. reflexivity. }
  split; [exact Hl|]. rewrite E.
  repeat split. apply space_available_empty; reflexivity.
Qed.

Lemma with_l_unlocked (mb : mbox_t) (x : lock_t) :
  l mb = mk_lock UNLOCKED NULL ->
  with_l (with_l mb x) (mk_lock UNLOCKED NULL) = mb.
Proof. destruct mb. cbn. intros ->. reflexivity. Qed.

Lemma with_used_restore (mb : mbox_t) (x : lock_t) :
  l mb = mk_lock UNLOCKED NULL ->
  with_used (with_l (with_used mb (used mb + 1)) x) (used mb + 1 - 1)
  = with_l mb x.
Proof.
  destruct mb as [u lk ms md c h t b]. intros _.
  unfold with_used, with_l. cbn [used l moreSpace moreData count head tail buffer].
  replace (u + 1 - 1) with u by lia. reflexivity.
Qed.

Lemma mbox_open_free (fuel : nat) (q : Z) (k : kernel) (Q : list mbox_t) :
  let mb := aget no_mbox Q q in
  0 <= q < MAX_MBOX -> q < Z.of_nat (length Q) ->
  l mb = mk_lock UNLOCKED NULL ->
  mbox_open fuel q k Q = Returns q k (aset Q q (with_used mb (used mb + 1))).
Proof.
  intros mb Hq HqQ Hl. unfold mbox_open.
  rewrite mbox_acquire_free by assumption. fold mb.
  rewrite aget_aset_eq by lia.
  rewrite mbox_release_held
    by (rewrite aget_aset_eq by (rewrite length_aset; lia); reflexivity).
  rewrite aget_aset_eq by (rewrite length_aset; lia).
  rewrite !aset_aset_eq. do 2 f_equal.
  destruct mb. cbn in *. subst. reflexivity.
Qed.

(** X15: On a mailbox with a free lock that another user has open,
    [mbox_open] returns the key and counts one user more, and the
    [mbox_close] that follows gives back the mailbox table as it was;
    neither call switches tasks. *)
Theorem mbox_open_then_close_restores (fuel : nat) (q : Z) (k : kernel)
    (Q : list mbox_t) :
  let mb := aget no_mbox Q q in
  0 <= q < MAX_MBOX -> q < Z.of_nat (length Q) ->
  l mb = mk_lock UNLOCKED NULL ->
  1 <= used mb ->
  exists Q1,
    mbox_open fuel q k Q = Returns q k Q1
    /\ used (aget no_mbox Q1 q) = used mb + 1
    /\ mbox_close fuel q k Q1 = Returns q k Q.
Proof.
  intros mb Hq HqQ Hl Hu.
  exists (aset Q q (with_used mb (used mb + 1))).
  split; [apply mbox_open_free; assumption|].
  rewrite aget_aset_eq by lia. split; [reflexivity|].
  unfold mbox_close.
  rewrite mbox_acquire_free;
    [|assumption|rewrite aget_aset_eq by lia; exact Hl].
  rewrite !aget_aset_eq by (rewrite ?length_aset; lia).
  cbn [used with_l with_used].
  destruct (Z.gtb_spec (used mb + 1) 0); [|lia].
  cbn [used with_l with_used].
  destruct (Z.leb_spec (used mb + 1 - 1) 0) as [Hle|Hgt].
  { lia. }
  rewrite mbox_release_held
    by (rewrite aget_aset_eq by (rewrite !length_aset; lia); reflexivity).
  rewrite aget_aset_eq by (rewrite !length_aset; lia).
  rewrite !aset_aset_eq. f_equal.
  rewrite <- (aset_aget_same no_mbox Q q) at 2. f_equal. fold mb.
  rewrite with_used_restore by exact Hl.
  apply with_l_unlocked. exact Hl.
Qed.

Lemma mbox_stat_free (fuel : nat) (q : Z) (k : kernel) (Q : list mbox_t) :
  let mb := aget no_mbox Q q in
  0 <= q < MAX_MBOX -> q < Z.of_nat (length Q) ->
  l mb = mk_lock UNLOCKED NULL ->
  mbox_stat fuel q k Q = Returns (1, count mb, space_available mb) k Q.
Proof.
  intros mb Hq HqQ Hl. unfold mbox_stat.
  rewrite mbox_acquire_free by assumption. fold mb.
  rewrite mbox_release_held by (rewrite aget_aset_eq by lia; reflexivity).
  rewrite aget_aset_eq by lia. rewrite aset_aset_eq.
  rewrite with_l_unlocked by exact Hl. unfold mb.
  rewrite aset_aget_same. reflexivity.
Qed.

(** X16: With a negative key or a key of at least [MAX_MBOX], each of
    [mbox_open], [mbox_close], [mbox_stat], [mbox_send] and [mbox_recv]
    ends the calling task through [exit] and leaves the mailbox table
    unchanged. *)
Theorem mbox_invalid_key_exits (fuel : nat) (key : Z) (m : list Z)
    (k : kernel) (Q : list mbox_t) :
  key < 0 \/ MAX_MBOX <= key ->
  mbox_open fuel key k Q = Exits (exit k) Q
  /\ mbox_close fuel key k Q = Exits (exit k) Q
  /\ mbox_stat fuel key k Q = Exits (exit k) Q
  /\ mbox_send fuel key m k Q = Exits (exit k) Q
  /\ mbox_recv fuel key m k Q = Exits (exit k) Q.
Proof.
  intros H.
  assert (E : mbox_acquire fuel key k Q = Exits (exit k) Q).
  { unfold mbox_acquire.
    destruct (Z.ltb_spec key 0); [reflexivity|].
    destruct (Z.geb_spec key MAX_MBOX); [reflexivity|lia]. }
  unfold mbox_open, mbox_close, mbox_stat, mbox_send, mbox_recv.
  rewrite E. repeat split.
Qed.

Lemma space_available_le (mb : mbox_t) :
  0 <= head mb -> tail mb <= BUFFER_SIZE -> space_available mb <= BUFFER_SIZE.
Proof.
  intros Hh Ht. pose proof BUFFER_SIZE_pos. unfold space_available.
  destruct ((tail mb =? head mb) && negb (count mb =? 0)); [lia|].
  destruct (Z.gtb_spec (tail mb) (head mb)); lia.
Qed.

(** [condition_wait] on a lock nobody waits for. *)
Lemma condition_wait_free (fuel : nat) (m : lock_t) (c : condition_t)
    (k : kernel) :
  waiting m = NULL ->
  condition_wait fuel m c k
  = match block fuel (cond_waiting c) k with
    | Some (q, k2) => Some (mk_lock UNLOCKED NULL, mk_condition q, k2)
    | None => None
    end.
Proof.
  intros H. unfold condition_wait, lock_release. rewrite H. reflexivity.
Qed.

(** X17: [mbox_send] of a message that needs more bytes than are
    available (its size at most [INT_MAX - 4], so that the [int] sum
    [sizeof (m) + m->size] does not overflow), and [mbox_recv] on a
    mailbox without message, do not return: the caller is appended to
    the queue of [moreSpace], respectively [moreData], BLOCKED, its ring
    successor runs, and the mailbox is otherwise unchanged, its lock
    free. *)
Theorem mbox_send_recv_wait (fuel : nat) (q : Z) (m : list Z) (k : kernel)
    (Q : list mbox_t) (n : ptr) (rest : list ptr) :
  let mb := aget no_mbox Q q in
  let cr := current_running k in
  let h := pcbs k in
  0 <= q < MAX_MBOX -> q < Z.of_nat (length Q) ->
  l mb = mk_lock UNLOCKED NULL ->
  cr <> NULL ->
  ring_path h cr ((n :: rest) ++ [cr]) ->
  previous (h cr) = List.last (n :: rest) cr ->
  List.NoDup (cr :: n :: rest) ->
  (forall ws,
     msg_size m <= 2147483647 - SIZEOF_PTR ->
     SIZEOF_PTR + msg_size m > space_available mb ->
     wait_queue h (cond_waiting (moreSpace mb)) ws ->
     List.NoDup ws -> (length ws <= fuel)%nat ->
     (forall p, In p ws -> ~ In p (cr :: n :: rest)) ->
     exists k',
       mbox_send fuel q m k Q
       = Suspends k' (aset Q q (with_moreSpace mb (mk_condition (hd cr ws))))
       /\ wait_queue (pcbs k') (hd cr ws) (ws ++ [cr])
       /\ pcbs k' cr = mk_pcb STATUS_BLOCKED NULL NULL
       /\ current_running k' = n)
  /\ (forall wd,
        count mb <= 0 ->
        wait_queue h (cond_waiting (moreData mb)) wd ->
        List.NoDup wd -> (length wd <= fuel)%nat ->
        (forall p, In p wd -> ~ In p (cr :: n :: rest)) ->
        exists k',
          mbox_recv fuel q m k Q
          = Suspends k' (aset Q q (with_moreData mb (mk_condition (hd cr wd))))
          /\ wait_queue (pcbs k') (hd cr wd) (wd ++ [cr])
          /\ pcbs k' cr = mk_pcb STATUS_BLOCKED NULL NULL
          /\ current_running k' = n).
Proof.
  intros mb cr h Hq HqQ Hl Hcr Hring Hpv Hnd. split.
  - intros ws _ Hbig Hws Hndw Hlen Hdis.
    destruct (block_ring_spec fuel k _ n ws rest
                Hws Hndw Hlen Hcr Hring Hpv Hnd Hdis)
      as (k' & Hb & Hwq & Hpcb & Hc & _).
    fold cr in Hb, Hwq, Hpcb.
    exists k'. split; [|auto].
    unfold mbox_send. rewrite mbox_acquire_free by assumption. fold mb.
    rewrite aget_aset_eq by lia.
    change (space_available (with_l mb (mk_lock LOCKED NULL)))
      with (space_available mb).
    destruct (Z.gtb_spec (SIZEOF_PTR + msg_size m) (space_available mb));
      [|lia].
    rewrite condition_wait_free by reflexivity.
    change (moreSpace (with_l mb (mk_lock LOCKED NULL))) with (moreSpace mb).
    rewrite Hb. rewrite aset_aset_eq. do 2 f_equal.
    destruct mb. cbn in *. subst. reflexivity.
  - intros wd Hcount Hwd Hndw Hlen Hdis.
    destruct (block_ring_spec fuel k _ n wd rest
                Hwd Hndw Hlen Hcr Hring Hpv Hnd Hdis)
      as (k' & Hb & Hwq & Hpcb & Hc & _).
    fold cr in Hb, Hwq, Hpcb.
    exists k'. split; [|auto].
    unfold mbox_recv. rewrite mbox_acquire_free by assumption. fold mb.
    rewrite aget_aset_eq by lia.
    change (count (with_l mb (mk_lock LOCKED NULL))) with (count mb).
    destruct (Z.leb_spec (count mb) 0); [|lia].
    rewrite condition_wait_free by reflexivity.
    change (moreData (with_l mb (mk_lock LOCKED NULL))) with (moreData mb).
    rewrite Hb. rewrite aset_aset_eq. do 2 f_equal.
    destruct mb. cbn in *. subst. reflexivity.
Qed.

(** X18: When the last user closes a mailbox ([used <= 1]), [mbox_close]
    makes every task that waits for space or for data READY in the ring
    and resets the mailbox: the messages that are still in the buffer
    are dropped (count 0, the whole buffer available). *)
Theorem mbox_close_last_user_resets (fuel : nat) (q : Z) (k : kernel)
    (Q : list mbox_t) (ws wd ring : list ptr) :
  let mb := aget no_mbox Q q in
  let cr := current_running k in
  let h := pcbs k in
  0 <= q < MAX_MBOX -> q < Z.of_nat (length Q) ->
  l mb = mk_lock UNLOCKED NULL ->
  used mb <= 1 ->
  wait_queue h (cond_waiting (moreSpace mb)) ws ->
  wait_queue h (cond_waiting (moreData mb)) wd ->
  List.NoDup (ws ++ wd) ->
  (length ws <= fuel)%nat -> (length wd <= fuel)%nat ->
  ring_path h cr (ring ++ [cr]) ->
  previous (h cr) = List.last ring cr ->
  List.NoDup (cr :: ring) ->
  (forall p, In p (ws ++ wd) -> ~ In p (cr :: ring)) ->
  exists k',
    mbox_close fuel q k Q = Returns q k' (aset Q q (mbox_reset mb))
    /\ count (mbox_reset mb) = 0
    /\ space_available (mbox_reset mb) = BUFFER_SIZE
    /\ current_running k' = cr
    /\ ring_path (pcbs k') cr ((ring ++ ws ++ wd) ++ [cr])
    /\ forall p, In p (ws ++ wd) -> state (pcbs k' p) = STATUS_READY.
Proof.
  intros mb cr h Hq HqQ Hl Hu Hws Hwd Hndw Hlens Hlend Hring Hpv Hnd Hdis.
  assert (Hnds : List.NoDup ws) by (eapply List.NoDup_app_remove_r; eauto).
  assert (Hndd : List.NoDup wd) by (eapply List.NoDup_app_remove_l; eauto).
  assert (Hsd : forall p, In p ws -> ~ In p wd).
  { intros p Hp Hp'. revert Hndw Hp Hp'. clear. induction ws as [|x ws IH].
    - intros _ [].
    - cbn [app]. intros Hn Hp Hp'.
      apply List.NoDup_cons_iff in Hn as [Hx Hn].
      destruct Hp as [<-|Hp].
      + apply Hx. apply in_or_app. right. exact Hp'.
      + apply IH; assumption. }
  assert (Hdiss : forall p, In p ws -> ~ In p (cr :: ring)).
  { intros p Hp. apply Hdis. apply in_or_app. left. exact Hp. }
  assert (Hdisd : forall p, In p wd -> ~ In p (cr :: ring)).
  { intros p Hp. apply Hdis. apply in_or_app. right. exact Hp. }
  (* the two broadcasts *)
  destruct (barrier_release_spec ws fuel _ k ring Hws Hnds Hring Hpv Hnd
              Hdiss Hlens)
    as (k2 & Hrel2 & Hcr2 & Hring2 & Hpv2 & Hready2 & Hother2 & Hframe2).
  fold cr h in Hcr2, Hring2, Hpv2, Hframe2.
  assert (Hwd2 : wait_queue (pcbs k2) (cond_waiting (moreData mb)) wd).
  { apply wait_queue_frame with (h := h); [|exact Hwd].
    intros p Hp. rewrite Hframe2; [reflexivity| |apply Hdisd; exact Hp].
    intros Hin. apply (Hsd p Hin Hp). }
  assert (Hnd2 : List.NoDup (current_running k2 :: ring ++ ws)).
  { rewrite Hcr2. change (List.NoDup ((cr :: ring) ++ ws)).
    apply List.NoDup_app; [exact Hnd|exact Hnds|].
    intros a Ha Haw. apply (Hdiss a Haw Ha). }
  assert (Hdis2 : forall p, In p wd ->
                    ~ In p (current_running k2 :: ring ++ ws)).
  { intros p Hp. rewrite Hcr2. change (~ In p ((cr :: ring) ++ ws)).
    intros Hin. apply in_app_or in Hin as [Hin|Hin].
    - apply (Hdisd p Hp Hin).
    - apply (Hsd p Hin Hp). }
  rewrite <- Hcr2 in Hring2, Hpv2.
  destruct (barrier_release_spec wd fuel _ k2 (ring ++ ws) Hwd2 Hndd Hring2
              Hpv2 Hnd2 Hdis2 Hlend)
    as (k3 & Hrel3 & Hcr3 & Hring3 & _ & Hready3 & Hother3 & _).
  rewrite Hcr2 in Hcr3, Hring3.
  exists k3. split.
  { unfold mbox_close. rewrite mbox_acquire_free by assumption. fold mb.
    rewrite aget_aset_eq by lia.
    set (mbL := with_l mb (mk_lock LOCKED NULL)).
    set (mb1 := if used mbL >? 0 then with_used mbL (used mbL - 1) else mbL).
    assert (E1 : (used mb1 <=? 0) = true).
    { unfold mb1. change (used mbL) with (used mb).
      destruct (Z.gtb_spec (used mb) 0); cbn [used with_used];
        apply Z.leb_le; change (used mbL) with (used mb); lia. }
    assert (E2 : moreSpace mb1 = moreSpace mb)
      by (unfold mb1; destruct (used mbL >? 0); reflexivity).
    assert (E3 : moreData mb1 = moreData mb)
      by (unfold mb1; destruct (used mbL >? 0); reflexivity).
    assert (E4 : mbox_reset mb1 = mbox_reset mb)
      by (unfold mb1; destruct (used mbL >? 0); reflexivity).
    rewrite E1, E2, E3, E4.
    rewrite condition_broadcast_release, Hrel2. cbv beta iota.
    rewrite condition_broadcast_release, Hrel3. cbv beta iota.
    unfold mbox_release.
    rewrite aget_aset_eq by (rewrite length_aset; lia).
    cbn [l mbox_reset lock_init lock_release waiting Nat.eqb NULL].
    rewrite !aset_aset_eq. reflexivity. }
  split; [reflexivity|].
  split; [apply space_available_empty; reflexivity|].
  split; [exact Hcr3|].
  split; [rewrite <- app_assoc in Hring3; rewrite <- !app_assoc;
          rewrite <- app_assoc in Hring3; exact Hring3|].
  intros p Hp. apply in_app_or in Hp as [Hp|Hp].
  - rewrite Hother3 by (apply Hsd; exact Hp). apply Hready2. exact Hp.
  - apply Hready3. exact Hp.
Qed.

Lemma mbox_send_returns (fuel : nat) (q : Z) (m : list Z) (k : kernel)
    (Q : list mbox_t) (wd : list ptr) :
  let mb := aget no_mbox Q q in
  0 <= q < MAX_MBOX -> q < Z.of_nat (length Q) ->
  l mb = mk_lock UNLOCKED NULL ->
  SIZEOF_PTR + msg_size m <= space_available mb ->
  releasable k (cond_waiting (moreData mb)) wd -> (length wd <= fuel)%nat ->
  exists k1,
    mbox_send fuel q m k Q = Returns 1 k1 (aset Q q (after_send mb m))
    /\ (wd = [] -> k1 = k).
Proof.
  intros mb Hq HqQ Hl Hfit Hrel Hlen.
  set (mbL := with_l mb (mk_lock LOCKED NULL)).
  set (mb1 := with_ring mbL (count mbL + 1)
                (Z.rem (head mbL + (SIZEOF_PTR + msg_size m)) BUFFER_SIZE)
                (tail mbL)
                (send_copy (Z.to_nat (SIZEOF_PTR + msg_size m)) 0 (head mbL) m
                           (buffer mbL))).
  destruct (condition_broadcast_returns wd fuel (moreData mb1) k Hrel Hlen)
    as (k1 & Hbd).
  exists k1. split.
  - unfold mbox_send. rewrite mbox_acquire_free by assumption.
    fold mb. fold mbL. rewrite aget_aset_eq by lia.
    change (space_available mbL) with (space_available mb).
    destruct (Z.gtb_spec (SIZEOF_PTR + msg_size m) (space_available mb));
      [lia|].
    fold mb1. rewrite Hbd.
    rewrite mbox_release_held
      by (rewrite aget_aset_eq by (rewrite length_aset; lia); reflexivity).
    rewrite aget_aset_eq by (rewrite length_aset; lia).
    rewrite !aset_aset_eq. do 2 f_equal.
    unfold after_send, mb1, mbL. destruct mb. cbn in *. subst. reflexivity.
  - intros ->. destruct Hrel as (Hq0 & _). simpl in Hq0.
    change (moreData mb1) with (moreData mb) in Hbd.
    destruct (moreData mb) as [c]. cbn in Hq0. subst c.
    destruct fuel; cbn in Hbd; congruence.
Qed.

Lemma mbox_recv_returns (fuel : nat) (q : Z) (m : list Z) (k : kernel)
    (Q : list mbox_t) (ws : list ptr) :
  let mb := aget no_mbox Q q in
  0 <= q < MAX_MBOX -> q < Z.of_nat (length Q) ->
  l mb = mk_lock UNLOCKED NULL ->
  0 < count mb ->
  releasable k (cond_waiting (moreSpace mb)) ws -> (length ws <= fuel)%nat ->
  exists k1,
    mbox_recv fuel q m k Q
    = Returns (1, received mb m) k1 (aset Q q (after_recv mb m))
    /\ (ws = [] -> k1 = k).
Proof.
  intros mb Hq HqQ Hl Hcount Hrel Hlen.
  set (mbL := with_l mb (mk_lock LOCKED NULL)).
  set (m1 := recv_copy (Z.to_nat SIZEOF_PTR) 0 (tail mbL) (buffer mbL) m).
  set (mb1 := with_ring mbL (count mbL - 1) (head mbL)
                (Z.rem (tail mbL + (SIZEOF_PTR + msg_size m1)) BUFFER_SIZE)
                (buffer mbL)).
  destruct (condition_broadcast_returns ws fuel (moreSpace mb1) k Hrel Hlen)
    as (k1 & Hbd).
  exists k1. split.
  - unfold mbox_recv. rewrite mbox_acquire_free by assumption.
    fold mb. fold mbL. rewrite aget_aset_eq by lia.
    change (count mbL) with (count mb).
    destruct (Z.leb_spec (count mb) 0); [lia|].
    fold m1. change (count mb) with (count mbL). fold mb1. rewrite Hbd.
    rewrite mbox_release_held
      by (rewrite aget_aset_eq by (rewrite length_aset; lia); reflexivity).
    rewrite aget_aset_eq by (rewrite length_aset; lia).
    rewrite !aset_aset_eq. do 2 f_equal.
    unfold after_recv, mb1, m1, mbL. destruct mb. cbn in *. subst.
    reflexivity.
  - intros ->. destruct Hrel as (Hq0 & _). simpl in Hq0.
    change (moreSpace mb1) with (moreSpace mb) in Hbd.
    destruct (moreSpace mb) as [c]. cbn in Hq0. subst c.
    destruct fuel; cbn in Hbd; congruence.
Qed.

Lemma space_after_send (mb : mbox_t) (m : list Z) :
  0 <= head mb < BUFFER_SIZE -> 0 <= tail mb < BUFFER_SIZE ->
  0 <= count mb -> 0 <= msg_size m ->
  SIZEOF_PTR + msg_size m <= space_available mb ->
  space_available (after_send mb m)
  = space_available mb - (SIZEOF_PTR + msg_size m).
Proof.
  intros Hh Ht Hc Hsz Hfit. pose proof BUFFER_SIZE_pos as HB.
  unfold after_send. unfold SIZEOF_PTR in *.
  assert (Hsz4 : 4 <= 4 + msg_size m) by lia.
  generalize dependent (4 + msg_size m). intros sz Hfit Hsz4.
  assert (Hs : space_available mb <= BUFFER_SIZE).
  { apply space_available_le; lia. }
  unfold space_available in *. cbn [head tail count].
  replace (count mb + 1 =? 0) with false by (symmetry; apply Z.eqb_neq; lia).
  cbn [negb]. rewrite andb_true_r.
  rewrite Z.rem_mod_nonneg by lia.
  assert (Hmod : (head mb + sz) mod BUFFER_SIZE
                 = if head mb + sz <? BUFFER_SIZE then head mb + sz
                   else head mb + sz - BUFFER_SIZE).
  { destruct (Z.ltb_spec (head mb + sz) BUFFER_SIZE).
    - apply Z.mod_small. lia.
    - symmetry. apply (Z.mod_unique _ _ 1); lia. }
  rewrite Hmod. clear Hmod.
  destruct (Z.eqb_spec (tail mb) (head mb)) as [E|E];
    destruct (Z.eqb_spec (count mb) 0) as [E0|E0]; cbn [negb andb] in *;
    destruct (Z.gtb_spec (tail mb) (head mb));
    destruct (Z.ltb_spec (head mb + sz) BUFFER_SIZE);
    try lia;
    match goal with
    | |- context [?a =? ?b] => destruct (Z.eqb_spec a b)
    end; try lia;
    match goal with
    | |- context [?a >? ?b] => destruct (Z.gtb_spec a b)
    end; lia.
Qed.

(** X19: After an [mbox_send] that finds room for the message,
    [mbox_stat] reports one message more and [4 + size] bytes less space
    than before. *)
Theorem mbox_send_takes_space (fuel : nat) (q : Z) (m : list Z) (k : kernel)
    (Q : list mbox_t) (wd : list ptr) :
  let mb := aget no_mbox Q q in
  let sz := SIZEOF_PTR + msg_size m in
  0 <= q < MAX_MBOX -> q < Z.of_nat (length Q) ->
  l mb = mk_lock UNLOCKED NULL ->
  0 <= head mb < BUFFER_SIZE -> 0 <= tail mb < BUFFER_SIZE ->
  0 <= count mb -> 0 <= msg_size m ->
  sz <= space_available mb ->
  releasable k (cond_waiting (moreData mb)) wd -> (length wd <= fuel)%nat ->
  exists k1 Q1,
    mbox_send fuel q m k Q = Returns 1 k1 Q1
    /\ mbox_stat fuel q k1 Q1
       = Returns (1, count mb + 1, space_available mb - sz) k1 Q1.
Proof.
  intros mb sz Hq HqQ Hl Hh Ht Hc Hsz Hfit Hrel Hlen.
  destruct (mbox_send_returns fuel q m k Q wd Hq HqQ Hl Hfit Hrel Hlen)
    as (k1 & Hsend & _).
  fold mb in Hsend.
  exists k1, (aset Q q (after_send mb m)). split; [exact Hsend|].
  rewrite mbox_stat_free;
    [|assumption|rewrite length_aset; lia
     |rewrite aget_aset_eq by lia; exact Hl].
  rewrite aget_aset_eq by lia.
  rewrite space_after_send by assumption. reflexivity.
Qed.

Lemma send_copy_frame (start : Z) (m : list Z) (n : nat) :
  forall (i0 : Z) (buf : list Z) (pos : Z),
  (forall j, i0 <= j < i0 + Z.of_nat n ->
             Z.rem (start + j) BUFFER_SIZE <> pos) ->
  load (send_copy n i0 start m buf) pos = load buf pos.
Proof.
  induction n as [|n IH]; intros i0 buf pos Hne; [reflexivity|].
  cbn [send_copy]. rewrite IH by (intros j Hj; apply Hne; lia).
  apply load_store_ne. apply Hne. lia.
Qed.

Lemma ring_rem_add (a j : Z) :
  0 <= a -> 0 <= j ->
  Z.rem (Z.rem a BUFFER_SIZE + j) BUFFER_SIZE = Z.rem (a + j) BUFFER_SIZE.
Proof.
  intros Ha Hj. pose proof BUFFER_SIZE_pos as HB.
  pose proof (ring_index_range a 0 Ha ltac:(lia)) as Hr.
  rewrite Z.add_0_r in Hr.
  rewrite (Z.rem_mod_nonneg (_ + j)) by lia.
  rewrite (Z.rem_mod_nonneg a) by lia.
  rewrite (Z.rem_mod_nonneg (a + j)) by lia.
  apply Z.add_mod_idemp_l. lia.
Qed.

(** What [mbox_recv] stores when the ring holds the message [msg] at
    [tail]. *)
Lemma received_message (mb : mbox_t) (msg r : list Z) :
  let sz := SIZEOF_PTR + msg_size msg in
  0 <= msg_size msg ->
  sz <= Z.of_nat (length msg) -> sz <= Z.of_nat (length r) ->
  (forall j, 0 <= j < sz ->
     load (buffer mb) (Z.rem (tail mb + j) BUFFER_SIZE) = load msg j) ->
  msg_size (recv_copy (Z.to_nat SIZEOF_PTR) 0 (tail mb) (buffer mb) r)
  = msg_size msg
  /\ firstn (Z.to_nat sz) (received mb r) = firstn (Z.to_nat sz) msg.
Proof.
  intros sz Hsz Hmsg Hr Hring. unfold sz, SIZEOF_PTR in *. clear sz.
  set (m1 := recv_copy (Z.to_nat 4) 0 (tail mb) (buffer mb) r).
  destruct (recv_copy_spec (tail mb) (buffer mb) (Z.to_nat 4) 0 r)
    as (Hm1len & Hm1); try lia.
  fold m1 in Hm1len, Hm1.
  assert (Hsz1 : msg_size m1 = msg_size msg).
  { apply msg_size_ext. intros j Hj. rewrite Hm1.
    destruct (Z.leb_spec 0 j); [|lia].
    destruct (Z.ltb_spec j (0 + Z.of_nat (Z.to_nat 4))); [|lia].
    apply Hring. lia. }
  split; [exact Hsz1|].
  unfold received, SIZEOF_PTR. fold m1. rewrite Hsz1.
  destruct (recv_copy_spec (tail mb) (buffer mb)
              (Z.to_nat (4 + msg_size msg)) 0 m1)
    as (Hm2len & Hm2); try lia.
  apply list_eq_load.
  - rewrite !length_take. lia.
  - intros i Hi. rewrite length_take in Hi.
    rewrite !load_firstn by lia. rewrite Hm2.
    destruct (Z.leb_spec 0 i); [|lia].
    destruct (Z.ltb_spec i (0 + Z.of_nat (Z.to_nat (4 + msg_size msg))));
      [|lia].
    apply Hring. lia.
Qed.

Lemma releasable_nil (k : kernel) : releasable k NULL [].
Proof. repeat split; simpl; try tauto. constructor. Qed.

(** X20: Two messages that fit together into an empty mailbox are
    received in the order in which they were sent: the first [mbox_recv]
    returns the header and the bytes of the first message, the second
    those of the second message, and the mailbox is empty again. *)
Theorem mbox_delivers_in_order (fuel : nat) (q : Z) (ma mb ra rb : list Z)
    (k1 k2 k3 k4 : kernel) (Q : list mbox_t) :
  let box := aget no_mbox Q q in
  let sa := SIZEOF_PTR + msg_size ma in
  let sb := SIZEOF_PTR + msg_size mb in
  0 <= q < MAX_MBOX -> q < Z.of_nat (length Q) ->
  l box = mk_lock UNLOCKED NULL ->
  moreSpace box = mk_condition NULL -> moreData box = mk_condition NULL ->
  count box = 0 -> head box = tail box -> 0 <= tail box < BUFFER_SIZE ->
  Z.of_nat (length (buffer box)) = BUFFER_SIZE ->
  0 <= msg_size ma -> 0 <= msg_size mb -> sa + sb <= BUFFER_SIZE ->
  sa <= Z.of_nat (length ma) -> sb <= Z.of_nat (length mb) ->
  sa <= Z.of_nat (length ra) -> sb <= Z.of_nat (length rb) ->
  exists Q1 Q2 Q3 Q4 ra' rb',
    mbox_send fuel q ma k1 Q = Returns 1 k1 Q1
    /\ mbox_send fuel q mb k2 Q1 = Returns 1 k2 Q2
    /\ mbox_recv fuel q ra k3 Q2 = Returns (1, ra') k3 Q3
    /\ mbox_recv fuel q rb k4 Q3 = Returns (1, rb') k4 Q4
    /\ firstn (Z.to_nat sa) ra' = firstn (Z.to_nat sa) ma
    /\ firstn (Z.to_nat sb) rb' = firstn (Z.to_nat sb) mb
    /\ count (aget no_mbox Q4 q) = 0
    /\ space_available (aget no_mbox Q4 q) = BUFFER_SIZE.
Proof.
  intros box sa sb Hq HqQ Hl Hms Hmd Hcount Hhead Htail Hbuf Hsa Hsb Hfit
         Hma Hmb Hra Hrb.
  pose proof BUFFER_SIZE_pos as HB.
  assert (Hsa4 : sa = 4 + msg_size ma) by reflexivity.
  assert (Hsb4 : sb = 4 + msg_size mb) by reflexivity.
  set (t := tail box) in *.
  (* first send *)
  set (boxA := after_send box ma).
  assert (Hspace0 : space_available box = BUFFER_SIZE)
    by (apply space_available_empty; assumption).
  destruct (mbox_send_returns fuel q ma k1 Q [] Hq HqQ Hl) as (k1' & HsendA & Hk1);
    [fold box; lia|fold box; rewrite Hmd; apply releasable_nil|simpl; lia|].
  rewrite (Hk1 eq_refl) in HsendA. clear Hk1 k1'. fold box boxA in HsendA.
  set (Q1 := aset Q q boxA) in *.
  assert (HA : aget no_mbox Q1 q = boxA) by (apply aget_aset_eq; lia).
  set (hA := Z.rem (t + sa) BUFFER_SIZE).
  assert (HhA : head boxA = hA) by (unfold boxA, after_send, hA; cbn; rewrite Hhead; reflexivity).
  assert (HhAr : 0 <= hA < BUFFER_SIZE) by (apply ring_index_range; lia).
  set (bufA := buffer boxA).
  destruct (send_copy_spec t ma (Z.to_nat sa) 0 (buffer box))
    as (HlenA & HbytesA); try lia.
  assert (EbufA : bufA = send_copy (Z.to_nat sa) 0 t ma (buffer box)).
  { unfold bufA, boxA, after_send. cbn. rewrite Hhead. reflexivity. }
  rewrite <- EbufA in HlenA, HbytesA.
  (* second send *)
  assert (HspaceA : space_available boxA = BUFFER_SIZE - sa).
  { unfold boxA. rewrite space_after_send; fold box; lia. }
  set (boxB := after_send boxA mb).
  destruct (mbox_send_returns fuel q mb k2 Q1 [])
    as (k2' & HsendB & Hk2);
    [lia|unfold Q1; rewrite length_aset; lia|rewrite HA; exact Hl
    |rewrite HA; lia|rewrite HA; apply releasable_nil|simpl; lia|].
  rewrite (Hk2 eq_refl) in HsendB. clear Hk2 k2'.
  rewrite HA in HsendB. fold boxB in HsendB.
  unfold Q1 in HsendB at 2. rewrite aset_aset_eq in HsendB.
  set (Q2 := aset Q q boxB) in *.
  assert (HB2 : aget no_mbox Q2 q = boxB) by (apply aget_aset_eq; lia).
  set (bufB := buffer boxB).
  assert (EbufB : bufB = send_copy (Z.to_nat sb) 0 hA mb bufA).
  { unfold bufB, boxB, after_send. cbn [buffer head]. fold bufA.
    rewrite HhA. reflexivity. }
  destruct (send_copy_spec hA mb (Z.to_nat sb) 0 bufA)
    as (HlenB & HbytesB); try lia.
  rewrite <- EbufB in HlenB, HbytesB.
  assert (HringA : forall j, 0 <= j < sa ->
            load bufB (Z.rem (t + j) BUFFER_SIZE) = load ma j).
  { intros j Hj. rewrite EbufB. rewrite send_copy_frame.
    - rewrite HbytesA by lia. destruct (Z.ltb_spec j 0); [lia|reflexivity].
    - intros j' Hj'. unfold hA. rewrite ring_rem_add by lia.
      rewrite <- Z.add_assoc. apply ring_index_inj; lia. }
  assert (HringB : forall j, 0 <= j < sb ->
            load bufB (Z.rem (hA + j) BUFFER_SIZE) = load mb j).
  { intros j Hj. rewrite HbytesB by lia.
    destruct (Z.ltb_spec j 0); [lia|reflexivity]. }
  (* first receive *)
  assert (HtB : tail boxB = t) by reflexivity.
  destruct (received_message boxB ma ra Hsa) as (HszA & HgotA);
    [lia|lia|rewrite HtB; exact HringA|].
  destruct (mbox_recv_returns fuel q ra k3 Q2 [])
    as (k3' & HrecvA & Hk3);
    [lia|unfold Q2; rewrite length_aset; lia|rewrite HB2; exact Hl
    |rewrite HB2; cbn; lia
    |rewrite HB2; change (moreSpace boxB) with (moreSpace box);
     rewrite Hms; apply releasable_nil
    |simpl; lia|].
  rewrite (Hk3 eq_refl) in HrecvA. clear Hk3 k3'. rewrite HB2 in HrecvA.
  set (boxC := after_recv boxB ra) in *.
  unfold Q2 in HrecvA at 2. rewrite aset_aset_eq in HrecvA.
  set (Q3 := aset Q q boxC) in *.
  assert (HC : aget no_mbox Q3 q = boxC) by (apply aget_aset_eq; lia).
  assert (HtC : tail boxC = hA).
  { unfold boxC, after_recv. cbn [tail]. rewrite HszA. reflexivity. }
  (* second receive *)
  destruct (received_message boxC mb rb Hsb) as (HszB & HgotB);
    [lia|lia|rewrite HtC; exact HringB|].
  destruct (mbox_recv_returns fuel q rb k4 Q3 [])
    as (k4' & HrecvB & Hk4);
    [lia|unfold Q3; rewrite length_aset; lia|rewrite HC; exact Hl
    |rewrite HC; cbn; lia|rewrite HC; apply releasable_nil
    |simpl; lia|].
  rewrite (Hk4 eq_refl) in HrecvB. clear Hk4 k4'. rewrite HC in HrecvB.
  exists Q1, Q2, Q3, (aset Q3 q (after_recv boxC rb)),
         (received boxB ra), (received boxC rb).
  split; [exact HsendA|]. split; [exact HsendB|]. split; [exact HrecvA|].
  split; [exact HrecvB|]. split; [exact HgotA|]. split; [exact HgotB|].
  rewrite aget_aset_eq by (unfold Q3; rewrite length_aset; lia).
  assert (Hc4 : count (after_recv boxC rb) = 0) by (cbn; lia).
  split; [exact Hc4|].
  apply space_available_empty; [exact Hc4|].
  unfold after_recv at 1 2. cbn [head tail]. rewrite HszB, HtC.
  unfold boxC, after_recv. cbn [head]. unfold boxB, after_send. cbn [head].
  rewrite HhA. reflexivity.
Qed.

End MoreCalls.

(** X14 on [stale_boxes]. *)
Lemma mbox_init_resets_all_witness :
  let mb := aget no_mbox (mbox_init (P := small_ring) stale_boxes) 4 in
  length (mbox_init (P := small_ring) stale_boxes) = length stale_boxes
  /\ used mb = 0 /\ l mb = mk_lock UNLOCKED NULL
  /\ moreSpace mb = mk_condition NULL /\ moreData mb = mk_condition NULL
  /\ count mb = 0 /\ head mb = 0 /\ tail mb = 0
  /\ buffer mb = buffer (aget no_mbox stale_boxes 4)
  /\ space_available (P := small_ring) mb = 8.
Proof.
  apply (mbox_init_resets_all (P := small_ring) stale_boxes 4).
  - reflexivity.
  - simpl. lia.
Defined.

(** X15 on [stale_boxes_free]. *)
Lemma mbox_open_then_close_restores_witness :
  exists Q1,
    mbox_open (P := small_ring) 0 4 three_ready stale_boxes_free
    = Returns 4 three_ready Q1
    /\ used (aget no_mbox Q1 4) = 3 + 1
    /\ mbox_close (P := small_ring) 0 4 three_ready Q1
       = Returns 4 three_ready stale_boxes_free.
Proof.
  apply (mbox_open_then_close_restores (P := small_ring) 0 4 three_ready
           stale_boxes_free).
  - simpl. lia.
  - simpl. lia.
  - reflexivity.
  - simpl. lia.
Defined.

(** X16 on [fresh_boxes]. *)
Lemma mbox_invalid_key_exits_witness :
  mbox_open (P := small_ring) 0 5 three_ready fresh_boxes
  = Exits (exit three_ready) fresh_boxes
  /\ mbox_close (P := small_ring) 0 5 three_ready fresh_boxes
     = Exits (exit three_ready) fresh_boxes
  /\ mbox_stat (P := small_ring) 0 5 three_ready fresh_boxes
     = Exits (exit three_ready) fresh_boxes
  /\ mbox_send (P := small_ring) 0 5 [] three_ready fresh_boxes
     = Exits (exit three_ready) fresh_boxes
  /\ mbox_recv (P := small_ring) 0 5 [] three_ready fresh_boxes
     = Exits (exit three_ready) fresh_boxes.
Proof.
  apply (mbox_invalid_key_exits (P := small_ring) 0 5 [] three_ready
           fresh_boxes).
  right. simpl. lia.
Defined.

(** X17 on [fresh_boxes] and [three_ready]: a message of 5 bytes, which
    needs 9 of the 8 bytes of the ring, and a receive on the empty
    mailbox. *)
Lemma mbox_send_recv_wait_witness :
  (exists k',
     mbox_send (P := small_ring) 0 0 [5; 0; 0; 0; 1; 2; 3; 4; 5] three_ready
               fresh_boxes
     = Suspends k'
         (aset fresh_boxes 0
            (with_moreSpace (aget no_mbox fresh_boxes 0)
                            (mk_condition (hd 1%nat []))))
     /\ wait_queue (pcbs k') (hd 1%nat []) ([] ++ [1%nat])
     /\ pcbs k' 1%nat = mk_pcb STATUS_BLOCKED NULL NULL
     /\ current_running k' = 2%nat)
  /\ (exists k',
        mbox_recv (P := small_ring) 0 0 [0; 0; 0; 0] three_ready fresh_boxes
        = Suspends k'
            (aset fresh_boxes 0
               (with_moreData (aget no_mbox fresh_boxes 0)
                              (mk_condition (hd 1%nat []))))
        /\ wait_queue (pcbs k') (hd 1%nat []) ([] ++ [1%nat])
        /\ pcbs k' 1%nat = mk_pcb STATUS_BLOCKED NULL NULL
        /\ current_running k' = 2%nat).
Proof.
  split.
  - apply (proj1 (mbox_send_recv_wait (P := small_ring) 0 0
                    [5; 0; 0; 0; 1; 2; 3; 4; 5]
                    three_ready fresh_boxes 2%nat [3%nat]
                    ltac:(simpl; lia) ltac:(simpl; lia) ltac:(reflexivity)
                    ltac:(discriminate) ltac:(simpl; repeat split)
                    ltac:(reflexivity)
                    ltac:(repeat constructor; simpl; intuition lia)) []).
    + vm_compute. discriminate.
    + vm_compute. reflexivity.
    + reflexivity.
    + constructor.
    + simpl. lia.
    + intros p [].
  - apply (proj2 (mbox_send_recv_wait (P := small_ring) 0 0 [0; 0; 0; 0]
                    three_ready fresh_boxes 2%nat [3%nat]
                    ltac:(simpl; lia) ltac:(simpl; lia) ltac:(reflexivity)
                    ltac:(discriminate) ltac:(simpl; repeat split)
                    ltac:(reflexivity)
                    ltac:(repeat constructor; simpl; intuition lia)) []).
    + simpl. lia.
    + reflexivity.
    + constructor.
    + simpl. lia.
    + intros p [].
Defined.

(** X18 on [last_user_boxes] and [two_ready_two_blocked]. *)
Lemma mbox_close_last_user_resets_witness :
  exists k',
    mbox_close (P := small_ring) 2 0 two_ready_two_blocked last_user_boxes
    = Returns 0 k'
        (aset last_user_boxes 0
              (mbox_reset (aget no_mbox last_user_boxes 0)))
    /\ count (mbox_reset (aget no_mbox last_user_boxes 0)) = 0
    /\ space_available (P := small_ring)
         (mbox_reset (aget no_mbox last_user_boxes 0)) = 8
    /\ current_running k' = 1%nat
    /\ ring_path (pcbs k') 1%nat
         (([2%nat] ++ [3%nat; 4%nat] ++ []) ++ [1%nat])
    /\ forall p, In p ([3%nat; 4%nat] ++ []) ->
                 state (pcbs k' p) = STATUS_READY.
Proof.
  apply (mbox_close_last_user_resets (P := small_ring) 2 0
           two_ready_two_blocked last_user_boxes [3%nat; 4%nat] [] [2%nat]).
  - simpl. lia.
  - simpl. lia.
  - reflexivity.
  - simpl. lia.
  - simpl. unfold NULL. repeat split; lia.
  - reflexivity.
  - repeat constructor; simpl; intuition lia.
  - simpl. lia.
  - simpl. lia.
  - simpl. repeat split.
  - reflexivity.
  - repeat constructor; simpl; intuition lia.
  - simpl. intros p [<-|[<-|[]]]; lia.
Defined.

(** X19 on [fresh_boxes]. *)
Lemma mbox_send_takes_space_witness :
  exists k1 Q1,
    mbox_send (P := small_ring) 0 0 [2; 0; 0; 0; 104; 105] three_ready
              fresh_boxes
    = Returns 1 k1 Q1
    /\ mbox_stat (P := small_ring) 0 0 k1 Q1
       = Returns (1, 0 + 1, 8 - (SIZEOF_PTR + 2)) k1 Q1.
Proof.
  apply (mbox_send_takes_space (P := small_ring) 0 0 [2; 0; 0; 0; 104; 105]
           three_ready fresh_boxes []).
  - simpl. lia.
  - simpl. lia.
  - reflexivity.
  - simpl. lia.
  - simpl. lia.
  - simpl. lia.
  - vm_compute. discriminate.
  - vm_compute. discriminate.
  - repeat split; simpl; try tauto. constructor.
  - simpl. lia.
Defined.

(** X20 on [wide_boxes]. *)
Lemma mbox_delivers_in_order_witness :
  let ma := [1; 0; 0; 0; 97] in
  let mb := [2; 0; 0; 0; 98; 99] in
  let k := three_ready in
  exists Q1 Q2 Q3 Q4 ra' rb',
    mbox_send (P := wide_ring) 0 1 ma k wide_boxes = Returns 1 k Q1
    /\ mbox_send (P := wide_ring) 0 1 mb k Q1 = Returns 1 k Q2
    /\ mbox_recv (P := wide_ring) 0 1 [0; 0; 0; 0; 0; 0] k Q2
       = Returns (1, ra') k Q3
    /\ mbox_recv (P := wide_ring) 0 1 [9; 9; 9; 9; 9; 9] k Q3
       = Returns (1, rb') k Q4
    /\ firstn (Z.to_nat (SIZEOF_PTR + msg_size ma)) ra'
       = firstn (Z.to_nat (SIZEOF_PTR + msg_size ma)) ma
    /\ firstn (Z.to_nat (SIZEOF_PTR + msg_size mb)) rb'
       = firstn (Z.to_nat (SIZEOF_PTR + msg_size mb)) mb
    /\ count (aget no_mbox Q4 1) = 0
    /\ space_available (P := wide_ring) (aget no_mbox Q4 1) = 16.
Proof.
  intros ma mb k.
  apply (mbox_delivers_in_order (P := wide_ring) 0 1 ma mb
           [0; 0; 0; 0; 0; 0] [9; 9; 9; 9; 9; 9] k k k k wide_boxes).
  - simpl. lia.
  - simpl. lia.
  - reflexivity.
  - reflexivity.
  - reflexivity.
  - reflexivity.
  - reflexivity.
  - simpl. lia.
  - reflexivity.
  - vm_compute. discriminate.
  - vm_compute. discriminate.
  - vm_compute. discriminate.
  - vm_compute. discriminate.
  - vm_compute. discriminate.
  - vm_compute. discriminate.
  - vm_compute. discriminate.
Defined.

End MboxFacts.

(** ** Image builder *)

Module ImageFacts.
Import Image.

Lemma memory_size_contents d :
  parsed d -> memory_size d = Z.of_nat (length (contents d)).
Proof.
  induction 1 as [|s d Hs _ IH]; [reflexivity|].
  unfold contents in *. simpl. rewrite length_app, IH, Hs. lia.
Qed.

Lemma fwrite_at_end (buf : list Z) (n : Z) (f : FILE) :
  fpos f = Z.of_nat (length (bytes f)) -> n = Z.of_nat (length buf) ->
  fwrite buf n f = mk_file (bytes f ++ buf) (fpos f + n).
Proof.
  intros Hp Hn. unfold fwrite. rewrite Hp, Hn, !Nat2Z.id.
  rewrite !firstn_all, skipn_all2 by lia.
  rewrite app_nil_r. reflexivity.
Qed.

Lemma write_segments_at_end d : forall f,
  parsed d -> fpos f = Z.of_nat (length (bytes f)) ->
  write_segments d f
  = mk_file (bytes f ++ contents d) (fpos f + memory_size d).
Proof.
  induction d as [|s d IH]; intros f Hd Hp.
  - simpl. unfold contents. simpl. rewrite app_nil_r, Z.add_0_r.
    destruct f; reflexivity.
  - inversion Hd as [|? ? Hs Hd']; subst. simpl.
    rewrite fwrite_at_end by assumption.
    rewrite IH; [|assumption|simpl; rewrite length_app; lia].
    simpl. unfold contents. simpl. rewrite <- app_assoc. f_equal. lia.
Qed.

(** The kernel length in sectors, as [main] computes it, is the size
    divided by 512 and rounded up. *)
Lemma os_size_rounds_up (kernel_size : Z) :
  0 <= kernel_size ->
  Z.quot kernel_size SECTOR_SIZE
  + (if negb (Z.rem kernel_size SECTOR_SIZE =? 0) then 1 else 0)
  = (kernel_size + 511) / 512.
Proof.
  intros H. unfold SECTOR_SIZE.
  rewrite Z.quot_div_nonneg, Z.rem_mod_nonneg by lia.
  pose proof (Z.div_mod kernel_size 512 ltac:(lia)) as Hd.
  pose proof (Z.mod_pos_bound kernel_size 512 ltac:(lia)) as Hm.
  destruct (Z.eqb_spec (kernel_size mod 512) 0) as [H0|H0]; simpl.
  - apply Z.div_unique with 511; lia.
  - apply Z.div_unique with (kernel_size mod 512 - 1); lia.
Qed.

Lemma firstn_repeat_le {A} (x : A) (n m : nat) :
  (n <= m)%nat -> firstn n (repeat x m) = repeat x n.
Proof.
  revert m. induction n as [|n IH]; intros m H; [reflexivity|].
  destruct m as [|m]; [lia|]. simpl. f_equal. apply IH. lia.
Qed.

Lemma fwrite_prefix_at_end (buf : list Z) (n : Z) (f : FILE) :
  fpos f = Z.of_nat (length (bytes f)) ->
  bytes (fwrite buf n f) = bytes f ++ firstn (Z.to_nat n) buf.
Proof.
  intros Hp. unfold fwrite. rewrite Hp, !Nat2Z.id. cbn [bytes].
  rewrite firstn_all, skipn_all2 by lia.
  rewrite app_nil_r. reflexivity.
Qed.

(** The bytes of the image that [build_image] returns: the bootblock,
    the kernel and its padding, with four bytes replaced at offset 2. *)
Lemma build_image_bytes (boot_data kernel_data : list Segment)
    (img : list Z) :
  parsed boot_data -> parsed kernel_data ->
  build_image boot_data kernel_data = Some img ->
  let os_size := (memory_size kernel_data + 511) / 512 in
  let pad := Z.to_nat (512 * os_size - memory_size kernel_data) in
  let file :=
    contents boot_data ++ contents kernel_data ++ repeat 0 pad in
  length (contents boot_data) = 512%nat
  /\ 0 < memory_size kernel_data
  /\ img = firstn 2 file ++ int_bytes os_size ++ skipn 6 file.
Proof.
  intros Hb Hk H os_size pad file. unfold build_image in H.
  destruct (_ && _) eqn:Hc; [|discriminate].
  rewrite !andb_true_iff in Hc. destruct Hc as [[[_ _] Hbs] Hks].
  apply Z.eqb_eq in Hbs. apply Z.gtb_lt in Hks.
  assert (Hlen : length (contents boot_data) = 512%nat).
  { rewrite (memory_size_contents _ Hb) in Hbs. lia. }
  split; [exact Hlen|]. split; [exact Hks|].
  injection H as <-.
  rewrite os_size_rounds_up by lia. fold os_size.
  rewrite (write_segments_at_end boot_data) by (assumption || reflexivity).
  cbn [bytes fpos app].
  rewrite (write_segments_at_end kernel_data)
    by (try assumption; cbn [bytes fpos];
        rewrite (memory_size_contents _ Hb); lia).
  cbn [bytes fpos app].
  set (f2 := mk_file _ _).
  assert (Hf2 : fpos f2 = Z.of_nat (length (bytes f2))).
  { unfold f2. cbn [bytes fpos]. rewrite length_app.
    rewrite (memory_size_contents _ Hb), (memory_size_contents _ Hk). lia. }
  assert (Hfile : bytes (if negb (Z.rem (memory_size kernel_data) SECTOR_SIZE =? 0)
                         then fwrite (repeat 0 512)
                                (SECTOR_SIZE - Z.rem (memory_size kernel_data) SECTOR_SIZE) f2
                         else f2) = file).
  { unfold file, pad, os_size, SECTOR_SIZE.
    rewrite Z.rem_mod_nonneg by lia.
    pose proof (Z.div_mod (memory_size kernel_data) 512 ltac:(lia)) as Hd.
    pose proof (Z.mod_pos_bound (memory_size kernel_data) 512 ltac:(lia)) as Hm.
    destruct (Z.eqb_spec (memory_size kernel_data mod 512) 0) as [H0|H0];
      cbn [negb].
    - replace ((memory_size kernel_data + 511) / 512)
        with (memory_size kernel_data / 512)
        by (apply Z.div_unique with 511; lia).
      replace (512 * (memory_size kernel_data / 512) - memory_size kernel_data)
        with 0 by lia.
      unfold f2. cbn [bytes]. simpl. rewrite app_nil_r. reflexivity.
    - rewrite fwrite_prefix_at_end by exact Hf2.
      replace ((memory_size kernel_data + 511) / 512)
        with (memory_size kernel_data / 512 + 1)
        by (apply Z.div_unique with (memory_size kernel_data mod 512 - 1); lia).
      replace (512 * (memory_size kernel_data / 512 + 1) - memory_size kernel_data)
        with (512 - memory_size kernel_data mod 512) by lia.
      unfold f2. cbn [bytes]. rewrite <- app_assoc. do 2 f_equal.
      apply firstn_repeat_le. lia. }
  set (f3 := if negb _ then _ else _) in *.
  unfold fseek, fwrite. cbn [bytes fpos]. rewrite Hfile.
  reflexivity.
Qed.

(** C8, as stated, fails: the kernel length is written as a four-byte
    [int]; bytes 4 and 5 of the bootblock are overwritten as well. *)
Lemma build_image_overwrites_byte_4 :
  parsed nop_boot /\ parsed tiny_kernel
  /\ match build_image nop_boot tiny_kernel with
     | Some img =>
         load (contents nop_boot) 4 = 0x90 /\ load img 4 = 0
         /\ load (contents nop_boot) 5 = 0x90 /\ load img 5 = 0
     | None => False
     end.
Proof.
  split; [repeat constructor|]. split; [repeat constructor|].
  vm_compute. repeat split.
Qed.

(** C8, amended: on every successful run the image builder writes at
    byte offset 2 of the image the kernel length in sectors (the kernel
    segment bytes divided by 512, rounded up) as the four bytes of a
    little-endian [int], so that bytes 2 and 3 hold its low 16 bits and
    bytes 4 and 5 its high 16 bits; the bootblock bytes outside offsets
    2 to 5 are unchanged. *)
Theorem build_image_patches_os_size (boot_data kernel_data : list Segment)
    (img : list Z) :
  parsed boot_data -> parsed kernel_data ->
  build_image boot_data kernel_data = Some img ->
  let os_size := (memory_size kernel_data + 511) / 512 in
  Z.of_nat (length img) = 512 + 512 * os_size
  /\ load img 2 = os_size mod 256
  /\ load img 3 = (os_size / 256) mod 256
  /\ load img 4 = (os_size / 65536) mod 256
  /\ load img 5 = (os_size / 16777216) mod 256
  /\ forall i, 0 <= i < 512 -> i < 2 \/ 6 <= i ->
               load img i = load (contents boot_data) i.
Proof.
  intros Hb Hk H os_size.
  destruct (build_image_bytes _ _ _ Hb Hk H) as (Hlen & Hks & ->).
  fold os_size.
  set (pad := Z.to_nat (512 * os_size - memory_size kernel_data)).
  set (file := contents boot_data ++ contents kernel_data ++ repeat 0 pad).
  assert (Hos : memory_size kernel_data <= 512 * os_size).
  { unfold os_size.
    pose proof (Z.div_mod (memory_size kernel_data + 511) 512 ltac:(lia)).
    pose proof (Z.mod_pos_bound (memory_size kernel_data + 511) 512 ltac:(lia)).
    lia. }
  assert (Hfile : Z.of_nat (length file) = 512 + 512 * os_size).
  { unfold file, pad. rewrite !length_app, repeat_length.
    rewrite (memory_size_contents _ Hk) in *. lia. }
  assert (Hf2 : length (firstn 2 file) = 2%nat)
    by (rewrite length_take; lia).
  assert (Hbyte : forall j, 0 <= j < 4 ->
            load (firstn 2 file ++ int_bytes os_size ++ skipn 6 file) (2 + j)
            = load (int_bytes os_size) j).
  { intros j Hj. rewrite load_app_r by lia. rewrite Hf2.
    rewrite load_app_l by (simpl; lia). f_equal. lia. }
  split.
  { rewrite !length_app, length_take, length_drop. simpl length. lia. }
  split; [exact (Hbyte 0 ltac:(lia))|].
  split; [exact (Hbyte 1 ltac:(lia))|].
  split; [exact (Hbyte 2 ltac:(lia))|].
  split; [exact (Hbyte 3 ltac:(lia))|].
  intros i Hi [Hlo|Hhi].
  - rewrite load_app_l by lia. rewrite load_firstn by lia.
    unfold file. apply load_app_l. lia.
  - rewrite load_app_r by lia. rewrite Hf2.
    rewrite load_app_r by (simpl; lia). simpl length.
    rewrite load_skipn by lia.
    replace (Z.of_nat 6 + (i - Z.of_nat 2 - Z.of_nat 4)) with i by lia.
    unfold file. apply load_app_l. lia.
Qed.

(** The amended C8 on [nop_boot] and [tiny_kernel]: one sector. *)
Lemma build_image_patches_os_size_witness :
  match build_image nop_boot tiny_kernel with
  | Some img =>
      Z.of_nat (length img) = 1024
      /\ load img 2 = 1 /\ load img 3 = 0
      /\ load img 0 = 0x90 /\ load img 6 = 0x90
  | None => False
  end.
Proof.
  destruct (build_image nop_boot tiny_kernel) as [img|] eqn:H;
    [|vm_compute in H; discriminate].
  destruct (build_image_patches_os_size nop_boot tiny_kernel img)
    as (H1 & H2 & H3 & _ & _ & H6).
  - repeat constructor.
  - repeat constructor.
  - exact H.
  - split; [exact H1|]. split; [exact H2|]. split; [exact H3|].
    split; [apply (H6 0); lia|apply (H6 6); lia].
Defined.

(** *** [parse_file], and the kernel in the image *)

Lemma fread_here (pre x post : list Z) (n : Z) :
  Z.of_nat (length x) = n ->
  fread n (mk_file (pre ++ x ++ post) (Z.of_nat (length pre)))
  = (x, mk_file (pre ++ x ++ post) (Z.of_nat (length (pre ++ x)))).
Proof.
  intros Hn. unfold fread. cbn [bytes fpos]. subst n. rewrite !Nat2Z.id.
  rewrite drop_app_length, take_app_length, length_app.
  do 2 f_equal. lia.
Qed.

Lemma to_int_small (v : Z) : 0 <= v < 2147483648 -> to_int v = v.
Proof.
  intros H. unfold to_int. rewrite Z.mod_small by lia.
  destruct (Z.geb_spec v 2147483648); lia.
Qed.

Lemma memory_size_app (a b : list Segment) :
  memory_size (a ++ b) = memory_size a + memory_size b.
Proof. induction a as [|s a IH]; simpl; [reflexivity|]. rewrite IH. lia. Qed.

Lemma memory_size_nonneg (segs : list (list Z * list Z)) :
  0 <= memory_size (map segment_of segs).
Proof. induction segs as [|s segs IH]; simpl; lia. Qed.

Lemma parse_segments_sequential (segs : list (list Z * list Z)) :
  forall (pre post : list Z) (memsz : Z) (acc : list Segment),
  Forall well_sized segs ->
  0 <= memsz ->
  memsz + memory_size (map segment_of segs) < 2147483648 ->
  parse_segments (length segs)
    (mk_file (pre ++ concat (map segment_bytes segs) ++ post)
             (Z.of_nat (length pre)))
    memsz acc
  = Some (acc ++ map segment_of segs,
          memsz + memory_size (map segment_of segs)).
Proof.
  induction segs as [|[ph d] segs IH]; intros pre post memsz acc Hw Hm Hsum.
  - cbn. rewrite app_nil_r, Z.add_0_r. reflexivity.
  - inversion Hw as [|? ? [Hph Hd] Hw']; subst. cbn [fst snd] in *.
    cbn [length parse_segments map concat segment_bytes fst snd].
    pose proof (memory_size_nonneg segs) as Hnn.
    cbn [map memory_size segment_of size snd] in Hsum.
    change (segment_bytes (ph, d)) with (ph ++ d).
    rewrite <- !app_assoc.
    rewrite (fread_here pre ph) by exact Hph.
    rewrite Hph, Z.eqb_refl. cbn [negb].
    rewrite Hd.
    replace (pre ++ ph ++ d ++ concat (map segment_bytes segs) ++ post)
      with ((pre ++ ph) ++ d ++ concat (map segment_bytes segs) ++ post)
      by (rewrite <- app_assoc; reflexivity).
    rewrite (fread_here (pre ++ ph) d) by reflexivity.
    rewrite Nat2Z.id, Nat.sub_diag. cbn [repeat]. rewrite app_nil_r.
    rewrite !to_int_small by lia.
    replace ((pre ++ ph) ++ d ++ concat (map segment_bytes segs) ++ post)
      with (((pre ++ ph) ++ d) ++ concat (map segment_bytes segs) ++ post)
      by (rewrite <- !app_assoc; reflexivity).
    rewrite IH; [|assumption|lia|lia].
    rewrite <- app_assoc. cbn [app].
    apply f_equal. apply f_equal2; [reflexivity|].
    cbn [memory_size segment_of size snd]. lia.
Qed.

Lemma parsed_segment_of (segs : list (list Z * list Z)) :
  parsed (map segment_of segs).
Proof.
  unfold parsed. induction segs as [|s segs IH]; simpl; constructor; auto.
Qed.

(** X29: [parse_file] takes the bytes of a segment from right behind its
    program header, not from [p_offset]: on a file that holds the ELF
    header and then each program header followed by [p_memsz] bytes, it
    returns these bytes as the segments, their number, and the sum of
    their sizes; bytes behind the last segment are ignored. *)
Theorem parse_file_reads_behind_each_header (header trailer : list Z)
    (segs : list (list Z * list Z)) :
  let d := map segment_of segs in
  Z.of_nat (length header) = SIZEOF_EHDR ->
  e_phnum header = Z.of_nat (length segs) ->
  Forall well_sized segs ->
  memory_size d < 2147483648 ->
  parse_file (Some (sequential_elf header segs ++ trailer))
  = Some (d, segments_count d, memory_size d)
  /\ parsed d /\ contents d = concat (map snd segs).
Proof.
  intros d Hh Hn Hw Hsum. split; [|split].
  - unfold parse_file, sequential_elf. rewrite <- app_assoc.
    pose proof (fread_here [] header
                  (concat (map segment_bytes segs) ++ trailer)
                  SIZEOF_EHDR Hh) as Hr.
    cbn [app length] in Hr. change (Z.of_nat 0) with 0 in Hr.
    rewrite Hr. clear Hr. cbn [app].
    rewrite Hh, Z.eqb_refl. cbn [negb]. rewrite Hn, Nat2Z.id.
    pose proof (parse_segments_sequential segs header trailer 0 [] Hw) as Hp.
    cbn [app] in Hp. rewrite Z.add_0_l, Hh in Hp.
    rewrite Hp by (fold d; lia).
    unfold segments_count, d. rewrite length_map. reflexivity.
  - apply parsed_segment_of.
  - unfold contents, d. rewrite map_map. reflexivity.
Qed.

(** X30: The image builder fails exactly when one of the two files gave
    no segment, the bootblock is not 512 bytes, or the kernel is empty.
    On success the bytes of the kernel segments stand in the image from
    offset 512 on, followed by zeros up to the end of the last kernel
    sector. *)
Theorem build_image_places_kernel (boot_data kernel_data : list Segment) :
  let ks := memory_size kernel_data in
  let os_size := (ks + 511) / 512 in
  parsed boot_data -> parsed kernel_data ->
  (build_image boot_data kernel_data = None
   <-> boot_data = [] \/ kernel_data = []
       \/ memory_size boot_data <> 512 \/ ks <= 0)
  /\ forall img, build_image boot_data kernel_data = Some img ->
       (forall i, 0 <= i < ks ->
          load img (512 + i) = load (contents kernel_data) i)
       /\ (forall i, ks <= i < 512 * os_size -> load img (512 + i) = 0).
Proof.
  intros ks os_size Hb Hk. split.
  - unfold build_image, segments_count. fold ks.
    destruct boot_data as [|b bs]; [cbn; split; auto|].
    destruct kernel_data as [|s ss]; [cbn; split; auto|].
    replace (Z.of_nat (length (b :: bs)) >? 0) with true
      by (symmetry; apply Z.gtb_lt; simpl; lia).
    replace (Z.of_nat (length (s :: ss)) >? 0) with true
      by (symmetry; apply Z.gtb_lt; simpl; lia).
    cbn [andb].
    destruct (Z.eqb_spec (memory_size (b :: bs)) 512);
      destruct (Z.gtb_spec ks 0); cbn [andb]; split;
      try discriminate; try (intros _; reflexivity); auto;
      intros [E|[E|[E|E]]]; try discriminate; try contradiction; lia.
  - intros img H.
    destruct (build_image_bytes _ _ _ Hb Hk H) as (Hlen & Hks & ->).
    fold ks os_size.
    set (pad := Z.to_nat (512 * os_size - ks)).
    set (file := contents boot_data ++ contents kernel_data ++ repeat 0 pad).
    assert (Hkl : Z.of_nat (length (contents kernel_data)) = ks)
      by (symmetry; apply memory_size_contents; exact Hk).
    assert (Hhigh : forall j, 6 <= j ->
              load (firstn 2 file ++ int_bytes os_size ++ skipn 6 file) j
              = load file j).
    { intros j Hj.
      assert (Hfl : (2 <= length file)%nat).
      { unfold file. rewrite length_app. lia. }
      rewrite load_app_r by (rewrite length_take; lia).
      rewrite length_take, Nat.min_l by lia.
      rewrite load_app_r by (simpl; lia). simpl length.
      rewrite load_skipn by lia. f_equal. lia. }
    split.
    + intros i Hi. rewrite Hhigh by lia. unfold file.
      rewrite load_app_r by lia. rewrite Hlen.
      rewrite load_app_l by lia. f_equal. lia.
    + intros i Hi. rewrite Hhigh by lia. unfold file.
      rewrite load_app_r by lia. rewrite Hlen.
      rewrite load_app_r by lia.
      apply (load_in_range _ _ (fun x => x = 0)).
      * apply Forall_forall. intros x Hx. exact (repeat_spec _ _ _ Hx).
      * rewrite repeat_length. unfold pad. lia.
Qed.

(** X30 on [nop_boot] and [tiny_kernel]. *)
Lemma build_image_places_kernel_witness :
  match build_image nop_boot tiny_kernel with
  | Some img => load img 512 = 0xf4 /\ load img 513 = 0 /\ load img 1023 = 0
  | None => False
  end.
Proof.
  destruct (build_image nop_boot tiny_kernel) as [img|] eqn:H;
    [|vm_compute in H; discriminate].
  destruct (build_image_places_kernel nop_boot tiny_kernel) as (_ & Hi).
  - repeat constructor.
  - repeat constructor.
  - destruct (Hi img H) as (H1 & H2).
    split; [apply (H1 0); vm_compute; split; [discriminate|reflexivity]|].
    split; [apply (H2 1)|apply (H2 511)];
      vm_compute; (split; [discriminate|reflexivity]).
Defined.

(** X29 on a file with two segments. *)
Lemma parse_file_reads_behind_each_header_witness :
  let segs := [(phdr_for 2, [104; 105]); (phdr_for 1, [33])] in
  parse_file (Some (sequential_elf (ehdr_for 2) segs ++ [9; 9]))
  = Some ([mk_segment 2 [104; 105]; mk_segment 1 [33]], 2, 3)
  /\ parsed [mk_segment 2 [104; 105]; mk_segment 1 [33]]
  /\ contents [mk_segment 2 [104; 105]; mk_segment 1 [33]] = [104; 105; 33].
Proof.
  intros segs.
  apply (parse_file_reads_behind_each_header (ehdr_for 2) [9; 9] segs).
  - reflexivity.
  - reflexivity.
  - repeat constructor.
  - vm_compute. reflexivity.
Defined.

End ImageFacts.
